(** * scoutscrape: snapshot acquisition, caching and ingestion

    A shallow embedding of [main.go] and [summary.go] of scoutscrape, the
    scraper for the Scout data feed, and the proofs of the properties its
    design document states about it.

    The file has two parts.  Part I embeds the program: the Go library
    functions it calls ([strconv.Atoi], [strconv.ParseFloat],
    [time.ParseInLocation] for the one
    layout used, [io.TeeReader], [json.Decoder.Decode], [database/sql]) and
    then the program's own functions, under their source names.  Part II
    states and proves the properties. *)

From Stdlib Require Import ZArith List String Ascii Bool Lia Permutation.
From Stdlib Require Import Floats Uint63.
Import ListNotations.

Local Open Scope string_scope.
Local Open Scope Z_scope.

(* ================================================================= *)
(** * Part I: the program *)
(* ================================================================= *)

(** ** Errors and results *)

(** [strconv.ErrSyntax] and [strconv.ErrRange]. *)
Inductive numerr : Type := ErrSyntax | ErrRange.

(** The error values the program can produce or pass on.  Library errors
    keep the fields the program's behaviour can depend on; the errors of
    the operating system, the network and the database driver are opaque
    and carry their message only. *)
Inductive error : Type :=
| NumError (Func Num : string) (Err : numerr)   (* *strconv.NumError *)
| ParseError (Layout Value : string)            (* *time.ParseError *)
| EOF                                           (* io.EOF *)
| ErrUnexpectedEOF                              (* io.ErrUnexpectedEOF *)
| SyntaxError (msg : string)                    (* *json.SyntaxError *)
| OSError (msg : string)                        (* os, net, driver errors *)
| Errorf (prefix : string) (cause : error)      (* fmt.Errorf("<prefix>: %w", err) *)
| ErrBadResponse (status : string)              (* "fetch: bad response %s" *)
| ErrUnknownVersion (version : string)          (* "summary: unknown version found: %v" *)
| ErrDecodeFile (name : string) (cause : error) (* "decode: failed to decode %s: %w" *).

(** A Go [(T, error)] result. *)
Inductive result (A : Type) : Type :=
| Ok (a : A)
| Err (e : error).
Arguments Ok {A} a.
Arguments Err {A} e.

Definition is_ok {A : Type} (r : result A) : bool :=
  match r with Ok _ => true | Err _ => false end.

(** A byte of a Go string, as its number. *)
Definition byte (c : ascii) : Z := Z.of_N (N_of_ascii c).

(** The double quote character, code 34. *)
Definition dquote : ascii := "034"%char.
(** The single quote character, code 39. *)
Definition squote : ascii := "039"%char.

(** ** [strconv]: decimal integers and floats *)

Module strconv.

Definition intSize : Z := 64.
Definition maxUint64 : Z := 2 ^ 64 - 1.

(** The loop of [Atoi]'s fast path:
    [for _, ch := range []byte(s) { ch -= '0'; if ch > 9 { syntax error };
     n = n*10 + int(ch) }], the subtraction being on bytes. *)
Fixpoint atoi_fast (s : string) (n : Z) : option Z :=
  match s with
  | EmptyString => Some n
  | String c s' =>
      let ch := (byte c - 48) mod 256 in
      if 9 <? ch then None else atoi_fast s' (n * 10 + ch)
  end.

(** [lower(c) = c | ('x' - 'X')]. *)
Definition lower (c : Z) : Z := Z.lor c 32.

(** The digit loop of [ParseUint(s, 10, 64)].  [cutoff] is
    [maxUint64/10 + 1]; the addition is on [uint64], so it wraps. *)
Definition cutoff10 : Z := maxUint64 / 10 + 1.

Fixpoint parseUint_loop (s : string) (n : Z) : Z + numerr :=
  match s with
  | EmptyString => inl n
  | String ch s' =>
      let c := byte ch in
      let d :=
        if (48 <=? c) && (c <=? 57) then Some (c - 48)
        else if (97 <=? lower c) && (lower c <=? 122) then Some (lower c - 97 + 10)
        else None in
      match d with
      | None => inr ErrSyntax
      | Some d =>
          if 10 <=? d then inr ErrSyntax
          else if cutoff10 <=? n then inr ErrRange
          else
            let n := n * 10 in
            let n1 := (n + d) mod 2 ^ 64 in
            if (n1 <? n) || (maxUint64 <? n1) then inr ErrRange
            else parseUint_loop s' n1
      end
  end.

(** [ParseUint(s, 10, 0)]: the value, or the kind of error. *)
Definition ParseUint (s : string) : Z + numerr :=
  match s with
  | EmptyString => inr ErrSyntax
  | _ => parseUint_loop s 0
  end.

(** [ParseInt(s, 10, 0)]: a leading sign is picked off, the rest is parsed
    unsigned and checked against the range of a 64-bit [int].  On a range
    error of [ParseUint] the value is [maxUint64], which fails both range
    tests below. *)
Definition ParseInt (s : string) : Z + numerr :=
  match s with
  | EmptyString => inr ErrSyntax
  | String c rest =>
      let neg := Ascii.eqb c "-" in
      let s1 := if Ascii.eqb c "+" || neg then rest else s in
      match ParseUint s1 with
      | inr ErrSyntax => inr ErrSyntax
      | r =>
          let un := match r with inl un => un | inr _ => maxUint64 end in
          let cutoff := 2 ^ (intSize - 1) in
          if negb neg && (cutoff <=? un) then inr ErrRange
          else if neg && (cutoff <? un) then inr ErrRange
          else inl (if neg then - un else un)
      end
  end.

(** [Atoi(s)]: the fast path for strings of 1 to 18 bytes, [ParseInt]
    otherwise.  Every error is a [NumError] with [Func = "Atoi"] and
    [Num = s]. *)
Definition Atoi (s : string) : result Z :=
  let sLen := Z.of_nat (String.length s) in
  if (0 <? sLen) && (sLen <? 19) then
    match s with
    | EmptyString => Err (NumError "Atoi" s ErrSyntax)
    | String c rest =>
        let signed := Ascii.eqb c "-" || Ascii.eqb c "+" in
        let s1 := if signed then rest else s in
        if signed && (Z.of_nat (String.length s1) <? 1)
        then Err (NumError "Atoi" s ErrSyntax)
        else
          match atoi_fast s1 0 with
          | None => Err (NumError "Atoi" s ErrSyntax)
          | Some n => Ok (if Ascii.eqb c "-" then - n else n)
          end
    end
  else
    match ParseInt s with
    | inl i => Ok i
    | inr k => Err (NumError "Atoi" s k)
    end.

(** Decimal rendering of an integer, as [strconv.Itoa] and [fmt]'s [%d]
    print it: the digits of [n], most significant first. *)
Definition digit_char (d : Z) : ascii := ascii_of_N (Z.to_N (48 + d)).

Fixpoint utoa (fuel : nat) (n : Z) (acc : string) : string :=
  match fuel with
  | O => acc
  | S fuel' =>
      let acc' := String (digit_char (n mod 10)) acc in
      if n <? 10 then acc' else utoa fuel' (n / 10) acc'
  end.

Definition Itoa (i : Z) : string :=
  if i <? 0
  then String "-" (utoa (S (Z.to_nat (Z.log2 (- i)))) (- i) "")
  else utoa (S (Z.to_nat (Z.log2 i))) i "".

(** *** [ParseFloat]

    [ParseFloat(s, 64)] reads the infinities and NaN by name, and numbers
    in base 10 or 16 with an optional point, an exponent and underscores
    between digits; it returns the binary64 value nearest to the number
    read, rounded to even. *)

(** [commonPrefixLenIgnoreCase(s, prefix)], [prefix] being in lower
    case. *)
Fixpoint commonPrefixLenIgnoreCase (s prefix : string) : nat :=
  match s, prefix with
  | String c s', String p prefix' =>
      let c := if (65 <=? byte c) && (byte c <=? 90) then byte c + 32 else byte c in
      if c =? byte p then S (commonPrefixLenIgnoreCase s' prefix') else O
  | _, _ => O
  end.

(** [special(s)]: the infinities and NaN, with the number of bytes
    read.  A sign is followed by an infinity only. *)
Definition special (s : string) : option (float * nat) :=
  let inf (neg : bool) (nsign : nat) (s : string) :=
    let n := commonPrefixLenIgnoreCase s "infinity" in
    let n := if (3 <? n)%nat && (n <? 8)%nat then 3%nat else n in
    if (n =? 3)%nat || (n =? 8)%nat
    then Some (if neg then neg_infinity else infinity, (nsign + n)%nat)
    else None in
  match s with
  | EmptyString => None
  | String c s' =>
      if Ascii.eqb c "+" then inf false 1%nat s'
      else if Ascii.eqb c "-" then inf true 1%nat s'
      else if Ascii.eqb c "i" || Ascii.eqb c "I" then inf false 0%nat s
      else if Ascii.eqb c "n" || Ascii.eqb c "N" then
        if (commonPrefixLenIgnoreCase s "nan" =? 3)%nat then Some (nan, 3%nat) else None
      else None
  end.

(** What [underscoreOK] remembers of the last byte: the beginning of the
    number, a digit or the base prefix, an underscore, anything else. *)
Inductive saw : Type := SawStart | SawDigit | SawUnderscore | SawOther.

Fixpoint underscoreOK_loop (hex : bool) (s : string) (i : saw) : bool :=
  match s with
  | EmptyString => match i with SawUnderscore => false | _ => true end
  | String c s' =>
      let b := byte c in
      if ((48 <=? b) && (b <=? 57))
         || (hex && (97 <=? lower b) && (lower b <=? 102))
      then underscoreOK_loop hex s' SawDigit
      else if b =? 95 then
        match i with
        | SawDigit => underscoreOK_loop hex s' SawUnderscore
        | _ => false
        end
      else
        match i with
        | SawUnderscore => false
        | _ => underscoreOK_loop hex s' SawOther
        end
  end.

(** [underscoreOK(s)]: an underscore stands between two digits, or
    between the base prefix and a digit. *)
Definition underscoreOK (s : string) : bool :=
  let s := match s with
           | String c s' => if Ascii.eqb c "-" || Ascii.eqb c "+" then s' else s
           | EmptyString => s
           end in
  match s with
  | String z (String x rest) =>
      if Ascii.eqb z "0"
         && ((lower (byte x) =? 98) || (lower (byte x) =? 111) || (lower (byte x) =? 120))
      then underscoreOK_loop (lower (byte x) =? 120) rest SawDigit
      else underscoreOK_loop false s SawStart
  | _ => underscoreOK_loop false s SawStart
  end.

(** The variables of the digit loop of [readFloat].  [mantissa] holds
    every digit read: the library keeps the first 19 (16 in base 16) and
    a flag for the rest, from which its conversions give the float nearest
    to the whole number. *)
Record digits : Type := mkDigits {
  sawdot : bool;
  sawdigits : bool;
  nd : Z;
  dp : Z;
  mantissa : Z;
  underscores : bool
}.

(** The digit loop of [readFloat]; it returns what it did not read. *)
Fixpoint readDigits (hex : bool) (s : string) (st : digits) : string * digits :=
  match s with
  | EmptyString => (s, st)
  | String c s' =>
      let b := byte c in
      if b =? 95 then
        readDigits hex s'
          (mkDigits (sawdot st) (sawdigits st) (nd st) (dp st) (mantissa st) true)
      else if b =? 46 then
        if sawdot st then (s, st)
        else readDigits hex s'
               (mkDigits true (sawdigits st) (nd st) (nd st) (mantissa st) (underscores st))
      else if (48 <=? b) && (b <=? 57) then
        if (b =? 48) && (nd st =? 0) then
          readDigits hex s'
            (mkDigits (sawdot st) true (nd st) (dp st - 1) (mantissa st) (underscores st))
        else
          readDigits hex s'
            (mkDigits (sawdot st) true (nd st + 1) (dp st)
               (mantissa st * (if hex then 16 else 10) + (b - 48)) (underscores st))
      else if hex && (97 <=? lower b) && (lower b <=? 102) then
        readDigits hex s'
          (mkDigits (sawdot st) true (nd st + 1) (dp st)
             (mantissa st * 16 + (lower b - 97 + 10)) (underscores st))
      else (s, st)
  end.

(** The digits of the exponent: [if e < 10000 { e = e*10 + digit }]. *)
Fixpoint readExponent (s : string) (e : Z) (us : bool) : string * Z * bool :=
  match s with
  | EmptyString => (s, e, us)
  | String c s' =>
      let b := byte c in
      if (48 <=? b) && (b <=? 57)
      then readExponent s' (if e <? 10000 then e * 10 + (b - 48) else e) us
      else if b =? 95 then readExponent s' e true
      else (s, e, us)
  end.

(** [readFloat(s)]: the sign, whether the number is in base 16, the
    mantissa, the exponent of 10 (of 2 in base 16) and what was not
    read; [None] when [ok] is false. *)
Definition readFloat (s : string) : option (bool * bool * Z * Z * string) :=
  let '(neg, s1) :=
    match s with
    | String c s' =>
        if Ascii.eqb c "+" then (false, s')
        else if Ascii.eqb c "-" then (true, s')
        else (false, s)
    | EmptyString => (false, s)
    end in
  let '(hex, s2) :=
    match s1 with
    | String z (String x (String c r)) =>
        if Ascii.eqb z "0" && (lower (byte x) =? 120) then (true, String c r)
        else (false, s1)
    | _ => (false, s1)
    end in
  let '(s3, st) := readDigits hex s2 (mkDigits false false 0 0 0 false) in
  if negb (sawdigits st) then None
  else
    let dp := if sawdot st then dp st else nd st in
    let dp := if hex then dp * 4 else dp in
    let ndMant := if hex then nd st * 4 else nd st in
    let finish (dp : Z) (rest : string) (us : bool) :=
      let exp := if mantissa st =? 0 then 0 else dp - ndMant in
      if us && negb (underscoreOK
                       (substring 0 (String.length s - String.length rest) s))
      then None
      else Some (neg, hex, mantissa st, exp, rest) in
    let no_exponent := if hex then None else finish dp s3 (underscores st) in
    match s3 with
    | String c s4 =>
        if lower (byte c) =? (if hex then 112 else 101) then
          match s4 with
          | EmptyString => None
          | String c' s5 =>
              let '(esign, s6) :=
                if Ascii.eqb c' "+" then (1, s5)
                else if Ascii.eqb c' "-" then (-1, s5)
                else (1, s4) in
              match s6 with
              | String d _ =>
                  if (48 <=? byte d) && (byte d <=? 57) then
                    let '(s7, e, us) := readExponent s6 0 (underscores st) in
                    finish (dp + e * esign) s7 us
                  else None
              | EmptyString => None
              end
          end
        else no_exponent
    | EmptyString => no_exponent
    end.

(** The binary64 value nearest to [m * 10^e], ties to even, for
    [0 <= m]: an integer is rounded as it is, a quotient from the digits
    and the remainder of one long division.  A number of at least
    [2^1025] is beyond the largest float and one below [2^-1075] is
    nearer to zero than to any other float, so the powers of ten far out
    of range are not computed (the library cuts off likewise). *)
Definition round_decimal (neg : bool) (m e : Z) : spec_float :=
  if m <=? 0 then S754_zero neg
  else if 0 <=? e then
    if 1024 <? 3 * e then S754_infinity neg
    else binary_round prec emax neg (Z.to_pos (m * 10 ^ e)) 0
  else if Z.log2 m + 1 + 3 * e <? -1075 then S754_zero neg
  else
    let '(q, e', l) := SFdiv_core_binary prec emax m 0 (10 ^ (- e)) 0 in
    binary_round_aux prec emax neg q e' l.

(** The binary64 value nearest to [m * 2^e], ties to even. *)
Definition round_binary (neg : bool) (m e : Z) : spec_float :=
  if m <=? 0 then S754_zero neg
  else binary_round prec emax neg (Z.to_pos m) e.

(** [ParseFloat(s, 64)].  The whole of [s] has to be a number, else the
    error is a syntax error; a number that rounds to an infinity is a
    range error (the infinity returned with it is dropped by the callers
    here). *)
Definition ParseFloat (s : string) : result float :=
  let syntax := Err (NumError "ParseFloat" s ErrSyntax) in
  match special s with
  | Some (v, n) => if (n =? String.length s)%nat then Ok v else syntax
  | None =>
      match readFloat s with
      | None => syntax
      | Some (neg, hex, m, e, rest) =>
          match rest with
          | String _ _ => syntax
          | EmptyString =>
              match (if hex then round_binary neg m e else round_decimal neg m e) with
              | S754_infinity _ => Err (NumError "ParseFloat" s ErrRange)
              | sf => Ok (SF2Prim sf)
              end
          end
      end
  end.

End strconv.

(** ** [time]: instants and the layout ["2006-01-02 15:04"] *)

Module gotime.

(** A [time.Time] in UTC without monotonic reading, as the number of
    nanoseconds since the zero instant, January 1 of year 1, 00:00:00 UTC.
    The zero value of the Go type is [0]. *)
Definition Time : Type := Z.

Definition zero : Time := 0.
Definition Second : Z := 1000000000.
Definition Minute : Z := 60 * Second.

(** [t.After(u)], [t.Add(d)] and [t.Unix()]. *)
Definition After (t u : Time) : bool := u <? t.
Definition Add (t : Time) (d : Z) : Time := t + d.
Definition unixToInternal : Z := 62135596800.
Definition Unix (t : Time) : Z := t / Second - unixToInternal.

Definition isLeap (year : Z) : bool :=
  (year mod 4 =? 0) && (negb (year mod 100 =? 0) || (year mod 400 =? 0)).

Definition daysBefore (month : Z) : Z :=
  nth (Z.to_nat month)
    [0; 31; 59; 90; 120; 151; 181; 212; 243; 273; 304; 334; 365] 0.

Definition daysIn (month year : Z) : Z :=
  if (month =? 2) && isLeap year then 29
  else daysBefore month - daysBefore (month - 1).

(** [Date(year, month, day, hour, min, 0, 0, UTC)] for a month in 1..12:
    days since January 1 of year 1, then the time of day. *)
Definition Date (year month day hour min : Z) : Time :=
  let y := year - 1 in
  let d := 365 * y + y / 4 - y / 100 + y / 400 in
  let d := d + daysBefore (month - 1) in
  let d := if isLeap year && (3 <=? month) then d + 1 else d in
  let d := d + (day - 1) in
  (d * 86400 + hour * 3600 + min * 60) * Second.

(** [isDigit(s, i)] for [i = 0], and the value of a digit. *)
Definition isDigitChar (c : ascii) : bool := (48 <=? byte c) && (byte c <=? 57).

Definition isDigit0 (s : string) : bool :=
  match s with String c _ => isDigitChar c | EmptyString => false end.

(** [getnum(s, fixed)]: one or two leading digits; two are required when
    [fixed].  [None] is [errBad]. *)
Definition getnum (s : string) (fixed : bool) : option (Z * string) :=
  match s with
  | String c0 s1 =>
      if negb (isDigitChar c0) then None
      else if negb (isDigit0 s1) then
             if fixed then None else Some (byte c0 - 48, s1)
           else
             match s1 with
             | String c1 s2 => Some ((byte c0 - 48) * 10 + (byte c1 - 48), s2)
             | EmptyString => None
             end
  | EmptyString => None
  end.

(** [cutspace]: drop the leading spaces. *)
Fixpoint cutspace (s : string) : string :=
  match s with
  | String c s' => if Ascii.eqb c " " then cutspace s' else s
  | EmptyString => s
  end.

(** [skip(value, prefix)]: remove [prefix] from [value], a run of spaces
    of the prefix matching any run of spaces, also an empty one at the end
    of [value].  Each round shortens [prefix], so [fuel] is its length. *)
Fixpoint skip_loop (fuel : nat) (value prefix : string) : option string :=
  match prefix with
  | EmptyString => Some value
  | String p prefix' =>
      match fuel with
      | O => None
      | S fuel' =>
          if Ascii.eqb p " " then
            match value with
            | String v _ =>
                if negb (Ascii.eqb v " ") then None
                else skip_loop fuel' (cutspace value) (cutspace prefix)
            | EmptyString => skip_loop fuel' (cutspace value) (cutspace prefix)
            end
          else
            match value with
            | String v value' =>
                if Ascii.eqb v p then skip_loop fuel' value' prefix' else None
            | EmptyString => None
            end
      end
  end.

Definition skip (value prefix : string) : option string :=
  skip_loop (String.length prefix) value prefix.

(** [leadingInt] without its overflow test, which four digits cannot
    reach: the leading digits' value and the rest. *)
Fixpoint leadingInt (s : string) (x : Z) : Z * string :=
  match s with
  | String c s' =>
      if isDigitChar c then leadingInt s' (x * 10 + (byte c - 48)) else (x, s)
  | EmptyString => (x, s)
  end.

(** [atoi] of the package, on a string that starts with a digit: every
    byte has to be a digit. *)
Definition atoi (s : string) : option Z :=
  match leadingInt s 0 with
  | (x, EmptyString) => Some x
  | _ => None
  end.

Definition layout : string := "2006-01-02 15:04".

(** [ParseInLocation(layout, value, UTC)] for the layout above, chunk by
    chunk as [parse] walks it: the year ([stdLongYear], four bytes), ["-"],
    the month ([stdZeroMonth], two digits, 1..12), ["-"], the day
    ([stdZeroDay], two digits), [" "], the hour ([stdHour], one or two
    digits, below 24), [":"], the minute ([stdZeroMinute], two digits,
    below 60), no text left over, and the day within the month.  Every
    failure is a [ParseError] for the layout and the value; which element
    failed is not kept. *)
Definition ParseInLocation (value : string) : result Time :=
  let bad := Err (ParseError layout value) in
  let v := value in
  if (Z.of_nat (String.length v) <? 4) || negb (isDigit0 v) then bad else
  match atoi (substring 0 4 v) with
  | None => bad
  | Some year =>
  let v := substring 4 (String.length v - 4) v in
  match skip v "-" with
  | None => bad
  | Some v =>
  match getnum v true with
  | None => bad
  | Some (month, v) =>
  if (month <=? 0) || (12 <? month) then bad else
  match skip v "-" with
  | None => bad
  | Some v =>
  match getnum v true with
  | None => bad
  | Some (day, v) =>
  match skip v " " with
  | None => bad
  | Some v =>
  match getnum v false with
  | None => bad
  | Some (hour, v) =>
  if (hour <? 0) || (24 <=? hour) then bad else
  match skip v ":" with
  | None => bad
  | Some v =>
  match getnum v true with
  | None => bad
  | Some (min, v) =>
  if (min <? 0) || (60 <=? min) then bad else
  if negb (String.length v =? 0)%nat then bad else
  if (day <? 1) || (daysIn month year <? day) then bad else
  Ok (Date year month day hour min)
  end end end end end end end end end.

End gotime.

(** ** summary.go: the nullable decoders *)

(** [var null = []byte("null")]. *)
Definition null : string := "null".

(** [unquote]: a token of at least two bytes whose first and last bytes
    are the same quote character, single or double, loses both. *)
Definition unquote (data : string) : string :=
  let n := String.length data in
  match String.get 0 data, String.get (n - 1) data with
  | Some first, Some last =>
      if (1 <? n)%nat && Ascii.eqb first last
         && (Ascii.eqb first squote || Ascii.eqb first dquote)
      then substring 1 (n - 2) data
      else data
  | _, _ => data
  end.

(** [type qint struct{ *int }]: the pointer is nil ([None]) or points to
    the decoded integer. *)
Record qint : Type := Qint { qint_int : option Z }.

(** [type qfloat struct{ *float64 }]. *)
Record qfloat : Type := Qfloat { qfloat_float64 : option float }.

(** [type mintime time.Time]. *)
Definition mintime : Type := gotime.Time.

(** What a call of [V()] returns and [stmt.Exec] receives: an
    [interface{}] holding nil, an [int], a [float64], a [string] or a
    [time.Time]. *)
Inductive any : Type :=
| Nil
| Int (i : Z)
| Float64 (f : float)
| Str (s : string)
| TimeVal (t : gotime.Time).

(** [func (i *qint) UnmarshalJSON(data []byte) error]: the receiver's
    value before the call goes in, its value after the call comes out.  On
    the null token and on an error the receiver is not written. *)
Definition qint_UnmarshalJSON (i : qint) (data : string) : result qint :=
  if String.eqb data null then Ok i
  else
    match strconv.Atoi (unquote data) with
    | Err e => Err e
    | Ok v => Ok (Qint (Some v))
    end.

(** [func (i *qint) V() interface{}], on a receiver that is not nil (it is
    always the address of a field of a [Detail]). *)
Definition qint_V (i : qint) : any :=
  match qint_int i with
  | Some v => Int v
  | None => Nil
  end.

(** [func (t *mintime) UnmarshalJSON(data []byte) error]. *)
Definition mintime_UnmarshalJSON (t : mintime) (data : string) : result mintime :=
  if String.eqb data null then Ok t
  else
    match gotime.ParseInLocation (unquote data) with
    | Err e => Err e
    | Ok v => Ok v
    end.

(** [func (f *qfloat) V() interface{}]. *)
Definition qfloat_V (f : qfloat) : any :=
  match qfloat_float64 f with
  | Some v => Float64 v
  | None => Nil
  end.

(** [type Detail struct]: one hazard record. *)
Record Detail : Type := mkDetail {
  ObjectName : string;
  LastRun : mintime;
  H : qfloat;
  Rating : qint;
  CaDist : qfloat;
  Moid : qfloat;
  NeoScore : qint;
  Neo1KmScore : qint;
  PhaScore : qint;
  IeoScore : qint;
  GeocentricScore : qint;
  TisserandScore : qint;
  Unc : qfloat;
  UncP1 : qfloat;
  Ra : string;
  Dec : string;
  Elong : string;
  TEphem : mintime;
  Rate : qfloat;
  NObs : qint;
  Arc : qfloat;
  VInf : qfloat;
  RmsN : qfloat;
  Vmag : qfloat
}.

(** [type Summary struct], the anonymous [Signature] struct flattened. *)
Record Summary : Type := mkSummary {
  Count : string;
  Signature_Source : string;
  Signature_Version : string;
  Data : list Detail
}.

(** The zero values Go gives a fresh variable of each type. *)
Definition qint_zero : qint := Qint None.
Definition qfloat_zero : qfloat := Qfloat None.
Definition mintime_zero : mintime := gotime.zero.

(** The fields of [Detail] whose types have an [UnmarshalJSON] method:
    [encoding/json] hands the raw token of such a field to that method. *)
Inductive intfield : Type :=
| FRating | FNeoScore | FNeo1KmScore | FPhaScore | FIeoScore
| FGeocentricScore | FTisserandScore | FNObs.

Inductive floatfield : Type :=
| FH | FCaDist | FMoid | FUnc | FUncP1 | FRate | FArc | FVInf | FRmsN | FVmag.

Inductive timefield : Type := FLastRun | FTEphem.

Inductive field : Type :=
| IntField (f : intfield)
| FloatField (f : floatfield)
| TimeField (f : timefield).

(** The [json:"..."] tag of each such field. *)
Definition json_name (f : field) : string :=
  match f with
  | IntField FRating => "rating"
  | IntField FNeoScore => "neoScore"
  | IntField FNeo1KmScore => "neo1kmScore"
  | IntField FPhaScore => "phaScore"
  | IntField FIeoScore => "ieoScore"
  | IntField FGeocentricScore => "geocentricScore"
  | IntField FTisserandScore => "tisserandScore"
  | IntField FNObs => "nObs"
  | FloatField FH => "H"
  | FloatField FCaDist => "caDist"
  | FloatField FMoid => "moid"
  | FloatField FUnc => "unc"
  | FloatField FUncP1 => "uncP1"
  | FloatField FRate => "rate"
  | FloatField FArc => "arc"
  | FloatField FVInf => "vInf"
  | FloatField FRmsN => "rmsN"
  | FloatField FVmag => "Vmag"
  | TimeField FLastRun => "lastRun"
  | TimeField FTEphem => "tEphem"
  end.

Definition get_int (f : intfield) (d : Detail) : qint :=
  match f with
  | FRating => Rating d
  | FNeoScore => NeoScore d
  | FNeo1KmScore => Neo1KmScore d
  | FPhaScore => PhaScore d
  | FIeoScore => IeoScore d
  | FGeocentricScore => GeocentricScore d
  | FTisserandScore => TisserandScore d
  | FNObs => NObs d
  end.

Definition get_float (f : floatfield) (d : Detail) : qfloat :=
  match f with
  | FH => H d
  | FCaDist => CaDist d
  | FMoid => Moid d
  | FUnc => Unc d
  | FUncP1 => UncP1 d
  | FRate => Rate d
  | FArc => Arc d
  | FVInf => VInf d
  | FRmsN => RmsN d
  | FVmag => Vmag d
  end.

Definition get_time (f : timefield) (d : Detail) : mintime :=
  match f with
  | FLastRun => LastRun d
  | FTEphem => TEphem d
  end.

Definition set_int (f : intfield) (v : qint) (d : Detail) : Detail :=
  match d with
  | mkDetail on lr h ra cd mo ns n1 ps is_ gs ts un u1 r de el te rt no ar vi rm vm =>
      match f with
      | FRating => mkDetail on lr h v cd mo ns n1 ps is_ gs ts un u1 r de el te rt no ar vi rm vm
      | FNeoScore => mkDetail on lr h ra cd mo v n1 ps is_ gs ts un u1 r de el te rt no ar vi rm vm
      | FNeo1KmScore => mkDetail on lr h ra cd mo ns v ps is_ gs ts un u1 r de el te rt no ar vi rm vm
      | FPhaScore => mkDetail on lr h ra cd mo ns n1 v is_ gs ts un u1 r de el te rt no ar vi rm vm
      | FIeoScore => mkDetail on lr h ra cd mo ns n1 ps v gs ts un u1 r de el te rt no ar vi rm vm
      | FGeocentricScore => mkDetail on lr h ra cd mo ns n1 ps is_ v ts un u1 r de el te rt no ar vi rm vm
      | FTisserandScore => mkDetail on lr h ra cd mo ns n1 ps is_ gs v un u1 r de el te rt no ar vi rm vm
      | FNObs => mkDetail on lr h ra cd mo ns n1 ps is_ gs ts un u1 r de el te rt v ar vi rm vm
      end
  end.

Definition set_float (f : floatfield) (v : qfloat) (d : Detail) : Detail :=
  match d with
  | mkDetail on lr h ra cd mo ns n1 ps is_ gs ts un u1 r de el te rt no ar vi rm vm =>
      match f with
      | FH => mkDetail on lr v ra cd mo ns n1 ps is_ gs ts un u1 r de el te rt no ar vi rm vm
      | FCaDist => mkDetail on lr h ra v mo ns n1 ps is_ gs ts un u1 r de el te rt no ar vi rm vm
      | FMoid => mkDetail on lr h ra cd v ns n1 ps is_ gs ts un u1 r de el te rt no ar vi rm vm
      | FUnc => mkDetail on lr h ra cd mo ns n1 ps is_ gs ts v u1 r de el te rt no ar vi rm vm
      | FUncP1 => mkDetail on lr h ra cd mo ns n1 ps is_ gs ts un v r de el te rt no ar vi rm vm
      | FRate => mkDetail on lr h ra cd mo ns n1 ps is_ gs ts un u1 r de el te v no ar vi rm vm
      | FArc => mkDetail on lr h ra cd mo ns n1 ps is_ gs ts un u1 r de el te rt no v vi rm vm
      | FVInf => mkDetail on lr h ra cd mo ns n1 ps is_ gs ts un u1 r de el te rt no ar v rm vm
      | FRmsN => mkDetail on lr h ra cd mo ns n1 ps is_ gs ts un u1 r de el te rt no ar vi v vm
      | FVmag => mkDetail on lr h ra cd mo ns n1 ps is_ gs ts un u1 r de el te rt no ar vi rm v
      end
  end.

Definition set_time (f : timefield) (v : mintime) (d : Detail) : Detail :=
  match d with
  | mkDetail on lr h ra cd mo ns n1 ps is_ gs ts un u1 r de el te rt no ar vi rm vm =>
      match f with
      | FLastRun => mkDetail on v h ra cd mo ns n1 ps is_ gs ts un u1 r de el te rt no ar vi rm vm
      | FTEphem => mkDetail on lr h ra cd mo ns n1 ps is_ gs ts un u1 r de el v rt no ar vi rm vm
      end
  end.

(** [func (f *qfloat) UnmarshalJSON(data []byte) error]. *)
Definition qfloat_UnmarshalJSON (f : qfloat) (data : string) : result qfloat :=
  if String.eqb data null then Ok f
  else
    match strconv.ParseFloat (unquote data) with
    | Err e => Err e
    | Ok v => Ok (Qfloat (Some v))
    end.

(** What [encoding/json] does with one member of a record's JSON object
    whose key names field [f]: it calls the field's [UnmarshalJSON] on the
    member's raw token, and an error of the method ends the decoding with
    that error. *)
Definition decode_member (d : Detail) (f : field) (data : string) : result Detail :=
  match f with
  | IntField g =>
      match qint_UnmarshalJSON (get_int g d) data with
      | Ok v => Ok (set_int g v d)
      | Err e => Err e
      end
  | FloatField g =>
      match qfloat_UnmarshalJSON (get_float g d) data with
      | Ok v => Ok (set_float g v d)
      | Err e => Err e
      end
  | TimeField g =>
      match mintime_UnmarshalJSON (get_time g d) data with
      | Ok v => Ok (set_time g v d)
      | Err e => Err e
      end
  end.

(** The members of one record's object, in their order, decoded into [d]. *)
Fixpoint decode_members (d : Detail) (ms : list (field * string)) : result Detail :=
  match ms with
  | [] => Ok d
  | (f, data) :: ms' =>
      match decode_member d f data with
      | Ok d' => decode_members d' ms'
      | Err e => Err e
      end
  end.

(** The arguments of [stmt.Exec] in [writeSummaries], in the order of the
    statement's columns. *)
Definition exec_args (d : Detail) : list any :=
  [ Str (ObjectName d);
    TimeVal (LastRun d);
    qfloat_V (H d);
    qint_V (Rating d);
    qfloat_V (CaDist d);
    qfloat_V (Moid d);
    qint_V (NeoScore d);
    qint_V (Neo1KmScore d);
    qint_V (PhaScore d);
    qint_V (IeoScore d);
    qint_V (GeocentricScore d);
    qint_V (TisserandScore d);
    qfloat_V (Unc d);
    qfloat_V (UncP1 d);
    Str (Ra d);
    Str (Dec d);
    Str (Elong d);
    TimeVal (TEphem d);
    qfloat_V (Rate d);
    qint_V (NObs d);
    qfloat_V (Arc d);
    qfloat_V (VInf d);
    qfloat_V (RmsN d);
    qfloat_V (Vmag d) ].

(** The columns of the statement, [$1] being column 0, and the column
    each decoded field is bound to. *)
Definition columns : list string :=
  [ "object_name"; "last_run"; "h"; "rating"; "ca_dist"; "moid";
    "neo_score"; "neo_1km_score"; "pha_score"; "ieo_score";
    "geocentric_score"; "tisserand_score"; "unc"; "uncp1"; "ra"; "dec";
    "elong"; "tephem"; "rate"; "nobs"; "arc"; "vinf"; "rmsn"; "vmag" ].

Definition column_of (f : field) : nat :=
  match f with
  | TimeField FLastRun => 1
  | FloatField FH => 2
  | IntField FRating => 3
  | FloatField FCaDist => 4
  | FloatField FMoid => 5
  | IntField FNeoScore => 6
  | IntField FNeo1KmScore => 7
  | IntField FPhaScore => 8
  | IntField FIeoScore => 9
  | IntField FGeocentricScore => 10
  | IntField FTisserandScore => 11
  | FloatField FUnc => 12
  | FloatField FUncP1 => 13
  | TimeField FTEphem => 17
  | FloatField FRate => 18
  | IntField FNObs => 19
  | FloatField FArc => 20
  | FloatField FVInf => 21
  | FloatField FRmsN => 22
  | FloatField FVmag => 23
  end%nat.


(** ** [database/sql] over the store *)

Module sql.

(** One row of table [scout]: the values bound to the 24 columns. *)
Definition Row : Type := list any.

(** The calls the program makes on the database, in order. *)
Inductive call : Type :=
| CConnect                    (* sqlx.Connect *)
| CExecSchema                 (* db.Exec(schema) *)
| CPrepare                    (* db.Prepare(INSERT ...) *)
| CBegin                      (* db.Begin *)
| CStmtExec (args : list any) (* stmt.Exec *)
| CRollback                   (* tx.Rollback *)
| CCommit                     (* tx.Commit *)
| CClose                      (* db.Close *).

(** The database as the program sees it.  [rows] are the committed rows of
    the table; [pending] is [Some l] while a transaction is open, [l]
    being the rows inserted through it and not yet committed.  The
    [_err] fields and [exec_fault] say which calls the server or the
    connection fails, and how: they are the part of the environment the
    program cannot control. *)
Record DB : Type := mkDB {
  connect_err : option error;
  schema_err : option error;
  prepare_err : option error;
  begin_err : option error;
  commit_err : option error;
  exec_fault : list any -> option error;
  table_exists : bool;
  rows : list Row;
  pending : option (list Row);
  calls : list call
}.

Definition record (c : call) (d : DB) : DB :=
  mkDB (connect_err d) (schema_err d) (prepare_err d) (begin_err d)
    (commit_err d) (exec_fault d) (table_exists d) (rows d) (pending d)
    (calls d ++ [c])%list.

Definition with_rows (r : list Row) (d : DB) : DB :=
  mkDB (connect_err d) (schema_err d) (prepare_err d) (begin_err d)
    (commit_err d) (exec_fault d) (table_exists d) r (pending d) (calls d).

Definition with_pending (p : option (list Row)) (d : DB) : DB :=
  mkDB (connect_err d) (schema_err d) (prepare_err d) (begin_err d)
    (commit_err d) (exec_fault d) (table_exists d) (rows d) p (calls d).

Definition with_table (d : DB) : DB :=
  mkDB (connect_err d) (schema_err d) (prepare_err d) (begin_err d)
    (commit_err d) (exec_fault d) true (rows d) (pending d) (calls d).

(** [PRIMARY KEY(object_name, last_run)]: the key of a row, when both
    columns hold a value of their type. *)
Definition key_of (r : Row) : option (string * gotime.Time) :=
  match r with
  | Str name :: TimeVal t :: _ => Some (name, t)
  | _ => None
  end.

Definition key_eqb (k1 k2 : string * gotime.Time) : bool :=
  String.eqb (fst k1) (fst k2) && (snd k1 =? snd k2).

Definition has_key (k : string * gotime.Time) (table : list Row) : bool :=
  existsb (fun r => match key_of r with
                    | Some k' => key_eqb k k'
                    | None => false
                    end) table.

(** The [SMALLINT] columns of the schema, by position. *)
Definition smallint_columns : list nat := [3; 6; 7; 8; 9; 10; 11; 19]%nat.

Definition smallint_ok (a : any) : bool :=
  match a with
  | Int i => (-32768 <=? i) && (i <=? 32767)
  | _ => true
  end.

(** What the server checks of a row before it looks for a conflict: the
    key columns are [NOT NULL], and a [SMALLINT] column holds an integer
    of 16 bits.  Every other way an execution fails is [exec_fault]'s: a
    lost connection, and what more the server refuses of a row, such as a
    float beyond the range of [REAL]. *)
Definition check_row (d : DB) (args : list any) : option error :=
  match exec_fault d args with
  | Some e => Some e
  | None =>
      match key_of args with
      | None => Some (OSError "pq: null value violates not-null constraint")
      | Some _ =>
          if forallb (fun c => smallint_ok (nth c args Nil)) smallint_columns
          then None
          else Some (OSError "pq: value out of range for type smallint")
      end
  end.

(** A prepared statement runs where it was prepared: one prepared on the
    [*sql.DB] runs on a connection of the pool, outside any transaction,
    each execution committed on its own; one prepared on (or rebound to)
    a [*sql.Tx] runs inside that transaction. *)
Inductive Stmt : Type :=
| OnDB   (* db.Prepare(query) *)
| OnTx   (* tx.Prepare(query), tx.Stmt(stmt) *).

Definition Connect (d : DB) : result unit * DB :=
  let d := record CConnect d in
  match connect_err d with
  | Some e => (Err e, d)
  | None => (Ok tt, d)
  end.

(** [db.Exec(schema)]: [CREATE TABLE IF NOT EXISTS] and the hypertable
    declaration; the rows of an existing table stay. *)
Definition ExecSchema (d : DB) : result unit * DB :=
  let d := record CExecSchema d in
  match schema_err d with
  | Some e => (Err e, d)
  | None => (Ok tt, with_table d)
  end.

Definition Prepare (d : DB) : result Stmt * DB :=
  let d := record CPrepare d in
  match prepare_err d with
  | Some e => (Err e, d)
  | None => (Ok OnDB, d)
  end.

Definition Begin (d : DB) : result unit * DB :=
  let d := record CBegin d in
  match begin_err d with
  | Some e => (Err e, d)
  | None => (Ok tt, with_pending (Some []) d)
  end.

(** [stmt.Exec(args...)] of the [INSERT ... ON CONFLICT DO NOTHING]
    statement: the number of rows affected, or the server's error. *)
Definition StmtExec (st : Stmt) (args : list any) (d : DB) : result Z * DB :=
  let d := record (CStmtExec args) d in
  match check_row d args with
  | Some e => (Err e, d)
  | None =>
      match key_of args with
      | None => (Ok 0, d)
      | Some k =>
          match st with
          | OnDB =>
              if has_key k (rows d) then (Ok 0, d)
              else (Ok 1, with_rows (rows d ++ [args])%list d)
          | OnTx =>
              match pending d with
              | None => (Err (OSError "sql: transaction has already been committed or rolled back"), d)
              | Some p =>
                  if has_key k (rows d ++ p)%list then (Ok 0, d)
                  else (Ok 1, with_pending (Some (p ++ [args])%list) d)
              end
          end
      end
  end.

(** [tx.Rollback()]: the transaction's rows are dropped. *)
Definition Rollback (d : DB) : DB :=
  with_pending None (record CRollback d).

(** [tx.Commit()]: the transaction's rows join the table. *)
Definition Commit (d : DB) : result unit * DB :=
  let d := record CCommit d in
  match commit_err d with
  | Some e => (Err e, with_pending None d)
  | None =>
      match pending d with
      | Some p => (Ok tt, with_pending None (with_rows (rows d ++ p)%list d))
      | None => (Err (OSError "sql: transaction has already been committed or rolled back"), d)
      end
  end.

Definition Close (d : DB) : DB := record CClose d.

End sql.

(** ** The environment of one invocation *)

(** An entry of the cache directory, as [ioutil.ReadDir] lists it, with
    what opening and reading it gives. *)
Record FileInfo : Type := mkFileInfo {
  Name : string;
  IsRegular : bool;
  ModTime : gotime.Time;
  content : string;
  open_err : option error
}.

(** What one call of [Read] on a stream returns: the bytes read and the
    error, if any.  A stream is the sequence of what its calls return;
    once these are used up, [Read] returns no byte and [io.EOF]. *)
Definition Reader : Type := list (string * option error).

(** An HTTP response. *)
Record Response : Type := mkResponse {
  StatusCode : Z;
  Status : string;
  Body : Reader
}.

(** The lines the program logs. *)
Inductive logmsg : Type :=
| LogNothingToDo                              (* "nothing to do, already fetched recently" *)
| LogUnknownVersion (name version : string)   (* "summary: unknown version found in summary %s: %v" *)
| LogReplaying (n : nat)                      (* "replaying %d summaries" *)
| LogAdded (inserted duplicates : Z)          (* "added %d observations (%d duplicates ignored)" *).

(** The world one invocation runs in.  [now] is the clock (the invocation
    takes no time); [dir] is the cache directory, [None] when it does not
    exist, else its listing; [readdir_err], [mkdir_err] and [create_err]
    are the failures of the file system calls; [disk_free] is the number
    of bytes the disk still takes ([None]: no limit); [remote] is what
    [http.Get] returns and [gets] counts the calls of it. *)
Record World : Type := mkWorld {
  now : gotime.Time;
  dir : option (list FileInfo);
  readdir_err : option error;
  mkdir_err : option error;
  create_err : option error;
  disk_free : option nat;
  remote : result Response;
  gets : nat;
  db : sql.DB;
  log : list logmsg
}.

Definition with_dir (l : option (list FileInfo)) (w : World) : World :=
  mkWorld (now w) l (readdir_err w) (mkdir_err w) (create_err w)
    (disk_free w) (remote w) (gets w) (db w) (log w).

Definition with_disk_free (n : option nat) (w : World) : World :=
  mkWorld (now w) (dir w) (readdir_err w) (mkdir_err w) (create_err w)
    n (remote w) (gets w) (db w) (log w).

Definition with_gets (n : nat) (w : World) : World :=
  mkWorld (now w) (dir w) (readdir_err w) (mkdir_err w) (create_err w)
    (disk_free w) (remote w) n (db w) (log w).

Definition with_db (d : sql.DB) (w : World) : World :=
  mkWorld (now w) (dir w) (readdir_err w) (mkdir_err w) (create_err w)
    (disk_free w) (remote w) (gets w) d (log w).

Definition Printf (m : logmsg) (w : World) : World :=
  mkWorld (now w) (dir w) (readdir_err w) (mkdir_err w) (create_err w)
    (disk_free w) (remote w) (gets w) (db w) (log w ++ [m])%list.

(** ** main.go *)

(** [const minTimeBetweenFetches = 15 * time.Minute]. *)
Definition minTimeBetweenFetches : Z := 15 * gotime.Minute.

(** The payload version the program accepts. *)
Definition expected_version : string := "1.2".

(** The inner loop of [writeSummaries], [for _, d := range s.Data]: every
    record counts as a candidate and is executed; an error of the
    execution rolls the transaction back and ends the run with
    ["exec: ..."].  The counters are Go [int]s; they count records held in
    memory, far below the 64-bit range, so they are not wrapped here. *)
Fixpoint insert_details (stmt : sql.Stmt) (ds : list Detail)
    (candidates inserted : Z) (d : sql.DB) : result (Z * Z) * sql.DB :=
  match ds with
  | [] => (Ok (candidates, inserted), d)
  | x :: ds' =>
      let candidates := candidates + 1 in
      match sql.StmtExec stmt (exec_args x) d with
      | (Err e, d) => (Err (Errorf "exec" e), sql.Rollback d)
      | (Ok n, d) => insert_details stmt ds' candidates (inserted + n) d
      end
  end.

(** The outer loop, [for _, s := range summaries]. *)
Fixpoint insert_summaries (stmt : sql.Stmt) (summaries : list Summary)
    (candidates inserted : Z) (d : sql.DB) : result (Z * Z) * sql.DB :=
  match summaries with
  | [] => (Ok (candidates, inserted), d)
  | s :: rest =>
      match insert_details stmt (Data s) candidates inserted d with
      | (Err e, d) => (Err e, d)
      | (Ok (candidates, inserted), d) =>
          insert_summaries stmt rest candidates inserted d
      end
  end.

(** [writeSummaries] after the connection is open: the schema, the
    statement prepared on [db], the transaction begun on [db], the loops
    executing [stmt], the commit and the log line. *)
Definition writeSummaries_connected (summaries : list Summary) (d : sql.DB)
  : result unit * sql.DB * list logmsg :=
  match sql.ExecSchema d with
  | (Err e, d) => (Err (Errorf "schema" e), d, [])
  | (Ok _, d) =>
  match sql.Prepare d with
  | (Err e, d) => (Err (Errorf "prepare" e), d, [])
  | (Ok stmt, d) =>
  match sql.Begin d with
  | (Err e, d) => (Err (Errorf "transaction" e), d, [])
  | (Ok _, d) =>
  match insert_summaries stmt summaries 0 0 d with
  | (Err e, d) => (Err e, d, [])
  | (Ok (candidates, inserted), d) =>
  match sql.Commit d with
  | (Err e, d) => (Err e, d, [])
  | (Ok _, d) => (Ok tt, d, [LogAdded inserted (candidates - inserted)])
  end end end end end.

(** [func writeSummaries(summaries []Summary) error]; [defer db.Close()]
    runs on every path after a successful connect. *)
Definition writeSummaries (summaries : list Summary) (w : World) : result unit * World :=
  match sql.Connect (db w) with
  | (Err e, d) => (Err (Errorf "connect" e), with_db d w)
  | (Ok _, d) =>
      let '(r, d, msgs) := writeSummaries_connected summaries d in
      (r, fold_left (fun w m => Printf m w) msgs (with_db (sql.Close d) w))
  end.

(** The loop of [cacheModifiedSince] over the listing. *)
Fixpoint modified_since (files : list FileInfo) (t : gotime.Time) : bool :=
  match files with
  | [] => false
  | fi :: rest =>
      if negb (IsRegular fi) then modified_since rest t
      else if gotime.After (ModTime fi) t then true
      else modified_since rest t
  end.

(** [func cacheModifiedSince(t time.Time) (bool, error)]. *)
Definition cacheModifiedSince (t : gotime.Time) (w : World) : result bool :=
  match dir w with
  | None => Ok false
  | Some files =>
      match readdir_err w with
      | Some e => Err e
      | None => Ok (modified_since files t)
      end
  end.

(** The directory after a file [fi] has been created in it: an entry of
    the same name is replaced, else [fi] takes its place in the order of
    names, which is the order [ioutil.ReadDir] lists in. *)
Fixpoint put_entry (fi : FileInfo) (files : list FileInfo) : list FileInfo :=
  match files with
  | [] => [fi]
  | x :: rest =>
      if String.eqb (Name x) (Name fi) then fi :: rest
      else if String.ltb (Name fi) (Name x) then fi :: x :: rest
      else x :: put_entry fi rest
  end.

Definition find_entry (name : string) (files : list FileInfo) : option FileInfo :=
  find (fun x => String.eqb (Name x) name) files.

(** [func newCacheFile()], which returns the open file: the directory is made when it
    is missing; the file, named by the clock's epoch seconds, is created
    empty or truncated.  The handle is the file's name. *)
Definition newCacheFile (w : World) : result string * World :=
  let made :=
    match dir w with
    | None =>
        match mkdir_err w with
        | Some e => Err e
        | None => Ok []
        end
    | Some files => Ok files
    end in
  match made with
  | Err e => (Err e, w)
  | Ok files =>
      let w := with_dir (Some files) w in
      let filename := strconv.Itoa (gotime.Unix (now w)) ++ ".json" in
      match create_err w with
      | Some e => (Err e, w)
      | None =>
          match find_entry filename files with
          | Some x =>
              if IsRegular x
              then (Ok filename,
                    with_dir (Some (put_entry (mkFileInfo filename true (now w) "" None) files)) w)
              else (Err (OSError "open: is a directory"), w)
          | None =>
              (Ok filename,
               with_dir (Some (put_entry (mkFileInfo filename true (now w) "" None) files)) w)
          end
      end
  end.

(** The first [n] bytes of [s]. *)
Definition take (n : nat) (s : string) : string := substring 0 n s.

(** [os.File.Write] on the cache file [name]: the bytes are appended
    as far as the disk takes them; a short write is an error.  The count
    returned is the number of bytes written. *)
Definition file_Write (name : string) (data : string) (w : World)
  : (nat * option error) * World :=
  let len := String.length data in
  let n := match disk_free w with
           | None => len
           | Some free => Nat.min len free
           end in
  let files := match dir w with Some l => l | None => [] end in
  let old := match find_entry name files with
             | Some x => content x
             | None => ""
             end in
  let fi := mkFileInfo name true (now w) (old ++ take n data) None in
  let w := with_disk_free (option_map (fun free => (free - n)%nat) (disk_free w))
             (with_dir (Some (put_entry fi files)) w) in
  ((n, if (n <? len)%nat then Some (OSError "write: no space left on device") else None), w).

(** One call of [Read] on a stream: the next result, [io.EOF] at the end. *)
Definition stream_Read (r : Reader) : (string * option error) * Reader :=
  match r with
  | [] => (("", Some EOF), [])
  | x :: r' => (x, r')
  end.

(** [teeReader.Read]: what was read is written to the file before it
    is returned; when the write fails, its count and its error are
    returned instead.  With [tee = None] the stream is read directly. *)
Definition tee_Read (tee : option string) (r : Reader) (w : World)
  : (string * option error) * Reader * World :=
  let '((data, err), r') := stream_Read r in
  match tee with
  | None => ((data, err), r', w)
  | Some name =>
      if (0 <? String.length data)%nat then
        let '((n, werr), w') := file_Write name data w in
        match werr with
        | Some e => ((take n data, Some e), r', w')
        | None => ((data, err), r', w')
        end
      else ((data, err), r', w)
  end.

(** The verdict of [encoding/json]'s scanner on the bytes buffered so
    far. *)
Inductive scan_result : Type :=
| ScanEnd (n : nat)      (* the first value ends after [n] bytes *)
| ScanMore               (* every byte was accepted, the value is not complete *)
| ScanError (e : error)  (* a byte that no JSON text has there *).

(** [isSpace] and [nonSpace] of [encoding/json]: white space is the
    space, the tab, the carriage return and the line feed. *)
Definition isSpace (c : ascii) : bool :=
  (byte c =? 32) || (byte c =? 9) || (byte c =? 13) || (byte c =? 10).

Fixpoint nonSpace (b : string) : bool :=
  match b with
  | EmptyString => false
  | String c b' => negb (isSpace c) || nonSpace b'
  end.

Section Decoder.

(** [encoding/json] is not part of this repository.  Its scanner, which
    finds where a value ends, and [unmarshal], which fills a fresh
    [Summary] from the bytes of a complete value (calling the
    [UnmarshalJSON] methods above on the way), are what [Decode] is
    embedded over. *)
Variable scan : string -> scan_result.
Variable unmarshal : string -> result Summary.

(** What [readValue] does when the last [Read] returned [err] and the
    buffer holds no complete value: at [io.EOF] a value that only lacked
    its delimiter is complete; else the error is returned,
    [io.ErrUnexpectedEOF] replacing [io.EOF] when bytes were read. *)
Definition read_failed (buf : string) (err : error) : result string :=
  match err with
  | EOF =>
      match scan (buf ++ " ") with
      | ScanEnd _ => Ok buf
      | _ => if nonSpace buf then Err ErrUnexpectedEOF else Err EOF
      end
  | _ => Err err
  end.

(** [Decoder.readValue]: scan the buffer; when the value is not
    complete and the last [Read] gave no error, [refill] from the stream
    and scan again.  The error of a [Read] is looked at only after the
    bytes that came with it were scanned.  The result is paired with the
    bytes handed to the decoder so far. *)
Fixpoint readValue (tee : option string) (r : Reader) (buf : string) (w : World)
  : result string * string * World :=
  match scan buf with
  | ScanEnd n => (Ok (take n buf), buf, w)
  | ScanError e => (Err e, buf, w)
  | ScanMore =>
      match r with
      | [] => (read_failed buf EOF, buf, w)
      | _ :: r' =>
          let '((data, err), _, w') := tee_Read tee r w in
          let buf' := buf ++ data in
          match err with
          | None => readValue tee r' buf' w'
          | Some e =>
              match scan buf' with
              | ScanEnd n => (Ok (take n buf'), buf', w')
              | ScanError e' => (Err e', buf', w')
              | ScanMore => (read_failed buf' e, buf', w')
              end
          end
      end
  end.

(** [json.NewDecoder(r).Decode(&summary)] on a fresh decoder and a fresh
    [summary]. *)
Definition Decode (tee : option string) (r : Reader) (w : World)
  : result Summary * string * World :=
  match readValue tee r "" w with
  | (Err e, buf, w) => (Err e, buf, w)
  | (Ok value, buf, w) => (unmarshal value, buf, w)
  end.

(** The loop of [replayFromCache] over the listing. *)
Fixpoint replay_files (files : list FileInfo) (summaries : list Summary) (w : World)
  : result (list Summary) * World :=
  match files with
  | [] => (Ok summaries, w)
  | fi :: rest =>
      if negb (IsRegular fi) then replay_files rest summaries w
      else
        match open_err fi with
        | Some e => (Err e, w)
        | None =>
            match Decode None [(content fi, None)] w with
            | (Err e, _, w) => (Err (ErrDecodeFile (Name fi) e), w)
            | (Ok summary, _, w) =>
                if negb (String.eqb (Signature_Version summary) expected_version)
                then replay_files rest summaries
                       (Printf (LogUnknownVersion (Name fi) (Signature_Version summary)) w)
                else replay_files rest (summaries ++ [summary])%list w
            end
        end
  end.

(** [func replayFromCache() error]. *)
Definition replayFromCache (w : World) : result unit * World :=
  match dir w with
  | None => (Ok tt, w)
  | Some files =>
      match readdir_err w with
      | Some e => (Err e, w)
      | None =>
          match replay_files files [] w with
          | (Err e, w) => (Err e, w)
          | (Ok summaries, w) =>
              writeSummaries summaries (Printf (LogReplaying (List.length summaries)) w)
          end
      end
  end.

(** [func Main() error], [replay] being the flag. *)
Definition Main (replay : bool) (w : World) : result unit * World :=
  if replay then replayFromCache w
  else
    match cacheModifiedSince (gotime.Add (now w) (- minTimeBetweenFetches)) w with
    | Err e => (Err (Errorf "cache" e), w)
    | Ok true => (Ok tt, Printf LogNothingToDo w)
    | Ok false =>
        let w := with_gets (S (gets w)) w in
        match remote w with
        | Err e => (Err (Errorf "fetch" e), w)
        | Ok res =>
            if negb (StatusCode res =? 200) then (Err (ErrBadResponse (Status res)), w)
            else
              match newCacheFile w with
              | (Err e, w) => (Err (Errorf "cache" e), w)
              | (Ok cacheFile, w) =>
                  match Decode (Some cacheFile) (Body res) w with
                  | (Err e, _, w) => (Err (Errorf "decode" e), w)
                  | (Ok summary, _, w) =>
                      if negb (String.eqb (Signature_Version summary) expected_version)
                      then (Err (ErrUnknownVersion (Signature_Version summary)), w)
                      else writeSummaries [summary] w
                  end
              end
        end
    end.

End Decoder.

(** ** main.go: the connection options *)

(** The flags of the command line that [buildConnectOptions] reads, as
    [kingpin.Parse] has set them. *)
Record Flags : Type := mkFlags {
  host : string;
  port : string;
  user : string;
  password : string;
  dbname : string;
  connectOpts : string
}.

(** [strings.Join(elems, sep)]. *)
Fixpoint Join (elems : list string) (sep : string) : string :=
  match elems with
  | [] => ""
  | x :: rest =>
      match rest with
      | [] => x
      | _ :: _ => x ++ sep ++ Join rest sep
      end
  end.

(** [func buildConnectOptions() string]. *)
Definition buildConnectOptions (f : Flags) : string :=
  let opts := [] in
  let opts := if negb (String.eqb (host f) "")
              then (opts ++ [("host=" ++ host f)%string])%list else opts in
  let opts := if negb (String.eqb (port f) "")
              then (opts ++ [("port=" ++ port f)%string])%list else opts in
  let opts := if negb (String.eqb (user f) "")
              then (opts ++ [("user=" ++ user f)%string])%list else opts in
  let opts := if negb (String.eqb (password f) "")
              then (opts ++ [("password=" ++ password f)%string])%list else opts in
  let opts := if negb (String.eqb (dbname f) "")
              then (opts ++ [("dbname=" ++ dbname f)%string])%list else opts in
  let opts := if negb (String.eqb (connectOpts f) "")
              then (opts ++ [connectOpts f])%list else opts in
  Join opts " ".

(** ** summary.go: the schema *)

(** The column types of [schema]. *)
Inductive sqltype : Type := TEXT | TIMESTAMPTZ | REAL | SMALLINT.

(** The columns of [CREATE TABLE IF NOT EXISTS scout], in their order:
    name, type, and whether the column is [NOT NULL]. *)
Definition schema : list (string * sqltype * bool) :=
  [ ("object_name", TEXT, true);
    ("last_run", TIMESTAMPTZ, true);
    ("h", REAL, false);
    ("rating", SMALLINT, false);
    ("ca_dist", REAL, false);
    ("moid", REAL, false);
    ("neo_score", SMALLINT, false);
    ("neo_1km_score", SMALLINT, false);
    ("pha_score", SMALLINT, false);
    ("ieo_score", SMALLINT, false);
    ("geocentric_score", SMALLINT, false);
    ("tisserand_score", SMALLINT, false);
    ("unc", REAL, false);
    ("uncp1", REAL, false);
    ("ra", TEXT, false);
    ("dec", TEXT, false);
    ("elong", TEXT, false);
    ("tephem", TIMESTAMPTZ, false);
    ("rate", REAL, false);
    ("nobs", SMALLINT, false);
    ("arc", REAL, false);
    ("vinf", REAL, false);
    ("rmsn", REAL, false);
    ("vmag", REAL, false) ].

(** [PRIMARY KEY(object_name, last_run)]. *)
Definition primary_key : list string := ["object_name"; "last_run"].

(** ** Sample library instances

    Closed instances of the library functions the embedding is taken
    over, for the examples of Part II.  Each does what the library does on
    the inputs it accepts and rejects every other input. *)

Fixpoint all_digits (s : string) : bool :=
  match s with
  | EmptyString => true
  | String c s' => gotime.isDigitChar c && all_digits s'
  end.

(** The number a string of digits denotes, after the digits [acc]. *)
Fixpoint digits_value (s : string) (acc : Z) : Z :=
  match s with
  | EmptyString => acc
  | String c s' => digits_value s' (acc * 10 + (byte c - 48))
  end.

(** A scanner for texts whose first value is an object or an array: it
    skips leading white space, then follows strings and the nesting of
    braces and brackets up to the one that closes the value.  On such
    texts the value ends where [encoding/json]'s scanner ends it. *)
Fixpoint sample_scan_loop (s : string) (pos depth : nat) (in_str esc : bool)
  : scan_result :=
  match s with
  | EmptyString => ScanMore
  | String c s' =>
      if in_str then
        if esc then sample_scan_loop s' (S pos) depth true false
        else if Ascii.eqb c "\" then sample_scan_loop s' (S pos) depth true true
        else if Ascii.eqb c dquote then sample_scan_loop s' (S pos) depth false false
        else sample_scan_loop s' (S pos) depth true false
      else if Ascii.eqb c dquote then
        match depth with
        | O => ScanError (SyntaxError "sample scanner: not an object or array")
        | _ => sample_scan_loop s' (S pos) depth true false
        end
      else if Ascii.eqb c "{" || Ascii.eqb c "[" then
        sample_scan_loop s' (S pos) (S depth) false false
      else if Ascii.eqb c "}" || Ascii.eqb c "]" then
        match depth with
        | O => ScanError (SyntaxError "invalid character looking for beginning of value")
        | S O => ScanEnd (S pos)
        | S d => sample_scan_loop s' (S pos) d false false
        end
      else
        match depth with
        | O =>
            if Ascii.eqb c " " || Ascii.eqb c "009" || Ascii.eqb c "010" || Ascii.eqb c "013"
            then sample_scan_loop s' (S pos) depth false false
            else ScanError (SyntaxError "sample scanner: not an object or array")
        | _ => sample_scan_loop s' (S pos) depth false false
        end
  end.

Definition sample_scan (buf : string) : scan_result :=
  sample_scan_loop buf 0 0 false false.

(** The token [s] between two quote characters [q]. *)
Definition quoted (q : ascii) (s : string) : string :=
  String q (s ++ String q EmptyString).

(** Sample payloads of the feed: a signature with a version, and one
    record, the one of the design document's scenario, or none. *)
Definition sample_record_text : string :=
  "{" ++ quoted dquote "objectName" ++ ":" ++ quoted dquote "2025 AB" ++ ","
      ++ quoted dquote "lastRun" ++ ":" ++ quoted dquote "2025-01-01 00:00" ++ ","
      ++ quoted dquote "rating" ++ ":null,"
      ++ quoted dquote "caDist" ++ ":" ++ quoted dquote "0.5" ++ "}".

Definition sample_payload (version : string) (records : string) : string :=
  "{" ++ quoted dquote "signature" ++ ":{" ++ quoted dquote "version" ++ ":"
      ++ quoted dquote version ++ "},"
      ++ quoted dquote "data" ++ ":[" ++ records ++ "]}".

(** The record of [sample_record_text] as [encoding/json] decodes it: the
    name is set, and each of the three other members goes through the
    [UnmarshalJSON] method of its field. *)
Definition sample_record : result Detail :=
  decode_members
    (mkDetail "2025 AB" mintime_zero qfloat_zero qint_zero qfloat_zero qfloat_zero
       qint_zero qint_zero qint_zero qint_zero qint_zero qint_zero
       qfloat_zero qfloat_zero "" "" "" mintime_zero
       qfloat_zero qint_zero qfloat_zero qfloat_zero qfloat_zero qfloat_zero)
    [ (TimeField FLastRun, quoted dquote "2025-01-01 00:00");
      (IntField FRating, "null");
      (FloatField FCaDist, quoted dquote "0.5") ].

(** [unmarshal] on the sample payloads of versions 1.2 and 2.0, with the
    sample record or with no record. *)
Definition sample_unmarshal (value : string) : result Summary :=
  let with_record (v : string) :=
    match sample_record with
    | Ok d => Ok (mkSummary "" "" v [d])
    | Err e => Err e
    end in
  if String.eqb value (sample_payload "1.2" sample_record_text) then with_record "1.2"
  else if String.eqb value (sample_payload "2.0" sample_record_text) then with_record "2.0"
  else if String.eqb value (sample_payload "1.2" "") then Ok (mkSummary "" "" "1.2" [])
  else if String.eqb value (sample_payload "2.0" "") then Ok (mkSummary "" "" "2.0" [])
  else Err (SyntaxError "sample unmarshal: not a sample payload").

(** A record with a name, a last run at the given minute of January 1,
    2025, and a number of observations; every other field is absent. *)
Definition sample_detail (name : string) (minute nobs : Z) : Detail :=
  mkDetail name (gotime.Date 2025 1 1 0 minute) qfloat_zero qint_zero qfloat_zero
    qfloat_zero qint_zero qint_zero qint_zero qint_zero qint_zero qint_zero
    qfloat_zero qfloat_zero "" "" "" mintime_zero
    qfloat_zero (Qint (Some nobs)) qfloat_zero qfloat_zero qfloat_zero qfloat_zero.

(** A database in which no call fails for a reason of the environment:
    the table exists and holds [table], no transaction is open. *)
Definition sample_db (table : list sql.Row) : sql.DB :=
  sql.mkDB None None None None None (fun _ => None) true table None [].

(** A world whose file system calls succeed and whose disk has room. *)
Definition sample_world (clock : gotime.Time) (entries : option (list FileInfo))
    (response : result Response) (table : list sql.Row) : World :=
  mkWorld clock entries None None None None response 0 (sample_db table) [].

(** A regular cache entry. *)
Definition sample_entry (name : string) (mtime : gotime.Time) (text : string) : FileInfo :=
  mkFileInfo name true mtime text None.

(** A live fetch of the sample payload of version 1.2 at noon of January
    1, 2025, into a world without a cache directory, and the world that
    fetch leaves. *)
Definition sample_fetch_world : World :=
  sample_world (gotime.Date 2025 1 1 12 0) None
    (Ok (mkResponse 200 "200 OK" [(sample_payload "1.2" sample_record_text, None)])) [].

Definition sample_after_fetch : World :=
  Eval vm_compute in snd (Main sample_scan sample_unmarshal false sample_fetch_world).

(** ** The vocabulary of the properties *)

(** The integer a decimal token denotes: an optional sign, then one or
    more digits. *)
Definition decimal (s : string) : option Z :=
  match s with
  | EmptyString => None
  | String c rest =>
      if Ascii.eqb c "-" || Ascii.eqb c "+" then
        if all_digits rest && negb (String.eqb rest "")
        then Some (if Ascii.eqb c "-" then - digits_value rest 0 else digits_value rest 0)
        else None
      else if all_digits s then Some (digits_value s 0) else None
  end.

(** The range of a 64-bit [int]. *)
Definition in_range (z : Z) : Prop := - 2 ^ 63 <= z <= 2 ^ 63 - 1.

(** A number below 100 in two digits, and one below 10000 in four. *)
Definition fmt2 (n : Z) : string :=
  String (strconv.digit_char (n / 10)) (String (strconv.digit_char (n mod 10)) EmptyString).

Definition fmt4 (n : Z) : string := fmt2 (n / 100) ++ fmt2 (n mod 100).

(** A date and time of day that exist. *)
Definition valid_civil (year month day hour min : Z) : Prop :=
  0 <= year <= 9999 /\ 1 <= month <= 12 /\ 1 <= day <= gotime.daysIn month year
  /\ 0 <= hour <= 23 /\ 0 <= min <= 59.

(** The text [YYYY-MM-DD hh:mm] of a date and time. *)
Definition civil_text (year month day hour min : Z) : string :=
  fmt4 year ++ "-" ++ fmt2 month ++ "-" ++ fmt2 day ++ " " ++ fmt2 hour ++ ":" ++ fmt2 min.

(** A run of [n] spaces. *)
Fixpoint spaces (n : nat) : string :=
  match n with
  | O => EmptyString
  | S n' => String " " (spaces n')
  end.

(** The texts the layout accepts besides: any run of spaces between the
    date and the time, and an hour of one digit. *)
Definition hour_text (hour : Z) (two : bool) : string :=
  if two then fmt2 hour else String (strconv.digit_char hour) EmptyString.

Definition lenient_text (year month day : Z) (n : nat) (hour : Z) (two : bool)
    (min : Z) : string :=
  fmt4 year ++ "-" ++ fmt2 month ++ "-" ++ fmt2 day ++ spaces (S n)
    ++ hour_text hour two ++ ":" ++ fmt2 min.

(** The rows of the table after the rows [rs] were offered to it one by
    one, a row whose key is already there being dropped. *)
Fixpoint insert_all (table : list sql.Row) (rs : list sql.Row) : list sql.Row :=
  match rs with
  | [] => table
  | r :: rs' =>
      match sql.key_of r with
      | Some k =>
          if sql.has_key k table then insert_all table rs'
          else insert_all (table ++ [r])%list rs'
      | None => insert_all table rs'
      end
  end.

(** The content of the cache entry [name], empty when there is none. *)
Definition entry_content (name : string) (w : World) : string :=
  match dir w with
  | Some files =>
      match find_entry name files with
      | Some x => content x
      | None => EmptyString
      end
  | None => EmptyString
  end.

(** What decoding a cache entry of content [c] gives: the stream is the
    content in one read, then the end of the file. *)
Definition file_summary (scan : string -> scan_result)
    (unmarshal : string -> result Summary) (c : string) : result Summary :=
  let value :=
    match scan EmptyString with
    | ScanEnd n => Ok (take n EmptyString)
    | ScanError e => Err e
    | ScanMore =>
        match scan c with
        | ScanEnd n => Ok (take n c)
        | ScanError e => Err e
        | ScanMore => read_failed scan c EOF
        end
    end in
  match value with
  | Ok v => unmarshal v
  | Err e => Err e
  end.

(** The world with its clock set to [t]. *)
Definition at_time (t : gotime.Time) (w : World) : World :=
  mkWorld t (dir w) (readdir_err w) (mkdir_err w) (create_err w)
    (disk_free w) (remote w) (gets w) (db w) (log w).

Definition regular_files (files : list FileInfo) : list FileInfo :=
  filter IsRegular files.

Definition version_ok (s : Summary) : bool :=
  String.eqb (Signature_Version s) expected_version.

(** The value [writeSummaries] binds to the column of field [f]. *)
Definition bound (f : field) (d : Detail) : any :=
  nth (column_of f) (exec_args d) Nil.


(** What an execution cannot change: the failures of the environment and
    the existence of the table. *)
Definition same_environment (d d' : sql.DB) : Prop :=
  sql.connect_err d' = sql.connect_err d
  /\ sql.schema_err d' = sql.schema_err d
  /\ sql.prepare_err d' = sql.prepare_err d
  /\ sql.begin_err d' = sql.begin_err d
  /\ sql.commit_err d' = sql.commit_err d
  /\ sql.exec_fault d' = sql.exec_fault d
  /\ sql.table_exists d' = sql.table_exists d.

(** What reading a stream into the cache cannot change: everything but
    the cache directory and the room on the disk. *)
Definition same_outside_cache (w w' : World) : Prop :=
  now w' = now w /\ readdir_err w' = readdir_err w /\ mkdir_err w' = mkdir_err w
  /\ create_err w' = create_err w /\ remote w' = remote w /\ gets w' = gets w
  /\ db w' = db w /\ log w' = log w.

(** The cache entry [name] of the world, when there is one. *)
Definition cache_entry (name : string) (w : World) : option FileInfo :=
  match dir w with
  | Some files => find_entry name files
  | None => None
  end.

(** What replay decodes a cache entry to. *)
Definition decoded (scan : string -> scan_result)
    (unmarshal : string -> result Summary) (fi : FileInfo) : result Summary :=
  file_summary scan unmarshal (content fi).

(** The summaries replay keeps of a listing: those of the regular files
    that decode to the expected version, in the order of the listing. *)
Definition kept (scan : string -> scan_result)
    (unmarshal : string -> result Summary) (files : list FileInfo) : list Summary :=
  flat_map (fun fi =>
              if IsRegular fi then
                match decoded scan unmarshal fi with
                | Ok s => if version_ok s then [s] else []
                | Err _ => []
                end
              else []) files.

(** The lines replay logs for the entries it skips. *)
Definition skipped (scan : string -> scan_result)
    (unmarshal : string -> result Summary) (files : list FileInfo) : list logmsg :=
  flat_map (fun fi =>
              if IsRegular fi then
                match decoded scan unmarshal fi with
                | Ok s => if version_ok s then []
                          else [LogUnknownVersion (Name fi) (Signature_Version s)]
                | Err _ => []
                end
              else []) files.

(** A regular entry replay cannot use: it does not open, or its content
    does not decode. *)
Definition unusable (scan : string -> scan_result)
    (unmarshal : string -> result Summary) (fi : FileInfo) : bool :=
  IsRegular fi
  && match open_err fi with
     | Some _ => true
     | None => negb (is_ok (decoded scan unmarshal fi))
     end.

(** No byte of [s] is a space. *)
Fixpoint no_space (s : string) : bool :=
  match s with
  | EmptyString => true
  | String c s' => negb (Ascii.eqb c " ") && no_space s'
  end.

(** [strings.Split(s, " ")]: the pieces of [s] between its spaces. *)
Fixpoint Split (s : string) : list string :=
  match s with
  | EmptyString => [EmptyString]
  | String c s' =>
      if Ascii.eqb c " " then EmptyString :: Split s'
      else match Split s' with
           | x :: r => String c x :: r
           | [] => [String c EmptyString]
           end
  end.

(** The options [buildConnectOptions] names, in its order: each flag
    that is set, behind its key. *)
Definition named_options (f : Flags) : list string :=
  flat_map (fun kv => if String.eqb (snd kv) "" then [] else [fst kv ++ snd kv])
    [ ("host=", host f); ("port=", port f); ("user=", user f);
      ("password=", password f); ("dbname=", dbname f) ].

(** A value of Go's [interface{}] that a column of type [ty] takes: nil,
    or a value of the kind the driver sends for that type. *)
Definition fits (a : any) (ty : sqltype) : bool :=
  match a, ty with
  | Nil, _ => true
  | Str _, TEXT => true
  | TimeVal _, TIMESTAMPTZ => true
  | Float64 _, REAL => true
  | Int _, SMALLINT => true
  | _, _ => false
  end.

(** The positions of the columns of type [ty] in a list of columns. *)
Fixpoint positions (ty : sqltype) (cols : list (string * sqltype * bool)) (i : nat)
  : list nat :=
  match cols with
  | [] => []
  | (_, ty', _) :: rest =>
      match ty, ty' with
      | TEXT, TEXT | TIMESTAMPTZ, TIMESTAMPTZ | REAL, REAL | SMALLINT, SMALLINT =>
          i :: positions ty rest (S i)
      | _, _ => positions ty rest (S i)
      end
  end.












(* ================================================================= *)
(** * Part II: the properties *)
(* ================================================================= *)

(** ** Bytes and digits *)

Lemma byte_range (c : ascii) : 0 <= byte c < 256.
Proof.
  unfold byte. pose proof (N_ascii_bounded c). lia.
Qed.

Lemma digit_char_byte (c : ascii) :
  gotime.isDigitChar c = true -> strconv.digit_char (byte c - 48) = c.
Proof.
  intros _. unfold strconv.digit_char, byte.
  replace (48 + (Z.of_N (N_of_ascii c) - 48)) with (Z.of_N (N_of_ascii c)) by lia.
  rewrite N2Z.id. apply ascii_N_embedding.
Qed.

Lemma byte_digit_char (d : Z) :
  0 <= d <= 9 -> byte (strconv.digit_char d) = 48 + d.
Proof.
  intros Hd. unfold strconv.digit_char, byte.
  rewrite N_ascii_embedding by lia. lia.
Qed.

Lemma isDigitChar_digit_char (d : Z) :
  0 <= d <= 9 -> gotime.isDigitChar (strconv.digit_char d) = true.
Proof.
  intros Hd. unfold gotime.isDigitChar. rewrite byte_digit_char by exact Hd.
  apply andb_true_intro; split; apply Z.leb_le; lia.
Qed.

Lemma isDigitChar_bounds (c : ascii) :
  gotime.isDigitChar c = true <-> 48 <= byte c <= 57.
Proof.
  unfold gotime.isDigitChar. rewrite andb_true_iff, !Z.leb_le. tauto.
Qed.

(** The byte subtraction of the fast path tests for a digit. *)
Lemma fast_digit_test (c : ascii) :
  (9 <? (byte c - 48) mod 256) = negb (gotime.isDigitChar c)
  /\ (gotime.isDigitChar c = true -> (byte c - 48) mod 256 = byte c - 48).
Proof.
  pose proof (byte_range c) as Hb.
  destruct (gotime.isDigitChar c) eqn:E.
  - apply isDigitChar_bounds in E.
    rewrite Z.mod_small by lia. split; [apply Z.ltb_ge; lia | reflexivity].
  - split; [| discriminate]. simpl. apply Z.ltb_lt.
    assert (Hn : ~ (48 <= byte c <= 57)) by (rewrite <- isDigitChar_bounds; congruence).
    destruct (Z_lt_ge_dec (byte c) 48) as [Hlt | Hge].
    + replace (byte c - 48) with (byte c + 208 + (-1) * 256) by lia.
      rewrite Z_mod_plus_full, Z.mod_small by lia. lia.
    + rewrite Z.mod_small by lia. lia.
Qed.

Lemma atoi_fast_spec (s : string) : forall n,
  strconv.atoi_fast s n = if all_digits s then Some (digits_value s n) else None.
Proof.
  induction s as [| c s IH]; intros n; simpl; [reflexivity |].
  destruct (fast_digit_test c) as [Ht Hv]. rewrite Ht.
  destruct (gotime.isDigitChar c) eqn:E; simpl; [| reflexivity].
  rewrite IH, (Hv eq_refl). reflexivity.
Qed.

Lemma digits_value_ge (s : string) : forall n,
  all_digits s = true -> 0 <= n -> n <= digits_value s n.
Proof.
  induction s as [| c s IH]; intros n Hs Hn; simpl in *; [lia |].
  apply andb_true_iff in Hs as [Hc Hs]. apply isDigitChar_bounds in Hc.
  specialize (IH (n * 10 + (byte c - 48)) Hs). lia.
Qed.


Lemma digits_value_app (a b : string) : forall n,
  digits_value (a ++ b) n = digits_value b (digits_value a n).
Proof.
  induction a as [| c a IH]; intros n; simpl; [reflexivity | apply IH].
Qed.

Lemma all_digits_app (a b : string) :
  all_digits (a ++ b) = all_digits a && all_digits b.
Proof.
  induction a as [| c a IH]; simpl; [reflexivity |].
  rewrite IH. apply andb_assoc.
Qed.

(** ** [strconv.Atoi] reads exactly the decimal tokens in range *)

Lemma maxUint64_value : strconv.maxUint64 = 18446744073709551615.
Proof. reflexivity. Qed.

Lemma cutoff10_value : strconv.cutoff10 = 1844674407370955162.
Proof. reflexivity. Qed.

Lemma pow64_value : 2 ^ 64 = 18446744073709551616.
Proof. reflexivity. Qed.


Lemma parseUint_loop_digit (c : ascii) (s : string) (n : Z) :
  gotime.isDigitChar c = true ->
  strconv.parseUint_loop (String c s) n =
    if strconv.cutoff10 <=? n then inr ErrRange
    else if ((n * 10 + (byte c - 48)) mod 2 ^ 64 <? n * 10)
            || (strconv.maxUint64 <? (n * 10 + (byte c - 48)) mod 2 ^ 64)
         then inr ErrRange
         else strconv.parseUint_loop s ((n * 10 + (byte c - 48)) mod 2 ^ 64).
Proof.
  intros Hc. cbn [strconv.parseUint_loop]. cbv zeta.
  pose proof Hc as Hb. apply isDigitChar_bounds in Hb.
  unfold gotime.isDigitChar in Hc. rewrite Hc.
  replace (10 <=? byte c - 48) with false by (symmetry; apply Z.leb_gt; lia).
  reflexivity.
Qed.

(** On digits the loop computes their value, or reports that it passes
    [maxUint64]. *)
Lemma parseUint_loop_digits (s : string) : forall n,
  all_digits s = true -> 0 <= n <= strconv.maxUint64 ->
  strconv.parseUint_loop s n =
    if digits_value s n <=? strconv.maxUint64 then inl (digits_value s n)
    else inr ErrRange.
Proof.
  induction s as [| c s IH]; intros n Hs Hn.
  - cbn [strconv.parseUint_loop digits_value]. replace (n <=? strconv.maxUint64) with true by (symmetry; apply Z.leb_le; lia).
    reflexivity.
  - simpl in Hs. apply andb_true_iff in Hs as [Hc Hs].
    rewrite (parseUint_loop_digit _ _ _ Hc).
    pose proof Hc as Hb. apply isDigitChar_bounds in Hb.
    cbn [digits_value].
    pose proof (digits_value_ge s (n * 10 + (byte c - 48)) Hs) as Hge.
    rewrite ?maxUint64_value, ?cutoff10_value, ?pow64_value in *.
    destruct (1844674407370955162 <=? n) eqn:Ecut.
    + apply Z.leb_le in Ecut.
      replace (digits_value s (n * 10 + (byte c - 48)) <=? 18446744073709551615)
        with false by (symmetry; apply Z.leb_gt; lia).
      reflexivity.
    + apply Z.leb_gt in Ecut.
      destruct (Z_lt_ge_dec (n * 10 + (byte c - 48)) 18446744073709551616) as [Hsm | Hbig].
      * rewrite Z.mod_small by lia.
        replace (n * 10 + (byte c - 48) <? n * 10) with false
          by (symmetry; apply Z.ltb_ge; lia).
        replace (18446744073709551615 <? n * 10 + (byte c - 48)) with false
          by (symmetry; apply Z.ltb_ge; lia).
        simpl orb. cbv iota. apply IH; [exact Hs | lia].
      * replace (n * 10 + (byte c - 48))
          with (n * 10 + (byte c - 48) - 18446744073709551616 + 1 * 18446744073709551616) at 1 2
          by lia.
        rewrite Z_mod_plus_full, Z.mod_small by lia.
        replace (n * 10 + (byte c - 48) - 18446744073709551616 <? n * 10) with true
          by (symmetry; apply Z.ltb_lt; lia).
        simpl orb. cbv iota.
        replace (digits_value s (n * 10 + (byte c - 48)) <=? 18446744073709551615)
          with false by (symmetry; apply Z.leb_gt; lia).
        reflexivity.
Qed.



Lemma isDigitChar_not_sign (c : ascii) :
  gotime.isDigitChar c = true -> Ascii.eqb c "-" = false /\ Ascii.eqb c "+" = false.
Proof.
  intros Hc. split; apply Ascii.eqb_neq; intros ->; discriminate Hc.
Qed.

(** Case analysis on every integer comparison of the goal, each case
    closed by computation or linear arithmetic. *)
Ltac zbool_cases :=
  repeat match goal with
         | |- context [?a <=? ?b] => destruct (Z.leb_spec a b)
         | |- context [?a <? ?b] => destruct (Z.ltb_spec a b)
         end;
  cbn [andb orb negb]; try reflexivity; try lia.

Lemma decimal_unsigned (s : string) (c : ascii) :
  gotime.isDigitChar c = true ->
  decimal (String c s) =
    if all_digits s then Some (digits_value (String c s) 0) else None.
Proof.
  intros Hc. destruct (isDigitChar_not_sign c Hc) as [Hm Hp].
  unfold decimal. rewrite Hm, Hp. cbn [orb all_digits]. rewrite Hc. reflexivity.
Qed.


(** [ParseUint] on the digits after the sign. *)
Lemma ParseUint_digits (s : string) :
  all_digits s = true -> s <> "" ->
  strconv.ParseUint s =
    if digits_value s 0 <=? strconv.maxUint64 then inl (digits_value s 0)
    else inr ErrRange.
Proof.
  intros Hs Hne. destruct s as [| c s]; [congruence |].
  unfold strconv.ParseUint. apply parseUint_loop_digits; [exact Hs |].
  rewrite maxUint64_value. lia.
Qed.


Lemma digits_value_nonneg (s : string) :
  all_digits s = true -> 0 <= digits_value s 0.
Proof.
  intros Hs. apply (digits_value_ge s 0 Hs). lia.
Qed.

(** [ParseInt] on a decimal token: its value when in range, a range error
    when not. *)
Ltac parseInt_ranges v :=
  change (2 ^ (strconv.intSize - 1)) with 9223372036854775808;
  change (2 ^ 63) with 9223372036854775808;
  rewrite ?maxUint64_value;
  destruct (Z.leb_spec v 18446744073709551615);
  cbn [negb andb orb]; zbool_cases.

Lemma ParseInt_decimal (s : string) (z : Z) :
  decimal s = Some z ->
  strconv.ParseInt s =
    if (- 2 ^ 63 <=? z) && (z <=? 2 ^ 63 - 1) then inl z else inr ErrRange.
Proof.
  destruct s as [| c rest]; [discriminate |].
  unfold decimal. intros Hd. unfold strconv.ParseInt. cbv zeta.
  destruct (Ascii.eqb c "-") eqn:Em.
  - cbn [orb] in *.
    destruct (all_digits rest && negb (String.eqb rest "")) eqn:Hr; [| discriminate].
    injection Hd as <-. apply andb_true_iff in Hr as [Hr Hne].
    rewrite orb_true_r.
    rewrite ParseUint_digits by (try exact Hr; intros ->; discriminate Hne).
    pose proof (digits_value_nonneg rest Hr).
    parseInt_ranges (digits_value rest 0).
  - destruct (Ascii.eqb c "+") eqn:Ep; cbn [orb] in *.
    + destruct (all_digits rest && negb (String.eqb rest "")) eqn:Hr; [| discriminate].
      injection Hd as <-. apply andb_true_iff in Hr as [Hr Hne].
      rewrite ParseUint_digits by (try exact Hr; intros ->; discriminate Hne).
      pose proof (digits_value_nonneg rest Hr).
      parseInt_ranges (digits_value rest 0).
    + destruct (all_digits (String c rest)) eqn:Hr; [| discriminate].
      assert (Hz : digits_value (String c rest) 0 = z) by congruence.
      rewrite <- Hz. clear Hd Hz.
      rewrite ParseUint_digits by (try exact Hr; discriminate).
      pose proof (digits_value_nonneg _ Hr).
      parseInt_ranges (digits_value (String c rest) 0).
Qed.



(** The fast path of [Atoi]. *)
Lemma Atoi_fast_path (s : string) :
  (0 < String.length s < 19)%nat ->
  strconv.Atoi s = match decimal s with
                   | Some z => Ok z
                   | None => Err (NumError "Atoi" s ErrSyntax)
                   end.
Proof.
  intros Hlen. unfold strconv.Atoi. cbv zeta.
  replace ((0 <? Z.of_nat (String.length s)) && (Z.of_nat (String.length s) <? 19))
    with true by (symmetry; apply andb_true_intro; split; apply Z.ltb_lt; lia).
  destruct s as [| c rest]; [reflexivity |].
  unfold decimal.
  destruct (Ascii.eqb c "-" || Ascii.eqb c "+") eqn:Es; cbn [andb].
  - destruct rest as [| c' rest'].
    + reflexivity.
    + replace (Z.of_nat (String.length (String c' rest')) <? 1) with false
        by (symmetry; apply Z.ltb_ge; cbn [String.length]; lia).
      rewrite atoi_fast_spec. cbn [String.eqb negb]. rewrite andb_true_r.
      destruct (all_digits (String c' rest')); reflexivity.
  - rewrite atoi_fast_spec.
    apply orb_false_iff in Es as [Em _]. rewrite Em.
    destruct (all_digits (String c rest)); reflexivity.
Qed.

Lemma in_range_bool (z : Z) :
  ((- 2 ^ 63 <=? z) && (z <=? 2 ^ 63 - 1) = true) <-> in_range z.
Proof.
  unfold in_range. rewrite andb_true_iff, !Z.leb_le. tauto.
Qed.

Lemma Atoi_slow_path (s : string) :
  ~ (0 < String.length s < 19)%nat ->
  strconv.Atoi s = match strconv.ParseInt s with
                   | inl i => Ok i
                   | inr k => Err (NumError "Atoi" s k)
                   end.
Proof.
  intros Hlen. unfold strconv.Atoi. cbv zeta.
  replace ((0 <? Z.of_nat (String.length s)) && (Z.of_nat (String.length s) <? 19))
    with false; [reflexivity |].
  symmetry. apply andb_false_iff.
  destruct (Nat.eq_dec (String.length s) 0) as [-> | Hn].
  - left. reflexivity.
  - right. apply Z.ltb_ge. lia.
Qed.

(** A decimal token in the range of [int] is read as its value. *)
Lemma Atoi_decimal (s : string) (z : Z) :
  decimal s = Some z -> in_range z -> strconv.Atoi s = Ok z.
Proof.
  intros Hd Hr.
  destruct (le_lt_dec 19 (String.length s)) as [Hlong | Hshort].
  - rewrite Atoi_slow_path by lia. rewrite (ParseInt_decimal s z Hd).
    apply in_range_bool in Hr. rewrite Hr. reflexivity.
  - rewrite Atoi_fast_path, Hd; [reflexivity |].
    destruct s; [discriminate | cbn [String.length] in *; lia].
Qed.





(** ** Strings *)

Lemma append_empty_r (s : string) : s ++ "" = s.
Proof.
  induction s as [| c s IH]; simpl; [reflexivity | now rewrite IH].
Qed.

Lemma append_assoc (a b c : string) : (a ++ b) ++ c = a ++ (b ++ c).
Proof.
  induction a as [| x a IH]; simpl; [reflexivity | now rewrite IH].
Qed.

Lemma length_append (a b : string) :
  String.length (a ++ b) = (String.length a + String.length b)%nat.
Proof.
  induction a as [| x a IH]; simpl; [reflexivity | now rewrite IH].
Qed.

(** ** [Itoa] writes a decimal token of its argument *)

Lemma utoa_digits (fuel : nat) : forall n acc,
  0 <= n < 10 ^ Z.of_nat (S fuel) ->
  exists ds, strconv.utoa (S fuel) n acc = ds ++ acc
             /\ all_digits ds = true /\ ds <> ""
             /\ forall a, digits_value ds a = a * 10 ^ Z.of_nat (String.length ds) + n.
Proof.
  induction fuel as [| fuel IH]; intros n acc Hn;
    cbn [strconv.utoa]; cbv zeta;
    assert (Hd : 0 <= n mod 10 <= 9) by (pose proof (Z.mod_pos_bound n 10); lia);
    destruct (Z.ltb_spec n 10) as [Hsmall | Hbig].
  1, 3: exists (String (strconv.digit_char (n mod 10)) "");
    rewrite Z.mod_small in * by lia;
    repeat split;
    [ cbn [all_digits]; rewrite isDigitChar_digit_char by lia; reflexivity
    | discriminate
    | intros a; cbn [digits_value String.length];
      rewrite byte_digit_char by lia; change (10 ^ Z.of_nat 1) with 10; lia ].
  - change (10 ^ Z.of_nat 1) with 10 in Hn. lia.
  - assert (Hq : 0 <= n / 10 < 10 ^ Z.of_nat (S fuel)).
    { rewrite (Nat2Z.inj_succ (S fuel)), Z.pow_succ_r in Hn by lia.
      split; [apply Z.div_pos; lia |].
      apply Z.div_lt_upper_bound; lia. }
    destruct (IH (n / 10) (String (strconv.digit_char (n mod 10)) acc) Hq)
      as (ds & Heq & Hall & Hne & Hval).
    cbn [strconv.utoa] in Heq. cbv zeta in Heq. rewrite Heq.
    exists (ds ++ String (strconv.digit_char (n mod 10)) "").
    repeat split.
    + rewrite append_assoc. reflexivity.
    + rewrite all_digits_app, Hall. cbn [all_digits andb].
      rewrite isDigitChar_digit_char by lia. reflexivity.
    + destruct ds; [congruence | discriminate].
    + intros a. rewrite digits_value_app, Hval. cbn [digits_value].
      rewrite byte_digit_char by lia. rewrite length_append. cbn [String.length].
      rewrite Nat.add_1_r, Nat2Z.inj_succ, Z.pow_succ_r by lia.
      pose proof (Z.div_mod n 10). lia.
Qed.

Lemma log2_fuel (n : Z) :
  0 <= n -> n < 10 ^ Z.of_nat (S (Z.to_nat (Z.log2 n))).
Proof.
  intros Hn. rewrite Nat2Z.inj_succ, Z2Nat.id by apply Z.log2_nonneg.
  destruct (Z.eq_dec n 0) as [-> | Hne].
  - reflexivity.
  - pose proof (Z.log2_spec n ltac:(lia)) as [_ Hlt].
    pose proof (Z.log2_nonneg n).
    assert (2 ^ Z.succ (Z.log2 n) <= 10 ^ Z.succ (Z.log2 n))
      by (apply Z.pow_le_mono_l; lia).
    lia.
Qed.

Lemma decimal_of_digits (ds : string) :
  all_digits ds = true -> ds <> "" -> decimal ds = Some (digits_value ds 0).
Proof.
  intros Hall Hne. destruct ds as [| c rest]; [congruence |].
  pose proof Hall as Hc. cbn [all_digits] in Hc. apply andb_true_iff in Hc as [Hc Hrest].
  rewrite (decimal_unsigned rest c Hc), Hrest. reflexivity.
Qed.

(** The token [Itoa i] denotes [i]. *)
Lemma decimal_Itoa (i : Z) : decimal (strconv.Itoa i) = Some i.
Proof.
  unfold strconv.Itoa. destruct (Z.ltb_spec i 0) as [Hneg | Hpos].
  - assert (Hb : 0 <= - i < 10 ^ Z.of_nat (S (Z.to_nat (Z.log2 (- i)))))
      by (split; [lia | apply log2_fuel; lia]).
    destruct (utoa_digits _ (- i) "" Hb) as (ds & -> & Hall & Hne & Hval).
    rewrite append_empty_r. unfold decimal. cbn [Ascii.eqb Bool.eqb orb andb].
    rewrite Hall. replace (String.eqb ds "") with false
      by (symmetry; apply String.eqb_neq; exact Hne).
    cbn [negb andb]. rewrite Hval. f_equal. lia.
  - destruct (utoa_digits _ i "" (conj Hpos (log2_fuel i Hpos)))
      as (ds & -> & Hall & Hne & Hval).
    rewrite append_empty_r, (decimal_of_digits ds Hall Hne), Hval. reflexivity.
Qed.

(** Reading back what [Itoa] wrote. *)
Lemma Atoi_Itoa (i : Z) : in_range i -> strconv.Atoi (strconv.Itoa i) = Ok i.
Proof.
  intros Hr. apply Atoi_decimal; [apply decimal_Itoa | exact Hr].
Qed.

(** ** [unquote] *)








(** ** The nullable decoders *)



Lemma mintime_UnmarshalJSON_null (t : mintime) : mintime_UnmarshalJSON t null = Ok t.
Proof. reflexivity. Qed.

Lemma mintime_UnmarshalJSON_token (t : mintime) (data : string) :
  data <> null ->
  mintime_UnmarshalJSON t data = gotime.ParseInLocation (unquote data).
Proof.
  intros Hn. unfold mintime_UnmarshalJSON.
  apply String.eqb_neq in Hn. rewrite Hn.
  destruct (gotime.ParseInLocation (unquote data)); reflexivity.
Qed.



(** ** [strconv.ParseFloat] *)
















(** ** Records: one member at a time *)

Lemma bound_int (g : intfield) (d : Detail) :
  bound (IntField g) d = qint_V (get_int g d).
Proof. destruct g; reflexivity. Qed.


Lemma bound_time (g : timefield) (d : Detail) :
  bound (TimeField g) d = TimeVal (get_time g d).
Proof. destruct g; reflexivity. Qed.



Lemma get_set_time (g : timefield) (v : mintime) (d : Detail) :
  get_time g (set_time g v d) = v.
Proof. destruct d, g; reflexivity. Qed.

(** Writing one field leaves what is bound to every other column. *)
Lemma bound_set_int (f : field) (g : intfield) (v : qint) (d : Detail) :
  f <> IntField g -> bound f (set_int g v d) = bound f d.
Proof.
  intros Hne. destruct d. destruct f as [[] | [] | []], g;
    try reflexivity; congruence.
Qed.

Lemma bound_set_float (f : field) (g : floatfield) (v : qfloat) (d : Detail) :
  f <> FloatField g -> bound f (set_float g v d) = bound f d.
Proof.
  intros Hne. destruct d. destruct f as [[] | [] | []], g;
    try reflexivity; congruence.
Qed.

Lemma bound_set_time (f : field) (g : timefield) (v : mintime) (d : Detail) :
  f <> TimeField g -> bound f (set_time g v d) = bound f d.
Proof.
  intros Hne. destruct d. destruct f as [[] | [] | []], g;
    try reflexivity; congruence.
Qed.

Lemma decode_member_frame (d d' : Detail) (f f' : field) (data : string) :
  decode_member d f data = Ok d' -> f' <> f -> bound f' d' = bound f' d.
Proof.
  intros Hd Hne. destruct f as [g | g | g]; cbn [decode_member] in Hd.
  - destruct (qint_UnmarshalJSON _ _); [| discriminate].
    injection Hd as <-. apply bound_set_int, Hne.
  - destruct (qfloat_UnmarshalJSON _ _); [| discriminate].
    injection Hd as <-. apply bound_set_float, Hne.
  - destruct (mintime_UnmarshalJSON _ _); [| discriminate].
    injection Hd as <-. apply bound_set_time, Hne.
Qed.

Lemma decode_members_frame (ms : list (field * string)) : forall d d' f,
  decode_members d ms = Ok d' ->
  ~ In f (map fst ms) -> bound f d' = bound f d.
Proof.
  induction ms as [| [f0 data] ms IH]; intros d d' f Hd Hnin.
  - injection Hd as <-. reflexivity.
  - cbn [decode_members] in Hd.
    destruct (decode_member d f0 data) as [d1 |] eqn:E1; [| discriminate].
    cbn [map fst In] in Hnin.
    rewrite (IH d1 d' f Hd) by tauto.
    apply (decode_member_frame _ _ _ _ _ E1). intros ->. tauto.
Qed.

Lemma decode_members_app (ms1 ms2 : list (field * string)) : forall d,
  decode_members d (ms1 ++ ms2)%list =
    match decode_members d ms1 with
    | Ok d1 => decode_members d1 ms2
    | Err e => Err e
    end.
Proof.
  induction ms1 as [| [f0 data] ms1 IH]; intros d; cbn [decode_members app];
    [reflexivity |].
  destruct (decode_member d f0 data); [apply IH | reflexivity].
Qed.







(** ** The timestamp layout *)


Lemma digit_char_not_space (d : Z) :
  0 <= d <= 9 -> Ascii.eqb (strconv.digit_char d) " " = false.
Proof.
  intros Hd. apply Ascii.eqb_neq. intros Heq.
  pose proof (byte_digit_char d Hd) as Hb. rewrite Heq in Hb.
  change (byte " ") with 32 in Hb. lia.
Qed.




Lemma getnum_inv (s rest : string) (fixed : bool) (n : Z) :
  gotime.getnum s fixed = Some (n, rest) ->
  (0 <= n <= 99 /\ s = fmt2 n ++ rest)
  \/ (fixed = false /\ 0 <= n <= 9 /\ s = String (strconv.digit_char n) rest
      /\ gotime.isDigit0 rest = false).
Proof.
  destruct s as [| c0 s1]; [discriminate |]. cbn [gotime.getnum].
  destruct (gotime.isDigitChar c0) eqn:H0; [| discriminate]. cbn [negb].
  pose proof H0 as B0. apply isDigitChar_bounds in B0.
  destruct (gotime.isDigit0 s1) eqn:H1; cbn [negb].
  - destruct s1 as [| c1 s2]; [discriminate |]. cbn [gotime.isDigit0] in H1.
    pose proof H1 as B1. apply isDigitChar_bounds in B1.
    intros Heq. injection Heq as <- <-. left. split; [lia |].
    unfold fmt2. cbn [append].
    replace (((byte c0 - 48) * 10 + (byte c1 - 48)) / 10) with (byte c0 - 48).
    2: { apply Z.div_unique with (r := byte c1 - 48); lia. }
    replace (((byte c0 - 48) * 10 + (byte c1 - 48)) mod 10) with (byte c1 - 48).
    2: { apply Z.mod_unique with (q := byte c0 - 48); lia. }
    rewrite !digit_char_byte by assumption. reflexivity.
  - destruct fixed; [discriminate |].
    intros Heq. injection Heq as <- <-. right.
    rewrite digit_char_byte by assumption. repeat split; try lia. exact H1.
Qed.



Lemma skip_char_inv (c : ascii) (s rest : string) :
  Ascii.eqb c " " = false ->
  gotime.skip s (String c "") = Some rest -> s = String c rest.
Proof.
  intros Hc. unfold gotime.skip. cbn [String.length gotime.skip_loop]. rewrite Hc.
  destruct s as [| v s']; [discriminate |].
  destruct (Ascii.eqb_spec v c) as [-> |]; [| discriminate].
  intros Heq. injection Heq as <-. reflexivity.
Qed.


Lemma cutspace_inv (s : string) :
  exists n, s = spaces n ++ gotime.cutspace s
            /\ (forall c r, gotime.cutspace s = String c r -> Ascii.eqb c " " = false).
Proof.
  induction s as [| c s (n & IH & Hc)].
  - exists 0%nat. split; [reflexivity | discriminate].
  - cbn [gotime.cutspace]. destruct (Ascii.eqb_spec c " ") as [-> | Hne].
    + exists (S n). split; [cbn [spaces append]; now rewrite <- IH | exact Hc].
    + exists 0%nat. split; [reflexivity |].
      intros c' r Heq. injection Heq as <- <-. apply Ascii.eqb_neq, Hne.
Qed.


Lemma skip_space_inv (s rest : string) :
  gotime.skip s " " = Some rest -> rest <> "" ->
  exists n, s = spaces (S n) ++ rest
            /\ (forall c r, rest = String c r -> Ascii.eqb c " " = false).
Proof.
  unfold gotime.skip. cbn [String.length gotime.skip_loop Ascii.eqb Bool.eqb].
  destruct s as [| v s'].
  - cbn. intros Heq Hne. injection Heq as <-. congruence.
  - destruct (Ascii.eqb_spec v " ") as [-> | Hne]; [| discriminate].
    cbn [negb gotime.cutspace Ascii.eqb Bool.eqb gotime.skip_loop].
    intros Heq _. injection Heq as <-.
    destruct (cutspace_inv s') as (n & Hs & Hc).
    exists n. split; [cbn [spaces append]; now rewrite <- Hs | exact Hc].
Qed.

Lemma substring_0_0 (s : string) : substring 0 0 s = "".
Proof. destruct s; reflexivity. Qed.

Lemma substring_all (s : string) : substring 0 (String.length s) s = s.
Proof.
  induction s as [| c s IH]; [reflexivity |]. cbn [String.length substring].
  now rewrite IH.
Qed.

Lemma fmt4_chars (y : Z) (rest : string) :
  fmt4 y ++ rest =
    String (strconv.digit_char (y / 100 / 10))
      (String (strconv.digit_char ((y / 100) mod 10))
         (String (strconv.digit_char (y mod 100 / 10))
            (String (strconv.digit_char ((y mod 100) mod 10)) rest))).
Proof. reflexivity. Qed.



Lemma leadingInt_digits4 (a b c d : ascii) (y : Z) :
  gotime.atoi (String a (String b (String c (String d "")))) = Some y ->
  gotime.isDigitChar a = true /\ gotime.isDigitChar b = true
  /\ gotime.isDigitChar c = true /\ gotime.isDigitChar d = true
  /\ y = (((byte a - 48) * 10 + (byte b - 48)) * 10 + (byte c - 48)) * 10 + (byte d - 48).
Proof.
  unfold gotime.atoi. cbn [gotime.leadingInt].
  destruct (gotime.isDigitChar a); [| discriminate].
  destruct (gotime.isDigitChar b); [| discriminate].
  destruct (gotime.isDigitChar c); [| discriminate].
  destruct (gotime.isDigitChar d); [| discriminate].
  intros Heq. injection Heq as <-. repeat split; lia.
Qed.

Lemma year_chunk_inv (v : string) (y : Z) :
  (Z.of_nat (String.length v) <? 4) || negb (gotime.isDigit0 v) = false ->
  gotime.atoi (substring 0 4 v) = Some y ->
  0 <= y <= 9999 /\ v = fmt4 y ++ substring 4 (String.length v - 4) v.
Proof.
  intros Hlen Hy. apply orb_false_iff in Hlen as [Hlen _]. apply Z.ltb_ge in Hlen.
  destruct v as [| a [| b [| c [| d rest]]]]; cbn [String.length] in Hlen; try lia.
  cbn [substring] in Hy. rewrite substring_0_0 in Hy.
  apply leadingInt_digits4 in Hy as (Ha & Hb & Hc & Hd & ->).
  pose proof Ha as Ba. pose proof Hb as Bb. pose proof Hc as Bc. pose proof Hd as Bd.
  apply isDigitChar_bounds in Ba, Bb, Bc, Bd.
  split; [lia |].
  cbn [String.length].
  replace (S (S (S (S (String.length rest)))) - 4)%nat with (String.length rest) by lia.
  cbn [substring]. rewrite substring_all, fmt4_chars.
  set (hi := (byte a - 48) * 10 + (byte b - 48)).
  set (lo := (byte c - 48) * 10 + (byte d - 48)).
  assert (Hq : ((hi * 10 + (byte c - 48)) * 10 + (byte d - 48)) / 100 = hi).
  { symmetry. apply Z.div_unique with (r := lo); subst hi lo; lia. }
  assert (Hr : ((hi * 10 + (byte c - 48)) * 10 + (byte d - 48)) mod 100 = lo).
  { symmetry. apply Z.mod_unique with (q := hi); subst hi lo; lia. }
  rewrite Hq, Hr. subst hi lo.
  replace (((byte a - 48) * 10 + (byte b - 48)) / 10) with (byte a - 48)
    by (apply Z.div_unique with (r := byte b - 48); lia).
  replace (((byte a - 48) * 10 + (byte b - 48)) mod 10) with (byte b - 48)
    by (apply Z.mod_unique with (q := byte a - 48); lia).
  replace (((byte c - 48) * 10 + (byte d - 48)) / 10) with (byte c - 48)
    by (apply Z.div_unique with (r := byte d - 48); lia).
  replace (((byte c - 48) * 10 + (byte d - 48)) mod 10) with (byte d - 48)
    by (apply Z.mod_unique with (q := byte c - 48); lia).
  rewrite !digit_char_byte by assumption. reflexivity.
Qed.





Lemma civil_text_lenient (y m d h mi : Z) :
  civil_text y m d h mi = lenient_text y m d 0 h true mi.
Proof. reflexivity. Qed.

(** Conversely, what the layout reads is of that form. *)
Lemma ParseInLocation_inv (s : string) (t : gotime.Time) :
  gotime.ParseInLocation s = Ok t ->
  exists y m d n h two mi,
    s = lenient_text y m d n h two mi
    /\ valid_civil y m d h mi /\ (two = false -> h <= 9)
    /\ t = gotime.Date y m d h mi.
Proof.
  unfold gotime.ParseInLocation. cbv zeta.
  destruct ((Z.of_nat (String.length s) <? 4) || negb (gotime.isDigit0 s)) eqn:E1;
    [discriminate |].
  destruct (gotime.atoi (substring 0 4 s)) as [y |] eqn:E2; [| discriminate].
  destruct (year_chunk_inv s y E1 E2) as [Hy Hs].
  set (v1 := substring 4 (String.length s - 4) s) in *.
  destruct (gotime.skip v1 "-") as [v2 |] eqn:E3; [| discriminate].
  apply skip_char_inv in E3; [| reflexivity].
  destruct (gotime.getnum v2 true) as [[m v3] |] eqn:E4; [| discriminate].
  destruct (getnum_inv _ _ _ _ E4) as [[Hm0 Hv2] | [Hf _]]; [| discriminate].
  destruct (Z.leb_spec m 0); [discriminate |].
  destruct (Z.ltb_spec 12 m); [discriminate |]. cbn [orb].
  destruct (gotime.skip v3 "-") as [v4 |] eqn:E5; [| discriminate].
  apply skip_char_inv in E5; [| reflexivity].
  destruct (gotime.getnum v4 true) as [[d v5] |] eqn:E6; [| discriminate].
  destruct (getnum_inv _ _ _ _ E6) as [[Hd0 Hv4] | [Hf _]]; [| discriminate].
  destruct (gotime.skip v5 " ") as [v6 |] eqn:E7; [| discriminate].
  destruct (gotime.getnum v6 false) as [[h v7] |] eqn:E8; [| discriminate].
  assert (Hne : v6 <> "") by (intros ->; discriminate E8).
  destruct (skip_space_inv _ _ E7 Hne) as (n & Hv5 & _).
  destruct (Z.ltb_spec h 0); [discriminate |].
  destruct (Z.leb_spec 24 h); [discriminate |]. cbn [orb].
  destruct (gotime.skip v7 ":") as [v8 |] eqn:E9; [| discriminate].
  apply skip_char_inv in E9; [| reflexivity].
  destruct (gotime.getnum v8 true) as [[mi v9] |] eqn:E10; [| discriminate].
  destruct (getnum_inv _ _ _ _ E10) as [[Hmi0 Hv8] | [Hf _]]; [| discriminate].
  destruct (Z.ltb_spec mi 0); [discriminate |].
  destruct (Z.leb_spec 60 mi); [discriminate |]. cbn [orb].
  destruct v9 as [| c9 v9']; [| discriminate]. cbn [String.length Nat.eqb negb].
  destruct (Z.ltb_spec d 1); [discriminate |].
  destruct (Z.ltb_spec (gotime.daysIn m y) d); [discriminate |]. cbn [orb].
  intros Heq. injection Heq as <-.
  assert (Hvalid : valid_civil y m d h mi) by (unfold valid_civil; lia).
  destruct (getnum_inv _ _ _ _ E8) as [[Hh0 Hv6] | (_ & Hh0 & Hv6 & _)].
  - exists y, m, d, n, h, true, mi. repeat split; try (apply Hvalid); try discriminate.
    rewrite Hs. unfold lenient_text, hour_text. cbn [append].
    rewrite E3, Hv2, E5, Hv4, Hv5, Hv6, E9, Hv8, append_empty_r.
    cbn [spaces append]. reflexivity.
  - exists y, m, d, n, h, false, mi. repeat split; try (apply Hvalid); try lia.
    rewrite Hs. unfold lenient_text, hour_text. cbn [append].
    rewrite E3, Hv2, E5, Hv4, Hv5, Hv6, E9, Hv8, append_empty_r.
    cbn [spaces append]. reflexivity.
Qed.


Lemma length_fmt2 (n : Z) : String.length (fmt2 n) = 2%nat.
Proof. reflexivity. Qed.


(** ** The timestamp decoder *)




(** ** The statement and the transaction *)

Lemma same_environment_refl (d : sql.DB) : same_environment d d.
Proof. repeat split. Qed.

Lemma same_environment_trans (d1 d2 d3 : sql.DB) :
  same_environment d1 d2 -> same_environment d2 d3 -> same_environment d1 d3.
Proof.
  unfold same_environment. intros (?&?&?&?&?&?&?) (?&?&?&?&?&?&?).
  repeat split; congruence.
Qed.

(** One execution of the statement prepared on [db]: the row joins the
    table at once unless its key is there, in which case nothing changes
    and no row is affected; the transaction is not touched. *)
Lemma StmtExec_OnDB (args : list any) (d : sql.DB) :
  match sql.StmtExec sql.OnDB args d with
  | (Ok n, d') =>
      sql.check_row d args = None
      /\ sql.rows d' = insert_all (sql.rows d) [args]
      /\ n = Z.of_nat (List.length (sql.rows d')) - Z.of_nat (List.length (sql.rows d))
  | (Err e, d') => sql.check_row d args = Some e /\ sql.rows d' = sql.rows d
  end
  /\ sql.pending (snd (sql.StmtExec sql.OnDB args d)) = sql.pending d
  /\ sql.calls (snd (sql.StmtExec sql.OnDB args d))
     = (sql.calls d ++ [sql.CStmtExec args])%list
  /\ same_environment d (snd (sql.StmtExec sql.OnDB args d)).
Proof.
  unfold sql.StmtExec. cbv zeta.
  change (sql.check_row (sql.record (sql.CStmtExec args) d) args)
    with (sql.check_row d args).
  destruct (sql.check_row d args) as [e |] eqn:Ec.
  - repeat split.
  - cbn [insert_all]. destruct (sql.key_of args) as [k |] eqn:Ek.
    + change (sql.rows (sql.record (sql.CStmtExec args) d)) with (sql.rows d).
      destruct (sql.has_key k (sql.rows d)) eqn:Eh.
      * repeat split. cbn. lia.
      * repeat split. cbn. rewrite length_app. cbn. lia.
    + repeat split. cbn. lia.
Qed.

(** A key that is in the table: the execution is a silent no-op. *)
Lemma StmtExec_duplicate (args : list any) (d : sql.DB) (k : string * gotime.Time) :
  sql.check_row d args = None -> sql.key_of args = Some k ->
  sql.has_key k (sql.rows d) = true ->
  exists d', sql.StmtExec sql.OnDB args d = (Ok 0, d') /\ sql.rows d' = sql.rows d.
Proof.
  intros Hc Hk Hh. unfold sql.StmtExec. cbv zeta.
  change (sql.check_row (sql.record (sql.CStmtExec args) d) args)
    with (sql.check_row d args).
  rewrite Hc, Hk.
  change (sql.rows (sql.record (sql.CStmtExec args) d)) with (sql.rows d).
  rewrite Hh. eexists. split; reflexivity.
Qed.

Lemma insert_all_app (rs1 rs2 : list sql.Row) : forall table,
  insert_all table (rs1 ++ rs2)%list = insert_all (insert_all table rs1) rs2.
Proof.
  induction rs1 as [| r rs1 IH]; intros table; cbn [insert_all app]; [reflexivity |].
  destruct (sql.key_of r); [destruct (sql.has_key _ _) |]; apply IH.
Qed.

Lemma insert_all_length (rs : list sql.Row) : forall table,
  (List.length table <= List.length (insert_all table rs))%nat.
Proof.
  induction rs as [| r rs IH]; intros table; cbn [insert_all]; [lia |].
  destruct (sql.key_of r); [destruct (sql.has_key _ _) |]; try apply IH.
  specialize (IH (table ++ [r])%list). rewrite length_app in IH. cbn in IH. lia.
Qed.

(** The inner loop with the statement prepared on [db].  When it ends
    without an error, every record was a candidate and the rows are those
    of the table after each was offered to it; when an execution fails,
    the rows inserted before it are in the table, rollback or not. *)
Lemma insert_details_OnDB (ds : list Detail) : forall c i d,
  match insert_details sql.OnDB ds c i d with
  | (Ok (c', i'), d') =>
      c' = c + Z.of_nat (List.length ds)
      /\ sql.rows d' = insert_all (sql.rows d) (map exec_args ds)
      /\ i' - i = Z.of_nat (List.length (sql.rows d')) - Z.of_nat (List.length (sql.rows d))
      /\ sql.pending d' = sql.pending d
      /\ sql.calls d' = (sql.calls d ++ map sql.CStmtExec (map exec_args ds))%list
  | (Err e, d') =>
      exists ds1 x ds2 e0,
        ds = (ds1 ++ x :: ds2)%list /\ e = Errorf "exec" e0
        /\ sql.rows d' = insert_all (sql.rows d) (map exec_args ds1)
        /\ sql.pending d' = None
        /\ sql.calls d'
           = (sql.calls d ++ map sql.CStmtExec (map exec_args (ds1 ++ [x]))
                ++ [sql.CRollback])%list
  end
  /\ same_environment d (snd (insert_details sql.OnDB ds c i d)).
Proof.
  induction ds as [| x ds IH]; intros c i d.
  - cbn. repeat split; try lia. now rewrite app_nil_r.
  - cbn [insert_details]. cbv zeta.
    pose proof (StmtExec_OnDB (exec_args x) d) as (Hres & Hpend & Hcalls & Henv).
    destruct (sql.StmtExec sql.OnDB (exec_args x) d) as [[n | e] d1]; cbn [snd] in *.
    + destruct Hres as (Hchk & Hrows & Hn).
      specialize (IH (c + 1) (i + n) d1).
      destruct (insert_details sql.OnDB ds (c + 1) (i + n) d1) as [[[c' i'] | e] d2];
        cbn [snd] in *; destruct IH as [IH Henv2];
        (split; [| exact (same_environment_trans _ _ _ Henv Henv2)]).
      * destruct IH as (Hc & Hr & Hi & Hp & Hcs).
        cbn [List.length map]. repeat split.
        -- lia.
        -- rewrite Hr, Hrows. change (exec_args x :: map exec_args ds)
             with ([exec_args x] ++ map exec_args ds)%list.
           now rewrite insert_all_app.
        -- lia.
        -- congruence.
        -- rewrite Hcs, Hcalls, <- app_assoc. reflexivity.
      * destruct IH as (ds1 & y & ds2 & e0 & -> & -> & Hr & Hp & Hcs).
        exists (x :: ds1), y, ds2, e0. repeat split.
        -- rewrite Hr, Hrows. cbn [map]. change (exec_args x :: map exec_args ds1)
             with ([exec_args x] ++ map exec_args ds1)%list.
           now rewrite insert_all_app.
        -- exact Hp.
        -- rewrite Hcs, Hcalls, <- !app_assoc. reflexivity.
    + destruct Hres as (Hchk & Hrows). split.
      * exists [], x, ds, e. repeat split.
        -- exact Hrows.
        -- cbn. rewrite Hcalls, <- app_assoc. reflexivity.
      * destruct Henv as (?&?&?&?&?&?&?). repeat split; assumption.
Qed.

(** The outer loop: the same, over the records of all summaries. *)
Lemma insert_summaries_OnDB (summaries : list Summary) : forall c i d,
  match insert_summaries sql.OnDB summaries c i d with
  | (Ok (c', i'), d') =>
      c' = c + Z.of_nat (List.length (flat_map Data summaries))
      /\ sql.rows d' = insert_all (sql.rows d) (map exec_args (flat_map Data summaries))
      /\ i' - i = Z.of_nat (List.length (sql.rows d')) - Z.of_nat (List.length (sql.rows d))
      /\ sql.pending d' = sql.pending d
      /\ sql.calls d'
         = (sql.calls d ++ map sql.CStmtExec (map exec_args (flat_map Data summaries)))%list
  | (Err e, d') =>
      exists ds1 x ds2 e0,
        flat_map Data summaries = (ds1 ++ x :: ds2)%list /\ e = Errorf "exec" e0
        /\ sql.rows d' = insert_all (sql.rows d) (map exec_args ds1)
        /\ sql.pending d' = None
        /\ sql.calls d'
           = (sql.calls d ++ map sql.CStmtExec (map exec_args (ds1 ++ [x]))
                ++ [sql.CRollback])%list
  end
  /\ same_environment d (snd (insert_summaries sql.OnDB summaries c i d)).
Proof.
  induction summaries as [| s rest IH]; intros c i d.
  - cbn. repeat split; try lia. now rewrite app_nil_r.
  - cbn [insert_summaries flat_map].
    pose proof (insert_details_OnDB (Data s) c i d) as [Hin Henv].
    destruct (insert_details sql.OnDB (Data s) c i d) as [[[c1 i1] | e] d1];
      cbn [snd] in *.
    + destruct Hin as (Hc & Hr & Hi & Hp & Hcs).
      specialize (IH c1 i1 d1).
      destruct (insert_summaries sql.OnDB rest c1 i1 d1) as [[[c' i'] | e] d2];
        cbn [snd] in *; destruct IH as [IH Henv2];
        (split; [| exact (same_environment_trans _ _ _ Henv Henv2)]).
      * destruct IH as (Hc2 & Hr2 & Hi2 & Hp2 & Hcs2).
        rewrite length_app, !map_app, insert_all_app. repeat split.
        -- lia.
        -- now rewrite Hr2, Hr.
        -- lia.
        -- congruence.
        -- rewrite Hcs2, Hcs, <- app_assoc. reflexivity.
      * destruct IH as (ds1 & y & ds2 & e0 & Hfl & -> & Hr2 & Hp2 & Hcs2).
        exists (Data s ++ ds1)%list, y, ds2, e0. repeat split.
        -- rewrite Hfl, <- app_assoc. reflexivity.
        -- rewrite map_app, insert_all_app, Hr2, Hr. reflexivity.
        -- exact Hp2.
        -- rewrite Hcs2, Hcs, <- !app_assoc, !map_app, <- !app_assoc. reflexivity.
    + split; [| exact Henv].
      destruct Hin as (ds1 & y & ds2 & e0 & Hfl & -> & Hr & Hp & Hcs).
      exists ds1, y, (ds2 ++ flat_map Data rest)%list, e0. repeat split.
      * rewrite Hfl, <- app_assoc. reflexivity.
      * exact Hr.
      * exact Hp.
      * exact Hcs.
Qed.

Lemma insert_all_gain (rs : list sql.Row) : forall table,
  (List.length (insert_all table rs) <= List.length table + List.length rs)%nat.
Proof.
  induction rs as [| r rs IH]; intros table; cbn [insert_all List.length]; [lia |].
  destruct (sql.key_of r); [destruct (sql.has_key _ _) |].
  - specialize (IH table). lia.
  - specialize (IH (table ++ [r])%list). rewrite length_app in IH.
    cbn [List.length] in IH. lia.
  - specialize (IH table). lia.
Qed.

(** Logging changes the log only. *)
Lemma Printf_all (msgs : list logmsg) : forall w,
  let w' := fold_left (fun w m => Printf m w) msgs w in
  now w' = now w /\ dir w' = dir w /\ readdir_err w' = readdir_err w
  /\ mkdir_err w' = mkdir_err w /\ create_err w' = create_err w
  /\ disk_free w' = disk_free w /\ remote w' = remote w /\ gets w' = gets w
  /\ db w' = db w /\ log w' = (log w ++ msgs)%list.
Proof.
  induction msgs as [| m msgs IH]; intros w; cbn [fold_left].
  - cbv zeta. rewrite app_nil_r. repeat split.
  - specialize (IH (Printf m w)). cbv zeta in *.
    destruct IH as (?&?&?&?&?&?&?&?&?&Hlog).
    repeat split; try assumption.
    rewrite Hlog. cbn [Printf log]. rewrite <- app_assoc. reflexivity.
Qed.

(** The parts of the world [writeSummaries] leaves alone. *)
Lemma writeSummaries_frame (summaries : list Summary) (w : World) :
  let w' := snd (writeSummaries summaries w) in
  now w' = now w /\ dir w' = dir w /\ readdir_err w' = readdir_err w
  /\ mkdir_err w' = mkdir_err w /\ create_err w' = create_err w
  /\ disk_free w' = disk_free w /\ remote w' = remote w /\ gets w' = gets w.
Proof.
  unfold writeSummaries.
  destruct (sql.Connect (db w)) as [[u | e] d]; [| repeat split].
  destruct (writeSummaries_connected summaries d) as [[r d'] msgs]. cbn [snd].
  destruct (Printf_all msgs (with_db (sql.Close d') w)) as (?&?&?&?&?&?&?&?&_).
  cbv zeta. repeat split; assumption.
Qed.

(** C6.  For every batch [writeSummaries] ingests without an error: the
    table holds its old rows and, of the batch's records in their order,
    those whose key it did not hold when their turn came, a record whose
    key is there being a no-op that affects no row; the calls on the
    database were the connect, the schema, the prepare, the begin, one
    execution for each record, one commit, and the close; and the one line
    logged reports as inserted the number of rows the table gained and as
    duplicates the number of records of the batch minus that. *)
Theorem ingestion_counts (summaries : list Summary) (w w' : World) :
  writeSummaries summaries w = (Ok tt, w') ->
  let records := flat_map Data summaries in
  let candidates := Z.of_nat (List.length records) in
  let inserted := Z.of_nat (List.length (sql.rows (db w')))
                  - Z.of_nat (List.length (sql.rows (db w))) in
  sql.rows (db w') = insert_all (sql.rows (db w)) (map exec_args records)
  /\ sql.calls (db w')
     = (sql.calls (db w)
          ++ [sql.CConnect; sql.CExecSchema; sql.CPrepare; sql.CBegin]
          ++ map sql.CStmtExec (map exec_args records)
          ++ [sql.CCommit; sql.CClose])%list
  /\ log w' = (log w ++ [LogAdded inserted (candidates - inserted)])%list
  /\ 0 <= inserted <= candidates
  /\ (forall args d k,
        sql.check_row d args = None -> sql.key_of args = Some k ->
        sql.has_key k (sql.rows d) = true ->
        exists d', sql.StmtExec sql.OnDB args d = (Ok 0, d')
                   /\ sql.rows d' = sql.rows d).
Proof.
  intros Hw records candidates inserted.
  assert (Hdup : forall args d k,
        sql.check_row d args = None -> sql.key_of args = Some k ->
        sql.has_key k (sql.rows d) = true ->
        exists d', sql.StmtExec sql.OnDB args d = (Ok 0, d')
                   /\ sql.rows d' = sql.rows d)
    by (intros; eapply StmtExec_duplicate; eassumption).
  unfold writeSummaries in Hw. unfold sql.Connect in Hw. cbv zeta in Hw.
  change (sql.connect_err (sql.record sql.CConnect (db w)))
    with (sql.connect_err (db w)) in Hw.
  destruct (sql.connect_err (db w)) as [e |] eqn:Econ; [discriminate |].
  unfold writeSummaries_connected, sql.ExecSchema, sql.Prepare, sql.Begin in Hw.
  cbv zeta in Hw.
  set (d1 := sql.record sql.CExecSchema (sql.record sql.CConnect (db w))) in Hw.
  change (sql.schema_err d1) with (sql.schema_err (db w)) in Hw.
  destruct (sql.schema_err (db w)) as [e |] eqn:Esch; [discriminate |].
  set (d2 := sql.record sql.CPrepare (sql.with_table d1)) in Hw.
  change (sql.prepare_err d2) with (sql.prepare_err (db w)) in Hw.
  destruct (sql.prepare_err (db w)) as [e |] eqn:Eprep; [discriminate |].
  set (d3 := sql.record sql.CBegin d2) in Hw.
  change (sql.begin_err d3) with (sql.begin_err (db w)) in Hw.
  destruct (sql.begin_err (db w)) as [e |] eqn:Ebeg; [discriminate |].
  set (d4 := sql.with_pending (Some []) d3) in Hw.
  pose proof (insert_summaries_OnDB summaries 0 0 d4) as [Hin Henv].
  destruct (insert_summaries sql.OnDB summaries 0 0 d4) as [[[c i] | e] d5];
    [| discriminate].
  destruct Hin as (Hc & Hr & Hi & Hp & Hcs). cbn [snd] in Henv.
  unfold sql.Commit in Hw. cbv zeta in Hw.
  change (sql.commit_err (sql.record sql.CCommit d5)) with (sql.commit_err d5) in Hw.
  destruct (sql.commit_err d5) as [e |]; [discriminate |].
  change (sql.pending (sql.record sql.CCommit d5)) with (sql.pending d5) in Hw.
  rewrite Hp in Hw. cbn [sql.pending d4 sql.with_pending] in Hw.
  injection Hw as <-. subst inserted candidates.
  cbn [fold_left Printf db log with_db sql.Close sql.record sql.rows sql.calls
       sql.with_pending sql.with_rows].
  rewrite app_nil_r.
  change (sql.rows d4) with (sql.rows (db w)) in *.
  fold records in Hc, Hr, Hcs.
  pose proof (insert_all_length (map exec_args records) (sql.rows (db w))) as Hlen.
  rewrite <- Hr in Hlen.
  pose proof (insert_all_gain (map exec_args records) (sql.rows (db w))) as Hle.
  rewrite <- Hr, length_map in Hle.
  repeat split.
  - exact Hr.
  - rewrite Hcs. cbn [d4 d3 d2 d1 sql.calls sql.with_pending sql.record sql.with_table].
    rewrite <- !app_assoc. reflexivity.
  - do 2 f_equal. f_equal; lia.
  - lia.
  - lia.
  - exact Hdup.
Qed.

(** C6 on the design document's scenario: five candidates, two of which
    are in the table, commit with three inserted and two duplicates
    reported. *)
Lemma ingestion_counts_five_candidates :
  let a := sample_detail "2025 AA" 1 10 in
  let b := sample_detail "2025 AB" 2 11 in
  let c := sample_detail "2025 AC" 3 12 in
  let d := sample_detail "2025 AD" 4 13 in
  let e := sample_detail "2025 AE" 5 14 in
  let w := sample_world 0 None (Err EOF) [exec_args b; exec_args d] in
  let batch := [mkSummary "2" "" "1.2" [a; b]; mkSummary "3" "" "1.2" [c; d; e]] in
  fst (writeSummaries batch w) = Ok tt
  /\ log (snd (writeSummaries batch w)) = [LogAdded 3 2]
  /\ sql.rows (db (snd (writeSummaries batch w)))
     = [exec_args b; exec_args d; exec_args a; exec_args c; exec_args e].
Proof.
  intros a b c d e w batch.
  assert (Hrun : writeSummaries batch w = (Ok tt, snd (writeSummaries batch w)))
    by (vm_compute; reflexivity).
  destruct (ingestion_counts batch w _ Hrun) as (Hrows & _ & Hlog & _ & _).
  split; [rewrite Hrun; reflexivity |]. split.
  - rewrite Hlog, Hrows. vm_compute. reflexivity.
  - rewrite Hrows. vm_compute. reflexivity.
Defined.

(** A statement bound to the transaction: an error of an execution, and
    the rollback that follows it, leave the table as it was.  This is what
    [tx.Stmt(stmt)] or [tx.Prepare] would give; [writeSummaries] executes
    the statement it prepared on [db]. *)
Lemma insert_details_OnTx (ds : list Detail) : forall c i d p,
  sql.pending d = Some p ->
  match insert_details sql.OnTx ds c i d with
  | (Ok _, d') => sql.rows d' = sql.rows d /\ exists p', sql.pending d' = Some p'
  | (Err _, d') => sql.rows d' = sql.rows d /\ sql.pending d' = None
  end.
Proof.
  induction ds as [| x ds IH]; intros c i d p Hp.
  - cbn. eauto.
  - cbn [insert_details]. cbv zeta. unfold sql.StmtExec. cbv zeta.
    destruct (sql.check_row _ _); [cbn; auto |].
    destruct (sql.key_of (exec_args x)) as [k |].
    + change (sql.pending (sql.record (sql.CStmtExec (exec_args x)) d))
        with (sql.pending d). rewrite Hp.
      destruct (sql.has_key k _).
      * exact (IH (c + 1) (i + 0) (sql.record (sql.CStmtExec (exec_args x)) d) p Hp).
      * specialize (IH (c + 1) (i + 1)
          (sql.with_pending (Some (p ++ [exec_args x])%list)
             (sql.record (sql.CStmtExec (exec_args x)) d))
          (p ++ [exec_args x])%list eq_refl).
        exact IH.
    + exact (IH (c + 1) (i + 0) (sql.record (sql.CStmtExec (exec_args x)) d) p Hp).
Qed.

(** C1 at a failing input.  Five records in one summary, the third with a
    number of observations that no [SMALLINT] holds: the execution of the
    third fails, the transaction is rolled back and the run ends with that
    error, and the rows of the first two are in the table. *)
Theorem failed_execution_leaves_rows_behind :
  let a := sample_detail "2025 AA" 1 10 in
  let b := sample_detail "2025 AB" 2 11 in
  let c := sample_detail "2025 AC" 3 40000 in
  let d := sample_detail "2025 AD" 4 13 in
  let e := sample_detail "2025 AE" 5 14 in
  let w := sample_world 0 None (Err EOF) [] in
  let batch := [mkSummary "5" "" "1.2" [a; b; c; d; e]] in
  fst (writeSummaries batch w)
    = Err (Errorf "exec" (OSError "pq: value out of range for type smallint"))
  /\ sql.calls (db (snd (writeSummaries batch w)))
     = [sql.CConnect; sql.CExecSchema; sql.CPrepare; sql.CBegin;
        sql.CStmtExec (exec_args a); sql.CStmtExec (exec_args b);
        sql.CStmtExec (exec_args c); sql.CRollback; sql.CClose]
  /\ sql.rows (db (snd (writeSummaries batch w))) = [exec_args a; exec_args b].
Proof.
  vm_compute. repeat split.
Qed.

(** ** The cache directory *)

Lemma modified_since_iff (files : list FileInfo) (t : gotime.Time) :
  modified_since files t = true <->
  exists fi, In fi files /\ IsRegular fi = true /\ t < ModTime fi.
Proof.
  induction files as [| x rest IH]; cbn [modified_since In].
  - split; [discriminate | intros (fi & [] & _)].
  - unfold gotime.After. destruct (IsRegular x) eqn:Er; cbn [negb].
    + destruct (Z.ltb_spec t (ModTime x)) as [Hlt | Hge].
      * split; [| reflexivity]. intros _. exists x. auto.
      * rewrite IH. split.
        -- intros (fi & Hin & Hr & Ht). exists fi. auto.
        -- intros (fi & [<- | Hin] & Hr & Ht); [lia |]. exists fi. auto.
    + rewrite IH. split.
      * intros (fi & Hin & Hr & Ht). exists fi. auto.
      * intros (fi & [<- | Hin] & Hr & Ht); [congruence |]. exists fi. auto.
Qed.

Lemma find_entry_put (fi : FileInfo) (files : list FileInfo) :
  find_entry (Name fi) (put_entry fi files) = Some fi.
Proof.
  unfold find_entry. induction files as [| x rest IH]; cbn [put_entry find].
  - rewrite String.eqb_refl. reflexivity.
  - destruct (String.eqb (Name x) (Name fi)) eqn:E.
    + cbn [find]. rewrite String.eqb_refl. reflexivity.
    + destruct (String.ltb (Name fi) (Name x)); cbn [find].
      * rewrite String.eqb_refl. reflexivity.
      * rewrite E. exact IH.
Qed.

Lemma find_entry_In (name : string) (files : list FileInfo) (fi : FileInfo) :
  find_entry name files = Some fi -> In fi files /\ Name fi = name.
Proof.
  unfold find_entry. intros Hf. apply find_some in Hf as [Hin Hn].
  apply String.eqb_eq in Hn. auto.
Qed.

Lemma take_all (s : string) : take (String.length s) s = s.
Proof. apply substring_all. Qed.

(** A write appends what the disk takes to the entry, which is a regular
    file stamped with the clock; it reports all the bytes or an error. *)
Lemma file_Write_spec (name data : string) (w : World) :
  let '((n, werr), w') := file_Write name data w in
  cache_entry name w'
    = Some (mkFileInfo name true (now w) (entry_content name w ++ take n data) None)
  /\ entry_content name w' = entry_content name w ++ take n data
  /\ (werr = None -> take n data = data)
  /\ same_outside_cache w w'.
Proof.
  unfold file_Write. cbv zeta.
  set (n := match disk_free w with
            | Some free => Nat.min (String.length data) free
            | None => String.length data
            end).
  set (files := match dir w with Some l => l | None => [] end).
  assert (Hold : match find_entry name files with
                 | Some x => content x
                 | None => ""
                 end = entry_content name w).
  { unfold entry_content, files. destruct (dir w); reflexivity. }
  rewrite Hold.
  set (fi := mkFileInfo name true (now w) (entry_content name w ++ take n data) None).
  unfold cache_entry, entry_content at 1. cbn [dir with_dir with_disk_free].
  change name with (Name fi) at 1 2. rewrite find_entry_put.
  repeat split.
  destruct (Nat.ltb_spec n (String.length data)) as [Hlt | Hge]; [discriminate |].
  intros _. replace n with (String.length data); [apply take_all |].
  subst n. destruct (disk_free w); lia.
Qed.

(** Reading through the tee: the bytes handed on are the bytes appended
    to the entry. *)
Lemma tee_Read_spec (name : string) (r : Reader) (w : World) :
  let '((data, err), r', w') := tee_Read (Some name) r w in
  entry_content name w' = entry_content name w ++ data
  /\ r' = tl r
  /\ same_outside_cache w w'
  /\ (w' = w \/ cache_entry name w'
               = Some (mkFileInfo name true (now w) (entry_content name w') None)).
Proof.
  unfold tee_Read, stream_Read.
  destruct r as [| [data err] r']; cbn [tl].
  - cbn. rewrite append_empty_r. repeat split. auto.
  - destruct (Nat.ltb_spec 0 (String.length data)) as [Hpos | Hzero].
    + pose proof (file_Write_spec name data w) as Hw.
      destruct (file_Write name data w) as [[n werr] w1].
      destruct Hw as (Hent & Hcont & Hall & Hsame).
      destruct werr as [e |].
      * repeat split; try apply Hsame; try exact Hcont.
        right. rewrite Hent, Hcont. reflexivity.
      * rewrite (Hall eq_refl) in *.
        repeat split; try apply Hsame; try exact Hcont.
        right. rewrite Hent, Hcont. reflexivity.
    + destruct data; [| cbn in Hzero; lia].
      rewrite append_empty_r. repeat split. auto.
Qed.

Lemma same_outside_cache_refl (w : World) : same_outside_cache w w.
Proof. repeat split. Qed.

Lemma same_outside_cache_trans (w1 w2 w3 : World) :
  same_outside_cache w1 w2 -> same_outside_cache w2 w3 -> same_outside_cache w1 w3.
Proof.
  unfold same_outside_cache. intros (?&?&?&?&?&?&?&?) (?&?&?&?&?&?&?&?).
  repeat split; congruence.
Qed.

(** ** The decoder over the tee *)

Section Tee.

Variable scan : string -> scan_result.
Variable unmarshal : string -> result Summary.

(** The invariant of [readValue] over the tee.  From any state of the
    loop, the bytes added to the decoder's buffer are the bytes added to
    the cache entry, nothing else of the world changes, and a value is
    returned only when the buffer, all of it on disk, holds it. *)
Lemma readValue_tee (name : string) (r : Reader) : forall buf w,
  let '(res, buf', w') := readValue scan (Some name) r buf w in
  exists delta,
    buf' = buf ++ delta
    /\ entry_content name w' = entry_content name w ++ delta
    /\ same_outside_cache w w'
    /\ (w' = w \/ cache_entry name w'
                 = Some (mkFileInfo name true (now w) (entry_content name w') None))
    /\ (forall v, res = Ok v ->
          (exists n, scan buf' = ScanEnd n /\ v = take n buf')
          \/ (v = buf' /\ exists n, scan (buf' ++ " ") = ScanEnd n)).
Proof.
  induction r as [| x r' IH]; intros buf w.
  - cbn [readValue]. destruct (scan buf) as [n | | e] eqn:Es.
    + exists "". rewrite !append_empty_r. repeat split; auto.
      intros v Hv. injection Hv as <-. left. exists n. auto.
    + exists "". rewrite !append_empty_r. repeat split; auto.
      unfold read_failed. intros v.
      destruct (scan (buf ++ " ")) as [n | | e] eqn:Ee.
      * intros Hv. injection Hv as <-. right. eauto.
      * destruct (nonSpace buf); discriminate.
      * destruct (nonSpace buf); discriminate.
    + exists "". rewrite !append_empty_r. repeat split; auto. discriminate.
  - cbn [readValue]. destruct (scan buf) as [n | | e] eqn:Es.
    + exists "". rewrite !append_empty_r. repeat split; auto.
      intros v Hv. injection Hv as <-. left. exists n. auto.
    + pose proof (tee_Read_spec name (x :: r') w) as Ht.
      destruct (tee_Read (Some name) (x :: r') w) as [[[data err] r1] w1].
      destruct Ht as (Hcont & _ & Hsame & Hent).
      assert (Hent1 : w1 = w \/ cache_entry name w1
                = Some (mkFileInfo name true (now w) (entry_content name w1) None))
        by exact Hent.
      destruct err as [e |].
      * destruct (scan (buf ++ data)) as [n | | e'] eqn:Es2;
          exists data; (split; [reflexivity |]); (split; [exact Hcont |]);
          (split; [exact Hsame |]); (split; [exact Hent1 |]).
        -- intros v Hv. injection Hv as <-. left. exists n. auto.
        -- unfold read_failed. intros v. destruct e; try discriminate.
           destruct (scan ((buf ++ data) ++ " ")) as [n | | e'] eqn:Ee.
           ++ intros Hv. injection Hv as <-. right. eauto.
           ++ destruct (nonSpace (buf ++ data)); discriminate.
           ++ destruct (nonSpace (buf ++ data)); discriminate.
        -- discriminate.
      * specialize (IH (buf ++ data) w1).
        destruct (readValue scan (Some name) r' (buf ++ data) w1) as [[res buf'] w'].
        destruct IH as (delta & Hb & Hc & Hs & He & Hv).
        exists (data ++ delta). rewrite <- !append_assoc.
        split; [rewrite Hb; reflexivity |].
        split; [rewrite Hc, Hcont; reflexivity |].
        split; [apply (same_outside_cache_trans _ _ _ Hsame Hs) |].
        split.
        -- destruct He as [-> | He].
           ++ destruct Hent1 as [-> | Hent1]; [left; reflexivity | right; exact Hent1].
           ++ right. rewrite He. destruct Hsame as (Hnow & _). now rewrite Hnow.
        -- exact Hv.
    + exists "". rewrite !append_empty_r. repeat split; auto. discriminate.
Qed.

(** Without a tee the world is not touched, and the result does not
    depend on it. *)
Lemma readValue_plain (r : Reader) : forall buf w,
  snd (readValue scan None r buf w) = w
  /\ forall w2, fst (readValue scan None r buf w2) = fst (readValue scan None r buf w).
Proof.
  induction r as [| x r' IH]; intros buf w; cbn [readValue];
    destruct (scan buf) as [n | | e]; try (split; [reflexivity | intros; reflexivity]).
  unfold tee_Read, stream_Read. destruct x as [data [e |]].
  - destruct (scan (buf ++ data)); split; try reflexivity; intros; reflexivity.
  - cbv beta iota zeta. exact (IH (buf ++ data) w).
Qed.

(** Decoding a cache entry: its content in one read. *)
Lemma Decode_entry (c : string) (w : World) :
  exists buf, Decode scan unmarshal None [(c, None)] w
              = (file_summary scan unmarshal c, buf, w).
Proof.
  unfold Decode, file_summary. cbn [readValue]. unfold tee_Read, stream_Read.
  destruct (scan "") as [n | | e].
  - eexists. reflexivity.
  - cbn [append readValue]. destruct (scan c) as [n | | e].
    + eexists. reflexivity.
    + destruct (read_failed scan c EOF); eexists; reflexivity.
    + eexists. reflexivity.
  - eexists. reflexivity.
Qed.

End Tee.

(** ** Creating the cache entry *)

Lemma newCacheFile_spec (w : World) :
  match newCacheFile w with
  | (Ok name, w1) =>
      name = strconv.Itoa (gotime.Unix (now w)) ++ ".json"
      /\ cache_entry name w1 = Some (mkFileInfo name true (now w) "" None)
      /\ entry_content name w1 = ""
      /\ same_outside_cache w w1 /\ disk_free w1 = disk_free w
  | (Err e, w1) => same_outside_cache w w1
  end.
Proof.
  assert (Hput : forall name files,
    let w1 := with_dir (Some (put_entry (mkFileInfo name true (now w) "" None) files))
                (with_dir (Some files) w) in
    name = name
    /\ cache_entry name w1 = Some (mkFileInfo name true (now w) "" None)
    /\ entry_content name w1 = ""
    /\ same_outside_cache w w1 /\ disk_free w1 = disk_free w).
  { intros name files w1. unfold cache_entry, entry_content. subst w1. cbn [dir with_dir].
    pose proof (find_entry_put (mkFileInfo name true (now w) "" None) files) as Hf.
    cbn [Name] in Hf. rewrite Hf. repeat split. }
  unfold newCacheFile. cbv zeta.
  destruct (dir w) as [files |] eqn:Ed.
  - cbn [now with_dir create_err].
    destruct (create_err w) as [e |]; [repeat split |].
    destruct (find_entry _ files) as [x |]; [destruct (IsRegular x) |];
      try apply Hput. repeat split.
  - destruct (mkdir_err w) as [e |]; [repeat split |].
    cbn [now with_dir create_err].
    destruct (create_err w) as [e |]; [repeat split |].
    cbn [find_entry find]. apply Hput.
Qed.

Section Pipeline.

Variable scan : string -> scan_result.
Variable unmarshal : string -> result Summary.

(** Decoding through the tee from an empty entry: the entry ends up
    holding exactly the bytes handed to the decoder, and the summary, when
    there is one, was made from a value all of whose bytes are among
    them. *)
Lemma Decode_tee (name : string) (r : Reader) (w : World) :
  entry_content name w = "" ->
  let '(res, buf, w') := Decode scan unmarshal (Some name) r w in
  entry_content name w' = buf
  /\ same_outside_cache w w'
  /\ (w' = w \/ cache_entry name w' = Some (mkFileInfo name true (now w) buf None))
  /\ (forall s, res = Ok s ->
        exists n, unmarshal (take n buf) = Ok s).
Proof.
  intros Hempty. unfold Decode.
  pose proof (readValue_tee scan name r "" w) as Hrv.
  destruct (readValue scan (Some name) r "" w) as [[res buf] w'].
  destruct Hrv as (delta & Hb & Hc & Hs & He & Hv).
  cbn [append] in Hb. subst delta. rewrite Hempty in Hc. cbn [append] in Hc.
  destruct res as [v | e].
  - split; [exact Hc |]. split; [exact Hs |]. split.
    + destruct He as [-> | He]; [left; reflexivity | right]. now rewrite He, Hc.
    + intros s Hs'. destruct (Hv v eq_refl) as [(n & _ & ->) | (-> & _)].
      * exists n. exact Hs'.
      * exists (String.length buf). rewrite take_all. exact Hs'.
  - split; [exact Hc |]. split; [exact Hs |]. split; [| discriminate].
    destruct He as [-> | He]; [left; reflexivity | right]. now rewrite He, Hc.
Qed.

(** A cache file younger than the interval: nothing is fetched. *)
Lemma Main_recent (w : World) (files : list FileInfo) (fi : FileInfo) :
  dir w = Some files -> readdir_err w = None ->
  In fi files -> IsRegular fi = true ->
  now w - ModTime fi < minTimeBetweenFetches ->
  Main scan unmarshal false w = (Ok tt, Printf LogNothingToDo w).
Proof.
  intros Hd He Hin Hr Ht. unfold Main, cacheModifiedSince. rewrite Hd, He.
  replace (modified_since files (gotime.Add (now w) (- minTimeBetweenFetches)))
    with true; [reflexivity |].
  symmetry. apply modified_since_iff. exists fi. unfold gotime.Add.
  repeat split; try assumption. lia.
Qed.

(** The steps of a live fetch that gets as far as a decoded summary. *)
Lemma Main_fetched (w w1 w2 : World) (res : Response) (name buf : string)
    (summary : Summary) :
  cacheModifiedSince (gotime.Add (now w) (- minTimeBetweenFetches)) w = Ok false ->
  remote w = Ok res -> StatusCode res = 200 ->
  newCacheFile (with_gets (S (gets w)) w) = (Ok name, w1) ->
  Decode scan unmarshal (Some name) (Body res) w1 = (Ok summary, buf, w2) ->
  Main scan unmarshal false w =
    if negb (String.eqb (Signature_Version summary) expected_version)
    then (Err (ErrUnknownVersion (Signature_Version summary)), w2)
    else writeSummaries [summary] w2.
Proof.
  intros Hc Hr Hs Hn Hd. unfold Main. rewrite Hc. cbv zeta.
  change (remote (with_gets (S (gets w)) w)) with (remote w). rewrite Hr, Hs.
  cbn [Z.eqb Pos.eqb negb]. rewrite Hn, Hd. reflexivity.
Qed.

Lemma cache_entry_In (name : string) (w : World) (fi : FileInfo) :
  cache_entry name w = Some fi ->
  exists files, dir w = Some files /\ In fi files.
Proof.
  unfold cache_entry. destruct (dir w) as [files |]; [| discriminate].
  intros Hf. exists files. split; [reflexivity |]. apply (find_entry_In _ _ _ Hf).
Qed.

(** The cache entry a live fetch leaves once it has created it and run
    the decoder: a regular file stamped with the clock of the run. *)
Lemma fetched_entry (w1 w2 : World) (name buf : string) (r : Reader)
    (res : result Summary) :
  cache_entry name w1 = Some (mkFileInfo name true (now w1) "" None) ->
  entry_content name w1 = "" ->
  Decode scan unmarshal (Some name) r w1 = (res, buf, w2) ->
  cache_entry name w2 = Some (mkFileInfo name true (now w1) buf None)
  /\ same_outside_cache w1 w2.
Proof.
  intros Hent Hempty Hd. pose proof (Decode_tee name r w1 Hempty) as Ht.
  rewrite Hd in Ht. destruct Ht as (Hc & Hs & He & _). split; [| exact Hs].
  destruct He as [-> | He]; [| exact He].
  rewrite Hent. rewrite Hempty in Hc. now subst buf.
Qed.

(** A live fetch that ends well after calling the network has left a
    regular file stamped with its clock in the cache directory. *)
Lemma Main_success_entry (w0 w1 : World) :
  Main scan unmarshal false w0 = (Ok tt, w1) -> gets w1 <> gets w0 ->
  exists files fi, dir w1 = Some files /\ In fi files
                   /\ IsRegular fi = true /\ ModTime fi = now w0.
Proof.
  unfold Main.
  destruct (cacheModifiedSince _ w0) as [[|] | e]; [| | discriminate].
  - intros Heq. injection Heq as <-. intros Hg. exfalso. apply Hg. reflexivity.
  - cbv zeta. change (remote (with_gets (S (gets w0)) w0)) with (remote w0).
    destruct (remote w0) as [res | e]; [| discriminate].
    destruct (negb (StatusCode res =? 200)); [discriminate |].
    pose proof (newCacheFile_spec (with_gets (S (gets w0)) w0)) as Hn.
    destruct (newCacheFile (with_gets (S (gets w0)) w0)) as [[name | e] wa];
      [| discriminate].
    destruct Hn as (_ & Hent & Hempty & Hsame & _).
    destruct (Decode scan unmarshal (Some name) (Body res) wa) as [[[summary | e] buf] wb]
      eqn:Hd; [| discriminate].
    assert (Hnow : now wa = now w0) by apply Hsame.
    cbn [now with_gets] in Hent. rewrite <- Hnow in Hent.
    destruct (fetched_entry wa wb name buf _ _ Hent Hempty Hd) as [Hfi _].
    destruct (negb (String.eqb (Signature_Version summary) expected_version));
      [discriminate |].
    intros Hw _.
    pose proof (writeSummaries_frame [summary] wb) as Hfr. rewrite Hw in Hfr.
    cbn [snd] in Hfr. destruct Hfr as (_ & Hdir & _).
    destruct (cache_entry_In _ _ _ Hfi) as (files & Hfiles & Hin).
    exists files, (mkFileInfo name true (now wa) buf None).
    rewrite Hdir. repeat split; assumption.
Qed.

(** C5.  The freshness check is true exactly when the cache directory
    exists, can be listed, and holds a regular file modified strictly
    after the threshold; a missing or an empty directory gives false and
    no error.  So an invocation whose clock is less than the interval past
    the modification of such a file, and in particular one less than the
    interval past a live fetch that ended well, calls the network not at
    all, logs that there is nothing to do and ends well. *)
Theorem freshness_gate (t : gotime.Time) (w : World) :
  (cacheModifiedSince t w = Ok true <->
   exists files fi, dir w = Some files /\ readdir_err w = None
                    /\ In fi files /\ IsRegular fi = true /\ t < ModTime fi)
  /\ (dir w = None -> cacheModifiedSince t w = Ok false)
  /\ (dir w = Some [] -> readdir_err w = None -> cacheModifiedSince t w = Ok false)
  /\ (forall files fi,
        dir w = Some files -> readdir_err w = None ->
        In fi files -> IsRegular fi = true ->
        now w - ModTime fi < minTimeBetweenFetches ->
        Main scan unmarshal false w = (Ok tt, Printf LogNothingToDo w)
        /\ gets (Printf LogNothingToDo w) = gets w
        /\ db (Printf LogNothingToDo w) = db w)
  /\ (forall w0 w1,
        Main scan unmarshal false w0 = (Ok tt, w1) -> gets w1 <> gets w0 ->
        dir w = dir w1 -> readdir_err w = None ->
        now w - now w0 < minTimeBetweenFetches ->
        Main scan unmarshal false w = (Ok tt, Printf LogNothingToDo w)).
Proof.
  split; [| split; [| split; [| split]]].
  - unfold cacheModifiedSince. split.
    + destruct (dir w) as [files |]; [| discriminate].
      destruct (readdir_err w); [discriminate |].
      intros Heq. injection Heq as Heq. apply modified_since_iff in Heq.
      destruct Heq as (fi & Hin & Hr & Ht). exists files, fi. auto.
    + intros (files & fi & -> & -> & Hin & Hr & Ht). f_equal.
      apply modified_since_iff. exists fi. auto.
  - unfold cacheModifiedSince. intros ->. reflexivity.
  - unfold cacheModifiedSince. intros -> ->. reflexivity.
  - intros files fi Hd He Hin Hr Ht.
    rewrite (Main_recent w files fi Hd He Hin Hr Ht). repeat split.
  - intros w0 w1 Hrun Hg Hd He Ht.
    destruct (Main_success_entry w0 w1 Hrun Hg) as (files & fi & Hfiles & Hin & Hr & Hm).
    apply (Main_recent w files fi); try assumption; [congruence | lia].
Qed.

(** C9.  A live fetch whose payload decodes to a summary of another
    version than 1.2: the run ends with the version error, having called
    the database not at all, and the cache entry it created stays,
    a regular file stamped with the clock of the run that holds every
    byte handed to the decoder, the value decoded among them.  Every live
    invocation over that directory whose clock is less than the interval
    past that run calls the network not at all, logs that there is
    nothing to do and ends well, the database untouched. *)
Theorem rejected_payload_blocks_fetches (w w1 w2 : World) (res : Response)
    (name buf : string) (summary : Summary) :
  cacheModifiedSince (gotime.Add (now w) (- minTimeBetweenFetches)) w = Ok false ->
  remote w = Ok res -> StatusCode res = 200 ->
  newCacheFile (with_gets (S (gets w)) w) = (Ok name, w1) ->
  Decode scan unmarshal (Some name) (Body res) w1 = (Ok summary, buf, w2) ->
  Signature_Version summary <> expected_version ->
  Main scan unmarshal false w = (Err (ErrUnknownVersion (Signature_Version summary)), w2)
  /\ db w2 = db w
  /\ cache_entry name w2 = Some (mkFileInfo name true (now w) buf None)
  /\ (exists n, unmarshal (take n buf) = Ok summary)
  /\ (forall w3,
        dir w3 = dir w2 -> readdir_err w3 = None ->
        now w3 - now w < minTimeBetweenFetches ->
        Main scan unmarshal false w3 = (Ok tt, Printf LogNothingToDo w3)
        /\ gets (Printf LogNothingToDo w3) = gets w3
        /\ db (Printf LogNothingToDo w3) = db w3).
Proof.
  intros Hc Hr Hs Hn Hd Hv.
  pose proof (newCacheFile_spec (with_gets (S (gets w)) w)) as Hspec.
  rewrite Hn in Hspec. destruct Hspec as (_ & Hent & Hempty & Hsame & _).
  assert (Hnow : now w1 = now w) by apply Hsame.
  cbn [now with_gets] in Hent. rewrite <- Hnow in Hent.
  destruct (fetched_entry w1 w2 name buf _ _ Hent Hempty Hd) as [Hfi Hsame2].
  pose proof (Decode_tee name (Body res) w1 Hempty) as Ht. rewrite Hd in Ht.
  destruct Ht as (_ & _ & _ & Hval).
  split; [| split; [| split; [| split]]].
  - rewrite (Main_fetched w w1 w2 res name buf summary Hc Hr Hs Hn Hd).
    apply String.eqb_neq in Hv. rewrite Hv. reflexivity.
  - destruct Hsame2 as (_&_&_&_&_&_&Hdb2&_). destruct Hsame as (_&_&_&_&_&_&Hdb1&_).
    rewrite Hdb2, Hdb1. reflexivity.
  - rewrite Hfi, Hnow. reflexivity.
  - apply Hval. reflexivity.
  - intros w3 Hd3 He3 Ht3.
    destruct (cache_entry_In _ _ _ Hfi) as (files & Hfiles & Hin).
    rewrite (Main_recent w3 files (mkFileInfo name true (now w1) buf None));
      try assumption; try reflexivity.
    + repeat split.
    + congruence.
    + cbn [ModTime]. rewrite Hnow. exact Ht3.
Qed.

(** ** Replay *)

(** Replay changes nothing but the log while it reads the entries. *)
Lemma replay_files_frame (files : list FileInfo) : forall acc w,
  let w' := snd (replay_files scan unmarshal files acc w) in
  db w' = db w /\ dir w' = dir w /\ gets w' = gets w /\ now w' = now w.
Proof.
  induction files as [| fi rest IH]; intros acc w; cbn [replay_files].
  - repeat split.
  - destruct (IsRegular fi); cbn [negb]; [| apply IH].
    destruct (open_err fi); [repeat split |].
    destruct (Decode_entry scan unmarshal (content fi) w) as [buf ->].
    destruct (file_summary scan unmarshal (content fi)) as [s | e]; [| repeat split].
    destruct (negb (String.eqb (Signature_Version s) expected_version)).
    + specialize (IH acc (Printf (LogUnknownVersion (Name fi) (Signature_Version s)) w)).
      exact IH.
    + apply IH.
Qed.

(** When every regular entry opens and decodes, the loop keeps the
    summaries of the expected version and logs the others. *)
Lemma replay_files_usable (files : list FileInfo) : forall acc w,
  (forall fi, In fi files -> unusable scan unmarshal fi = false) ->
  replay_files scan unmarshal files acc w
    = (Ok (acc ++ kept scan unmarshal files)%list,
       fold_left (fun w m => Printf m w) (skipped scan unmarshal files) w).
Proof.
  induction files as [| fi rest IH]; intros acc w Hall; cbn [replay_files].
  - cbn. now rewrite app_nil_r.
  - assert (Hrest : forall x, In x rest -> unusable scan unmarshal x = false)
      by (intros x Hx; apply Hall; right; exact Hx).
    pose proof (Hall fi (or_introl eq_refl)) as Hfi.
    unfold kept, skipped. cbn [flat_map]. fold (kept scan unmarshal rest).
    fold (skipped scan unmarshal rest).
    unfold unusable in Hfi. destruct (IsRegular fi); cbn [negb andb] in *.
    + destruct (open_err fi); [discriminate |].
      destruct (Decode_entry scan unmarshal (content fi) w) as [buf ->].
      unfold decoded in *.
      destruct (file_summary scan unmarshal (content fi)) as [s | e]; [| discriminate].
      unfold version_ok.
      destruct (String.eqb (Signature_Version s) expected_version); cbn [negb].
      * rewrite IH by exact Hrest. cbn [app]. rewrite <- app_assoc. reflexivity.
      * rewrite IH by exact Hrest. cbn [app fold_left]. reflexivity.
    + cbn [app]. apply IH, Hrest.
Qed.

(** The first regular entry that does not decode ends the loop with the
    decode error naming it. *)
Lemma replay_files_decode_error (pre post : list FileInfo) (fi : FileInfo) (e : error) :
  forall acc w,
  (forall x, In x pre -> unusable scan unmarshal x = false) ->
  IsRegular fi = true -> open_err fi = None -> decoded scan unmarshal fi = Err e ->
  fst (replay_files scan unmarshal (pre ++ fi :: post)%list acc w)
    = Err (ErrDecodeFile (Name fi) e).
Proof.
  induction pre as [| x pre IH]; intros acc w Hpre Hr Ho Hd.
  - cbn [app replay_files]. rewrite Hr, Ho. cbn [negb].
    destruct (Decode_entry scan unmarshal (content fi) w) as [buf ->].
    unfold decoded in Hd. rewrite Hd. reflexivity.
  - assert (Hrest : forall y, In y pre -> unusable scan unmarshal y = false)
      by (intros y Hy; apply Hpre; right; exact Hy).
    pose proof (Hpre x (or_introl eq_refl)) as Hx.
    cbn [app replay_files]. unfold unusable in Hx.
    destruct (IsRegular x); cbn [negb andb] in *; [| apply IH; assumption].
    destruct (open_err x); [discriminate |].
    destruct (Decode_entry scan unmarshal (content x) w) as [buf ->].
    unfold decoded in Hx.
    destruct (file_summary scan unmarshal (content x)) as [s | e0]; [| discriminate].
    destruct (negb (String.eqb (Signature_Version s) expected_version));
      apply IH; assumption.
Qed.

(** Any regular entry that does not open or decode ends the loop with an
    error. *)
Lemma replay_files_unusable (files : list FileInfo) : forall acc w,
  (exists fi, In fi files /\ unusable scan unmarshal fi = true) ->
  exists e, fst (replay_files scan unmarshal files acc w) = Err e.
Proof.
  induction files as [| x rest IH]; intros acc w (fi & Hin & Hbad); [destruct Hin |].
  cbn [replay_files].
  destruct (unusable scan unmarshal x) eqn:Hx.
  - unfold unusable in Hx. apply andb_true_iff in Hx as [Hr Hx]. rewrite Hr. cbn [negb].
    destruct (open_err x) as [e |]; [exists e; reflexivity |].
    destruct (Decode_entry scan unmarshal (content x) w) as [buf ->].
    unfold decoded in Hx.
    destruct (file_summary scan unmarshal (content x)) as [s | e]; [discriminate |].
    eexists. reflexivity.
  - assert (Hrest : exists fi, In fi rest /\ unusable scan unmarshal fi = true).
    { destruct Hin as [<- | Hin]; [congruence | eauto]. }
    unfold unusable in Hx.
    destruct (IsRegular x); cbn [negb andb] in *; [| apply IH, Hrest].
    destruct (open_err x); [discriminate |].
    destruct (Decode_entry scan unmarshal (content x) w) as [buf ->].
    unfold decoded in Hx.
    destruct (file_summary scan unmarshal (content x)) as [s | e]; [| discriminate].
    destruct (negb (String.eqb (Signature_Version s) expected_version));
      apply IH, Hrest.
Qed.

Lemma kept_iff (files : list FileInfo) (s : Summary) :
  In s (kept scan unmarshal files) <->
  exists fi, In fi files /\ IsRegular fi = true
             /\ decoded scan unmarshal fi = Ok s
             /\ Signature_Version s = expected_version.
Proof.
  unfold kept. rewrite in_flat_map. split.
  - intros (fi & Hin & Hs). exists fi. split; [exact Hin |].
    destruct (IsRegular fi); [| destruct Hs].
    destruct (decoded scan unmarshal fi) as [s' | e]; [| destruct Hs].
    unfold version_ok in Hs.
    destruct (String.eqb_spec (Signature_Version s') expected_version); [| destruct Hs].
    destruct Hs as [<- | []]. auto.
  - intros (fi & Hin & Hr & Hd & Hv). exists fi. split; [exact Hin |].
    rewrite Hr, Hd. unfold version_ok. rewrite Hv, String.eqb_refl. left. reflexivity.
Qed.

(** C4.  Replay over a cache directory that can be listed.  The first
    regular entry whose content does not decode ends the run with the
    decode error naming it, and any regular entry that does not open or
    decode ends it with an error, the database untouched.  When every
    regular entry opens and decodes, the entries of another version than
    1.2 are logged and skipped and the writer is called once, on the
    summaries of all the others: exactly those decoded from a regular
    entry with version 1.2, whatever the order of the listing. *)
Theorem replay_contract (files : list FileInfo) (w : World) :
  dir w = Some files -> readdir_err w = None ->
  (forall pre fi post e,
      files = (pre ++ fi :: post)%list ->
      (forall x, In x pre -> unusable scan unmarshal x = false) ->
      IsRegular fi = true -> open_err fi = None ->
      decoded scan unmarshal fi = Err e ->
      fst (Main scan unmarshal true w) = Err (ErrDecodeFile (Name fi) e))
  /\ ((exists fi, In fi files /\ unusable scan unmarshal fi = true) ->
      (exists e, fst (Main scan unmarshal true w) = Err e)
      /\ db (snd (Main scan unmarshal true w)) = db w)
  /\ ((forall fi, In fi files -> unusable scan unmarshal fi = false) ->
      Main scan unmarshal true w
        = writeSummaries (kept scan unmarshal files)
            (fold_left (fun w m => Printf m w)
               (skipped scan unmarshal files
                  ++ [LogReplaying (List.length (kept scan unmarshal files))])%list w))
  /\ (forall s, In s (kept scan unmarshal files) <->
        exists fi, In fi files /\ IsRegular fi = true
                   /\ decoded scan unmarshal fi = Ok s
                   /\ Signature_Version s = expected_version)
  /\ (forall files', Permutation files files' ->
        Permutation (kept scan unmarshal files) (kept scan unmarshal files')).
Proof.
  intros Hd He. unfold Main, replayFromCache. rewrite Hd, He.
  split; [| split; [| split; [| split]]].
  - intros pre fi post e -> Hpre Hr Ho Hde.
    pose proof (replay_files_decode_error pre post fi e [] w Hpre Hr Ho Hde) as Hf.
    destruct (replay_files scan unmarshal (pre ++ fi :: post)%list [] w) as [[l | e'] w'];
      cbn [fst] in *; [discriminate | congruence].
  - intros Hbad. destruct (replay_files_unusable files [] w Hbad) as [e Hf].
    pose proof (replay_files_frame files [] w) as Hfr.
    destruct (replay_files scan unmarshal files [] w) as [[l | e'] w'];
      cbn [fst snd] in *; [discriminate |].
    split; [eauto | apply Hfr].
  - intros Hall. rewrite (replay_files_usable files [] w Hall). cbn [app].
    rewrite fold_left_app. reflexivity.
  - apply kept_iff.
  - intros files' Hp. unfold kept. apply Permutation_flat_map, Hp.
Qed.

(** ** Replay with nothing to replay *)

Lemma replay_files_none (files : list FileInfo) : forall acc w,
  (forall fi, In fi files -> IsRegular fi = false) ->
  replay_files scan unmarshal files acc w = (Ok acc, w).
Proof.
  induction files as [| fi rest IH]; intros acc w Hall; cbn [replay_files];
    [reflexivity |].
  rewrite (Hall fi (or_introl eq_refl)). cbn [negb].
  apply IH. intros x Hx. apply Hall. right. exact Hx.
Qed.

(** The writer on an empty batch: whatever the environment fails, the
    table keeps its rows, and the first call is the connect. *)
Lemma writeSummaries_nil (w : World) :
  sql.rows (db (snd (writeSummaries [] w))) = sql.rows (db w)
  /\ (exists rest, sql.calls (db (snd (writeSummaries [] w)))
                   = (sql.calls (db w) ++ sql.CConnect :: rest)%list)
  /\ (sql.connect_err (db w) = None -> sql.schema_err (db w) = None ->
      sql.prepare_err (db w) = None -> sql.begin_err (db w) = None ->
      sql.commit_err (db w) = None ->
      fst (writeSummaries [] w) = Ok tt
      /\ sql.calls (db (snd (writeSummaries [] w)))
         = (sql.calls (db w)
              ++ [sql.CConnect; sql.CExecSchema; sql.CPrepare; sql.CBegin;
                  sql.CCommit; sql.CClose])%list
      /\ log (snd (writeSummaries [] w)) = (log w ++ [LogAdded 0 0])%list).
Proof.
  destruct w as [t0 dr re me ce df rm g d lg].
  destruct d as [e1 e2 e3 e4 e5 ef te rs pd cs].
  unfold writeSummaries, writeSummaries_connected, sql.Connect, sql.ExecSchema,
    sql.Prepare, sql.Begin, sql.Commit.
  destruct e1 as [e1 |]; [| destruct e2 as [e2 |]; [| destruct e3 as [e3 |];
    [| destruct e4 as [e4 |]; [| destruct e5 as [e5 |]]]]]; cbn;
    rewrite ?app_nil_r; (split; [reflexivity |]);
    (split; [eexists; rewrite <- ?app_assoc; reflexivity |]);
    try discriminate.
  intros _ _ _ _ _. rewrite <- !app_assoc. repeat split.
Qed.

(** C10.  Replay with no cache directory ends well at once and leaves
    the world as it was, the database not called.  Replay over a directory
    that holds no regular file still connects, and when no call fails it
    issues the schema statement, prepares, begins and commits a
    transaction with no execution in it, and closes.  The rows of the
    table are the same in both cases. *)
Theorem replay_without_entries (w : World) :
  (dir w = None -> Main scan unmarshal true w = (Ok tt, w))
  /\ (forall files,
        dir w = Some files -> readdir_err w = None ->
        (forall fi, In fi files -> IsRegular fi = false) ->
        sql.rows (db (snd (Main scan unmarshal true w))) = sql.rows (db w)
        /\ (exists rest, sql.calls (db (snd (Main scan unmarshal true w)))
                         = (sql.calls (db w) ++ sql.CConnect :: rest)%list)
        /\ (sql.connect_err (db w) = None -> sql.schema_err (db w) = None ->
            sql.prepare_err (db w) = None -> sql.begin_err (db w) = None ->
            sql.commit_err (db w) = None ->
            fst (Main scan unmarshal true w) = Ok tt
            /\ sql.calls (db (snd (Main scan unmarshal true w)))
               = (sql.calls (db w)
                    ++ [sql.CConnect; sql.CExecSchema; sql.CPrepare; sql.CBegin;
                        sql.CCommit; sql.CClose])%list
            /\ log (snd (Main scan unmarshal true w))
               = (log w ++ [LogReplaying 0; LogAdded 0 0])%list)).
Proof.
  split.
  - intros Hd. unfold Main, replayFromCache. rewrite Hd. reflexivity.
  - intros files Hd He Hnone. unfold Main, replayFromCache. rewrite Hd, He.
    rewrite (replay_files_none files [] w Hnone). cbn [List.length].
    destruct (writeSummaries_nil (Printf (LogReplaying 0) w)) as (Hrows & Hcalls & Hclean).
    split; [exact Hrows |]. split; [exact Hcalls |].
    intros H1 H2 H3 H4 H5. destruct (Hclean H1 H2 H3 H4 H5) as (Hok & Hc & Hl).
    split; [exact Hok |]. split; [exact Hc |].
    rewrite Hl. cbn [Printf log]. rewrite <- app_assoc. reflexivity.
Qed.

(** ** The tee of the live fetch *)

(** A read that brings more than the disk takes ends the loop: the bytes
    that fit are written and handed on, and unless they complete the
    value, or are no JSON, the error of the write is the result. *)
Lemma readValue_disk_full (name : string) (data : string) (err : option error)
    (r' : Reader) (buf : string) (w : World) (free : nat) :
  scan buf = ScanMore -> disk_free w = Some free ->
  (free < String.length data)%nat ->
  let '(res, buf', w') := readValue scan (Some name) ((data, err) :: r') buf w in
  buf' = buf ++ take free data
  /\ entry_content name w' = entry_content name w ++ take free data
  /\ res = match scan buf' with
           | ScanEnd n => Ok (take n buf')
           | ScanError e => Err e
           | ScanMore => Err (OSError "write: no space left on device")
           end.
Proof.
  intros Hs Hfree Hlt. cbn [readValue]. rewrite Hs.
  unfold tee_Read, stream_Read.
  replace (0 <? String.length data)%nat with true
    by (symmetry; apply Nat.ltb_lt; lia).
  pose proof (file_Write_spec name data w) as Hw.
  unfold file_Write in *. cbv zeta in *. rewrite Hfree in *.
  replace (Nat.min (String.length data) free) with free in * by lia.
  replace (free <? String.length data)%nat with true in *
    by (symmetry; apply Nat.ltb_lt; lia).
  destruct Hw as (_ & Hcont & _ & _).
  destruct (scan (buf ++ take free data)) eqn:E;
    (split; [reflexivity |]); (split; [exact Hcont |]);
    cbv beta iota zeta; rewrite E; reflexivity.
Qed.

(** The steps of a live fetch whose decoding fails. *)
Lemma Main_decode_failed (w w1 w2 : World) (res : Response) (name buf : string)
    (e : error) :
  cacheModifiedSince (gotime.Add (now w) (- minTimeBetweenFetches)) w = Ok false ->
  remote w = Ok res -> StatusCode res = 200 ->
  newCacheFile (with_gets (S (gets w)) w) = (Ok name, w1) ->
  Decode scan unmarshal (Some name) (Body res) w1 = (Err e, buf, w2) ->
  Main scan unmarshal false w = (Err (Errorf "decode" e), w2)
  /\ cache_entry name w2 = Some (mkFileInfo name true (now w) buf None)
  /\ db w2 = db w.
Proof.
  intros Hc Hr Hs Hn Hd.
  pose proof (newCacheFile_spec (with_gets (S (gets w)) w)) as Hspec.
  rewrite Hn in Hspec. destruct Hspec as (_ & Hent & Hempty & Hsame & _).
  assert (Hnow : now w1 = now w) by apply Hsame.
  cbn [now with_gets] in Hent. rewrite <- Hnow in Hent.
  destruct (fetched_entry w1 w2 name buf _ _ Hent Hempty Hd) as [Hfi Hsame2].
  split; [| split].
  - unfold Main. rewrite Hc. cbv zeta.
    change (remote (with_gets (S (gets w)) w)) with (remote w). rewrite Hr, Hs.
    cbn [Z.eqb Pos.eqb negb]. rewrite Hn, Hd. reflexivity.
  - rewrite Hfi, Hnow. reflexivity.
  - destruct Hsame2 as (_&_&_&_&_&_&Hdb2&_). destruct Hsame as (_&_&_&_&_&_&Hdb1&_).
    rewrite Hdb2, Hdb1. reflexivity.
Qed.

(** C7, as amended.  Through the tee, every read hands the decoder
    exactly the bytes it appended to the cache entry; from any state of
    the decoder's loop on, the bytes added to its buffer are the bytes
    added to the entry, and a value is returned only when the buffer holds
    it whole.  So when the decoding of a live fetch fails, the run ends
    with the decode error and the entry holds every byte the decoder was
    handed.  A read that brings more than the disk takes ends the loop
    with the write's error, unless the bytes that fit already complete the
    value or are rejected by the scanner. *)
Theorem tee_capture (name : string) (r : Reader) (buf : string) (w : World) :
  (let '((data, err), r', w') := tee_Read (Some name) r w in
   entry_content name w' = entry_content name w ++ data)
  /\ (let '(res, buf', w') := readValue scan (Some name) r buf w in
      exists delta,
        buf' = buf ++ delta
        /\ entry_content name w' = entry_content name w ++ delta
        /\ (forall v, res = Ok v ->
              (exists n, scan buf' = ScanEnd n /\ v = take n buf')
              \/ (v = buf' /\ exists n, scan (buf' ++ " ") = ScanEnd n)))
  /\ (forall res w1 e buf' w2,
        cacheModifiedSince (gotime.Add (now w) (- minTimeBetweenFetches)) w = Ok false ->
        remote w = Ok res -> StatusCode res = 200 ->
        newCacheFile (with_gets (S (gets w)) w) = (Ok name, w1) ->
        Decode scan unmarshal (Some name) (Body res) w1 = (Err e, buf', w2) ->
        Main scan unmarshal false w = (Err (Errorf "decode" e), w2)
        /\ cache_entry name w2 = Some (mkFileInfo name true (now w) buf' None)
        /\ db w2 = db w)
  /\ (forall data err r' free,
        r = (data, err) :: r' -> scan buf = ScanMore ->
        disk_free w = Some free -> (free < String.length data)%nat ->
        let '(res, buf', w') := readValue scan (Some name) r buf w in
        buf' = buf ++ take free data
        /\ entry_content name w' = entry_content name w ++ take free data
        /\ res = match scan buf' with
                 | ScanEnd n => Ok (take n buf')
                 | ScanError e => Err e
                 | ScanMore => Err (OSError "write: no space left on device")
                 end).
Proof.
  split; [| split; [| split]].
  - pose proof (tee_Read_spec name r w) as Ht.
    destruct (tee_Read (Some name) r w) as [[[data err] r'] w']. apply Ht.
  - pose proof (readValue_tee scan name r buf w) as Hrv.
    destruct (readValue scan (Some name) r buf w) as [[res buf'] w'].
    destruct Hrv as (delta & Hb & Hc & _ & _ & Hv). exists delta. auto.
  - intros res w1 e buf' w2. apply Main_decode_failed.
  - intros data err r' free -> Hs Hf Hlt.
    apply readValue_disk_full; assumption.
Qed.

End Pipeline.

(** Setting the clock changes the clock only. *)
Lemma at_time_frame (t : gotime.Time) (w : World) :
  dir (at_time t w) = dir w /\ readdir_err (at_time t w) = readdir_err w
  /\ gets (at_time t w) = gets w /\ db (at_time t w) = db w
  /\ now (at_time t w) = t.
Proof. repeat split. Qed.

(** ** The properties on sample runs *)

(** C7, the claim as stated, fails.  The body is a payload of version 1.2
    followed by a line feed, 124 bytes in one read, and the disk takes
    123.  The write fails, and the tee returns its error with the 123
    bytes written; these complete the value, so the decoder does not look
    at the error: the fetch is not aborted, the record is inserted and the
    run ends well. *)
Lemma write_failure_without_abort :
  let payload := sample_payload "1.2" sample_record_text in
  let body := payload ++ String "010" "" in
  let clock := gotime.Date 2025 1 1 12 0 in
  let res := mkResponse 200 "200 OK" [(body, None)] in
  let w := with_disk_free (Some 123%nat) (sample_world clock None (Ok res) []) in
  let name := strconv.Itoa (gotime.Unix clock) ++ ".json" in
  let w1 := snd (newCacheFile (with_gets 1 w)) in
  String.length body = 124%nat
  /\ fst (fst (tee_Read (Some name) [(body, None)] w1))
     = (payload, Some (OSError "write: no space left on device"))
  /\ fst (Main sample_scan sample_unmarshal false w) = Ok tt
  /\ entry_content name (snd (Main sample_scan sample_unmarshal false w)) = payload
  /\ List.length (sql.rows (db (snd (Main sample_scan sample_unmarshal false w)))) = 1%nat
  /\ log (snd (Main sample_scan sample_unmarshal false w)) = [LogAdded 1 0].
Proof.
  vm_compute. repeat split.
Qed.


(** C4 on a cache of three entries: a payload of version 1.2, a payload
    of version 2.0 and a directory.  The second is logged and skipped, the
    third is passed over, and the first is written. *)
Lemma replay_contract_sample :
  let files := [ sample_entry "1.json" 10 (sample_payload "1.2" sample_record_text);
                 sample_entry "2.json" 20 (sample_payload "2.0" sample_record_text);
                 mkFileInfo "old" false 5 "" None ] in
  let w := sample_world 100 (Some files) (Err EOF) [] in
  fst (Main sample_scan sample_unmarshal true w) = Ok tt
  /\ log (snd (Main sample_scan sample_unmarshal true w))
     = [LogUnknownVersion "2.json" "2.0"; LogReplaying 1; LogAdded 1 0]
  /\ List.length (sql.rows (db (snd (Main sample_scan sample_unmarshal true w)))) = 1%nat.
Proof.
  intros files w.
  destruct (replay_contract sample_scan sample_unmarshal files w eq_refl eq_refl)
    as (_ & _ & Hkeep & _ & _).
  rewrite Hkeep.
  - vm_compute. repeat split.
  - intros fi [<- | [<- | [<- | []]]]; vm_compute; reflexivity.
Defined.

(** C9 on a payload of version 2.0: the run fails, and ten minutes later
    a live invocation fetches nothing. *)
Lemma rejected_payload_sample :
  let body := sample_payload "2.0" sample_record_text in
  let clock := gotime.Date 2025 1 1 12 0 in
  let res := mkResponse 200 "200 OK" [(body, None)] in
  let w := sample_world clock None (Ok res) [] in
  let w2 := snd (Main sample_scan sample_unmarshal false w) in
  let w3 := at_time (gotime.Date 2025 1 1 12 10) w2 in
  fst (Main sample_scan sample_unmarshal false w) = Err (ErrUnknownVersion "2.0")
  /\ entry_content (strconv.Itoa (gotime.Unix clock) ++ ".json") w2 = body
  /\ sql.calls (db w2) = []
  /\ Main sample_scan sample_unmarshal false w3 = (Ok tt, Printf LogNothingToDo w3)
  /\ gets (snd (Main sample_scan sample_unmarshal false w3)) = 1%nat.
Proof.
  intros body clock res w w2 w3.
  set (name := strconv.Itoa (gotime.Unix clock) ++ ".json").
  set (w1 := snd (newCacheFile (with_gets 1 w))).
  set (dec := Decode sample_scan sample_unmarshal (Some name) (Body res) w1).
  assert (Hsum : exists summary, fst (fst dec) = Ok summary
                                 /\ Signature_Version summary = "2.0")
    by (eexists; split; vm_compute; reflexivity).
  destruct Hsum as (summary & Hsum & Hver).
  assert (Hdec : dec = (Ok summary, snd (fst dec), snd dec))
    by (rewrite <- Hsum; destruct dec as [[? ?] ?]; reflexivity).
  destruct (rejected_payload_blocks_fetches sample_scan sample_unmarshal
              w w1 (snd dec) res name (snd (fst dec)) summary)
    as (Hmain & Hdb & Hent & _ & Hnext).
  - reflexivity.
  - reflexivity.
  - reflexivity.
  - vm_compute. reflexivity.
  - exact Hdec.
  - rewrite Hver. discriminate.
  - assert (Hw2 : w2 = snd dec) by (unfold w2; rewrite Hmain; reflexivity).
    split; [rewrite Hmain, Hver; reflexivity |].
    split; [vm_compute; reflexivity |].
    split; [rewrite Hw2, Hdb; reflexivity |].
    destruct (Hnext w3) as (Hrun & Hgets & _).
    + unfold w3. rewrite Hw2. apply at_time_frame.
    + vm_compute. reflexivity.
    + vm_compute. reflexivity.
    + split; [exact Hrun |]. rewrite Hrun. vm_compute. reflexivity.
Defined.

(** C5 on two invocations ten minutes apart: the first fetches and
    ingests, the second has nothing to do. *)
Lemma freshness_gate_sample :
  let w := at_time (gotime.Date 2025 1 1 12 10) sample_after_fetch in
  Main sample_scan sample_unmarshal false sample_fetch_world = (Ok tt, sample_after_fetch)
  /\ gets sample_after_fetch = 1%nat
  /\ Main sample_scan sample_unmarshal false w = (Ok tt, Printf LogNothingToDo w)
  /\ gets (Printf LogNothingToDo w) = 1%nat.
Proof.
  intros w.
  assert (Hrun : Main sample_scan sample_unmarshal false sample_fetch_world
                 = (Ok tt, sample_after_fetch)) by (vm_compute; reflexivity).
  destruct (freshness_gate sample_scan sample_unmarshal 0 w) as (_ & _ & _ & _ & Hnext).
  split; [exact Hrun |]. split; [reflexivity |]. split; [| reflexivity].
  apply (Hnext sample_fetch_world sample_after_fetch Hrun).
  - discriminate.
  - reflexivity.
  - reflexivity.
  - vm_compute. reflexivity.
Defined.

(** C10 on a cache directory that holds a directory and no file. *)
Lemma replay_without_entries_sample :
  let w := sample_world 100 (Some [mkFileInfo "old" false 5 "" None]) (Err EOF) [] in
  fst (Main sample_scan sample_unmarshal true w) = Ok tt
  /\ sql.calls (db (snd (Main sample_scan sample_unmarshal true w)))
     = [sql.CConnect; sql.CExecSchema; sql.CPrepare; sql.CBegin; sql.CCommit; sql.CClose]
  /\ sql.rows (db (snd (Main sample_scan sample_unmarshal true w))) = [].
Proof.
  intros w.
  destruct (replay_without_entries sample_scan sample_unmarshal w) as [_ Hdir].
  destruct (Hdir [mkFileInfo "old" false 5 "" None] eq_refl eq_refl)
    as (Hrows & _ & Hclean).
  - intros fi [<- | []]. reflexivity.
  - destruct (Hclean eq_refl eq_refl eq_refl eq_refl eq_refl) as (Hok & Hcalls & _).
    split; [exact Hok |]. split; [exact Hcalls | exact Hrows].
Defined.

(** ** The connection options *)

Lemma no_space_append (a b : string) :
  no_space (a ++ b) = no_space a && no_space b.
Proof.
  induction a as [| c a IH]; cbn; [reflexivity |]. rewrite IH. apply andb_assoc.
Qed.

Lemma Split_no_space (a : string) : no_space a = true -> Split a = [a].
Proof.
  induction a as [| c a IH]; cbn; [reflexivity |].
  intros H. apply andb_prop in H as [Hc Ha]. apply negb_true_iff in Hc.
  rewrite Hc, (IH Ha). reflexivity.
Qed.

Lemma Split_append (a b : string) :
  no_space a = true -> Split (a ++ " " ++ b) = a :: Split b.
Proof.
  induction a as [| c a IH]; cbn; [reflexivity |].
  intros H. apply andb_prop in H as [Hc Ha]. apply negb_true_iff in Hc.
  rewrite Hc. cbn in IH. rewrite (IH Ha). reflexivity.
Qed.

Lemma Split_Join (l : list string) (o : string) :
  forallb no_space l = true ->
  Split (Join (l ++ [o]) " ") = (l ++ Split o)%list.
Proof.
  induction l as [| x l IH]; intros H.
  - reflexivity.
  - cbn [forallb] in H. apply andb_prop in H as [Hx Hl].
    specialize (IH Hl). cbn [app Join].
    destruct (l ++ [o])%list as [| y r] eqn:E.
    + destruct l; discriminate.
    + rewrite (Split_append x _ Hx), IH. reflexivity.
Qed.

Lemma Split_Join_named (l : list string) :
  forallb no_space l = true -> l <> [] -> Split (Join l " ") = l.
Proof.
  intros H Hne. destruct (exists_last Hne) as (l' & x & ->).
  rewrite forallb_app in H. apply andb_prop in H as [Hl Hx].
  cbn [forallb] in Hx. rewrite andb_true_r in Hx.
  rewrite (Split_Join l' x Hl), (Split_no_space x Hx). reflexivity.
Qed.

Lemma buildConnectOptions_Join (f : Flags) :
  buildConnectOptions f
  = Join (named_options f
            ++ (if String.eqb (connectOpts f) "" then [] else [connectOpts f]))%list " ".
Proof.
  unfold buildConnectOptions, named_options. cbn [flat_map fst snd].
  destruct (String.eqb (host f) ""), (String.eqb (port f) ""),
    (String.eqb (user f) ""), (String.eqb (password f) ""),
    (String.eqb (dbname f) ""), (String.eqb (connectOpts f) ""); reflexivity.
Qed.

Lemma named_options_no_space (f : Flags) :
  no_space (host f) = true -> no_space (port f) = true ->
  no_space (user f) = true -> no_space (password f) = true ->
  no_space (dbname f) = true ->
  forallb no_space (named_options f) = true.
Proof.
  intros Hh Hp Hu Hw Hd. unfold named_options. cbn [flat_map fst snd].
  destruct (String.eqb (host f) ""), (String.eqb (port f) ""),
    (String.eqb (user f) ""), (String.eqb (password f) ""),
    (String.eqb (dbname f) "");
    cbn [app forallb]; rewrite ?no_space_append, ?Hh, ?Hp, ?Hu, ?Hw, ?Hd; reflexivity.
Qed.

(** X1.  When no value of the five named flags holds a space, the
    options string splits at its spaces into exactly the options of the
    flags that are set, each behind its key and in the order host, port,
    user, password, dbname, followed by the pieces of the additional
    options when these are set; a flag that is empty is left out, and with
    every flag empty the string is empty. *)
Theorem connect_options_split (f : Flags) :
  no_space (host f) = true -> no_space (port f) = true ->
  no_space (user f) = true -> no_space (password f) = true ->
  no_space (dbname f) = true ->
  Split (buildConnectOptions f)
  = (if String.eqb (connectOpts f) ""
     then match named_options f with
          | [] => [""]
          | _ :: _ => named_options f
          end
     else named_options f ++ Split (connectOpts f))%list
  /\ (named_options f = [] -> connectOpts f = "" -> buildConnectOptions f = "").
Proof.
  intros Hh Hp Hu Hw Hd.
  pose proof (named_options_no_space f Hh Hp Hu Hw Hd) as Hns.
  rewrite buildConnectOptions_Join. split.
  - destruct (String.eqb (connectOpts f) "").
    + rewrite app_nil_r. destruct (named_options f) as [| x l] eqn:E; [reflexivity |].
      apply Split_Join_named; [exact Hns | discriminate].
    + apply Split_Join. exact Hns.
  - intros -> ->. reflexivity.
Qed.

(** X1 on the defaults of the flags with a password. *)
Lemma connect_options_split_defaults :
  let f := mkFlags "127.0.0.1" "30000" "tsdbadmin" "secret" "tsdb" "sslmode=require" in
  buildConnectOptions f
    = "host=127.0.0.1 port=30000 user=tsdbadmin password=secret dbname=tsdb sslmode=require"
  /\ Split (buildConnectOptions f)
     = ["host=127.0.0.1"; "port=30000"; "user=tsdbadmin"; "password=secret";
        "dbname=tsdb"; "sslmode=require"].
Proof.
  intros f. split; [reflexivity |].
  exact (proj1 (connect_options_split f eq_refl eq_refl eq_refl eq_refl eq_refl)).
Defined.

(** X2.  The values are written as they are, without quotes or escapes:
    a password that goes on with a space and [dbname=d], the database
    flag being empty, gives the options string of the password without
    that and the database flag [d]. *)
Theorem connect_options_unquoted (h po u p d o : string) :
  p <> "" -> d <> "" ->
  buildConnectOptions (mkFlags h po u (p ++ " dbname=" ++ d) "" o)
  = buildConnectOptions (mkFlags h po u p d o).
Proof.
  intros Hp Hd. rewrite !buildConnectOptions_Join. unfold named_options.
  cbn [flat_map fst snd host port user password dbname connectOpts].
  destruct p as [| c p]; [congruence |]. destruct d as [| c' d]; [congruence |].
  cbn [append String.eqb].
  destruct (String.eqb h ""), (String.eqb po ""), (String.eqb u ""), (String.eqb o "");
    cbn [app Join append]; rewrite ?append_assoc; cbn [append]; reflexivity.
Qed.

(** X2 on a password that names a database. *)
Lemma connect_options_unquoted_sample :
  buildConnectOptions (mkFlags "db.example" "" "scout" "pw dbname=other" "" "")
  = buildConnectOptions (mkFlags "db.example" "" "scout" "pw" "other" "").
Proof.
  apply (connect_options_unquoted "db.example" "" "scout" "pw" "other" ""); discriminate.
Defined.

(** ** [unquote], case by case *)

Lemma string_last (r : string) :
  r <> "" ->
  exists t l, r = t ++ String l ""
    /\ String.get (String.length r - 1) r = Some l
    /\ substring 0 (String.length r - 1) r = t.
Proof.
  induction r as [| c r IH]; [congruence |]. intros _.
  destruct r as [| c' r'].
  - exists "", c. repeat split.
  - destruct IH as (t & l & Hr & Hg & Hs); [discriminate |].
    exists (String c t), l.
    replace (String.length (String c (String c' r')) - 1)%nat
      with (S (String.length (String c' r') - 1)) by (cbn; lia).
    set (k := (String.length (String c' r') - 1)%nat) in *.
    set (r := String c' r') in *.
    split; [cbn [append]; f_equal; exact Hr |].
    split; [exact Hg |].
    change (substring 0 (S k) (String c r)) with (String c (substring 0 k r)).
    rewrite Hs. reflexivity.
Qed.

Lemma append_last_inj (t t' : string) (l l' : ascii) :
  t ++ String l "" = t' ++ String l' "" -> t = t' /\ l = l'.
Proof.
  revert t'. induction t as [| c t IH]; intros [| c' t'] H; cbn in H.
  - injection H as ->. auto.
  - injection H as -> H. destruct t'; discriminate.
  - injection H as -> H. destruct t; discriminate.
  - injection H as -> H. destruct (IH _ H) as [-> ->]. auto.
Qed.

(** X3.  [unquote] strips one pair of quote characters and nothing
    else: a token that is some text between two single or two double
    quotes gives that text, and every other token, the empty one, a lone
    quote character and one whose quotes differ among them, is returned
    as it is. *)
Theorem unquote_cases (data : string) :
  (exists q t, (q = squote \/ q = dquote) /\ data = quoted q t /\ unquote data = t)
  \/ ((forall q t, q = squote \/ q = dquote -> data <> quoted q t)
      /\ unquote data = data).
Proof.
  destruct data as [| c r].
  - right. split; [intros q t _; discriminate | reflexivity].
  - destruct r as [| c' r'].
    + right. split; [| reflexivity].
      intros q t _ H. unfold quoted in H. injection H as _ H. destruct t; discriminate.
    + destruct (string_last (String c' r')) as (t & l & Hr & Hg & Hs); [discriminate |].
      unfold unquote.
      replace (String.length (String c (String c' r')) - 1)%nat
        with (S (String.length (String c' r') - 1)) by (cbn; lia).
      replace (String.length (String c (String c' r')) - 2)%nat
        with (String.length (String c' r') - 1)%nat by (cbn; lia).
      set (k := (String.length (String c' r') - 1)%nat) in *.
      set (r := String c' r') in *.
      change (String.get 0 (String c r)) with (Some c).
      change (String.get (S k) (String c r)) with (String.get k r).
      change (substring 1 k (String c r)) with (substring 0 k r).
      rewrite Hg, Hs.
      replace (1 <? String.length (String c r))%nat with true
        by (symmetry; apply Nat.ltb_lt; cbn; lia).
      cbn [andb].
      destruct (Ascii.eqb c l && (Ascii.eqb c squote || Ascii.eqb c dquote)) eqn:E.
      * left. apply andb_prop in E as [El Eq]. apply Ascii.eqb_eq in El. subst l.
        exists c, t. split; [| split; [| reflexivity]].
        -- apply orb_prop in Eq as [Eq | Eq]; apply Ascii.eqb_eq in Eq; auto.
        -- unfold quoted. rewrite Hr. reflexivity.
      * right. split; [| reflexivity].
        intros q t' Hq H. unfold quoted in H. injection H as -> H.
        rewrite Hr in H. apply append_last_inj in H as [_ ->].
        rewrite Ascii.eqb_refl in E.
        destruct Hq as [-> | ->]; discriminate E.
Qed.

(** ** Decoded timestamps *)

Lemma Date_minutes (y m d h mi : Z) :
  exists k, gotime.Date y m d h mi = k * gotime.Minute.
Proof.
  unfold gotime.Date. cbv zeta.
  match goal with
  | |- exists k, (?D * 86400 + _ + _) * _ = _ =>
      exists (D * 1440 + h * 60 + mi)
  end.
  unfold gotime.Minute, gotime.Time. ring.
Qed.

(** X4.  Every timestamp the decoder stores is a whole minute of UTC: the
    instant is a multiple of a minute, and its epoch seconds are a
    multiple of sixty. *)
Theorem mintime_whole_minutes (t v : mintime) (data : string) :
  data <> null -> mintime_UnmarshalJSON t data = Ok v ->
  v mod gotime.Minute = 0 /\ gotime.Unix v mod 60 = 0.
Proof.
  intros Hn Hd. rewrite (mintime_UnmarshalJSON_token t data Hn) in Hd.
  apply ParseInLocation_inv in Hd as (y & m & d & n & h & two & mi & _ & _ & _ & ->).
  destruct (Date_minutes y m d h mi) as (k & ->). split.
  - apply Z.mod_mul. discriminate.
  - unfold gotime.Unix, gotime.Minute, gotime.unixToInternal.
    replace (k * (60 * gotime.Second) / gotime.Second) with (k * 60).
    + replace (k * 60 - 62135596800) with ((k - 1035593280) * 60) by ring.
      apply Z.mod_mul. discriminate.
    + rewrite Z.mul_assoc, Z.div_mul; [reflexivity | discriminate].
Qed.

(** X4 on a timestamp of the feed. *)
Lemma mintime_whole_minutes_sample :
  gotime.Date 2025 1 1 5 4 mod gotime.Minute = 0
  /\ gotime.Unix (gotime.Date 2025 1 1 5 4) mod 60 = 0.
Proof.
  apply (mintime_whole_minutes mintime_zero _ (quoted dquote "2025-01-01 05:04")).
  - discriminate.
  - vm_compute. reflexivity.
Defined.

(** ** The statement's parameters and the schema *)

(** X5.  The insert statement names the columns of the schema in the
    schema's order, and [writeSummaries] binds to each of them nil or a
    value of the kind the column holds: strings to the text columns,
    instants to the timestamp columns, a 64-bit float or nil to the real
    columns, an integer or nil to the small integer columns.  The two
    columns of the primary key are the two that are declared not null,
    and they are bound to the record's name and last run, never to nil. *)
Theorem statement_binds_schema (d : Detail) :
  map (fun c => fst (fst c)) schema = columns
  /\ Forall2 (fun a c => fits a (snd (fst c)) = true /\ (snd c = true -> a <> Nil))
       (exec_args d) schema
  /\ positions SMALLINT schema 0 = sql.smallint_columns
  /\ map (fun c => fst (fst c)) (filter (fun c => snd c) schema) = primary_key
  /\ sql.key_of (exec_args d) = Some (ObjectName d, LastRun d).
Proof.
  split; [reflexivity |]. split; [| repeat split].
  unfold exec_args, schema, qint_V, qfloat_V.
  repeat (apply Forall2_cons; [cbn [fst snd]; split;
    [ try reflexivity;
      match goal with
      | |- fits (match ?x with _ => _ end) _ = true => destruct x; reflexivity
      end
    | try discriminate ] |]).
  apply Forall2_nil.
Qed.

(** ** Every path through [writeSummaries] *)

(** What [writeSummaries] does, stage by stage, in terms of the failures
    of the environment. *)
Lemma writeSummaries_paths (summaries : list Summary) (w : World) :
  writeSummaries summaries w =
  let d0 := sql.record sql.CConnect (db w) in
  match sql.connect_err (db w) with
  | Some e => (Err (Errorf "connect" e), with_db d0 w)
  | None =>
  let d1 := sql.record sql.CExecSchema d0 in
  match sql.schema_err (db w) with
  | Some e => (Err (Errorf "schema" e), with_db (sql.Close d1) w)
  | None =>
  let d2 := sql.record sql.CPrepare (sql.with_table d1) in
  match sql.prepare_err (db w) with
  | Some e => (Err (Errorf "prepare" e), with_db (sql.Close d2) w)
  | None =>
  let d3 := sql.record sql.CBegin d2 in
  match sql.begin_err (db w) with
  | Some e => (Err (Errorf "transaction" e), with_db (sql.Close d3) w)
  | None =>
  let d4 := sql.with_pending (Some []) d3 in
  match insert_summaries sql.OnDB summaries 0 0 d4 with
  | (Err e, d5) => (Err e, with_db (sql.Close d5) w)
  | (Ok (c, i), d5) =>
      match sql.commit_err (db w) with
      | Some e =>
          (Err e,
           with_db (sql.Close (sql.with_pending None (sql.record sql.CCommit d5))) w)
      | None =>
          (Ok tt,
           Printf (LogAdded i (c - i))
             (with_db (sql.Close (sql.with_pending None (sql.record sql.CCommit d5))) w))
      end
  end end end end end.
Proof.
  unfold writeSummaries, sql.Connect. cbv zeta.
  change (sql.connect_err (sql.record sql.CConnect (db w)))
    with (sql.connect_err (db w)).
  destruct (sql.connect_err (db w)) as [e |]; [reflexivity |].
  unfold writeSummaries_connected, sql.ExecSchema, sql.Prepare, sql.Begin.
  cbv zeta.
  set (d1 := sql.record sql.CExecSchema (sql.record sql.CConnect (db w))).
  change (sql.schema_err d1) with (sql.schema_err (db w)).
  destruct (sql.schema_err (db w)) as [e |]; [reflexivity |].
  set (d2 := sql.record sql.CPrepare (sql.with_table d1)).
  change (sql.prepare_err d2) with (sql.prepare_err (db w)).
  destruct (sql.prepare_err (db w)) as [e |]; [reflexivity |].
  set (d3 := sql.record sql.CBegin d2).
  change (sql.begin_err d3) with (sql.begin_err (db w)).
  destruct (sql.begin_err (db w)) as [e |]; [reflexivity |].
  set (d4 := sql.with_pending (Some []) d3).
  pose proof (insert_summaries_OnDB summaries 0 0 d4) as [Hin Henv].
  destruct (insert_summaries sql.OnDB summaries 0 0 d4) as [[[c i] | e] d5];
    [| reflexivity].
  destruct Hin as (_ & _ & _ & Hp & _). cbn [snd] in Henv.
  destruct Henv as (_ & _ & _ & _ & Hce & _).
  unfold sql.Commit. cbv zeta.
  change (sql.commit_err (sql.record sql.CCommit d5)) with (sql.commit_err d5).
  change (sql.commit_err d4) with (sql.commit_err (db w)) in Hce. rewrite Hce.
  destruct (sql.commit_err (db w)) as [e |]; [reflexivity |].
  change (sql.pending (sql.record sql.CCommit d5)) with (sql.pending d5).
  rewrite Hp. cbn [sql.pending d4 sql.with_pending].
  cbn [fold_left]. unfold sql.with_rows. cbn [sql.rows sql.record].
  rewrite app_nil_r. destruct d5; reflexivity.
Qed.

Lemma not_In_StmtExec (c : sql.call) (l : list (list any)) :
  (forall a, c <> sql.CStmtExec a) -> ~ In c (map sql.CStmtExec l).
Proof.
  intros Hc Hin. apply in_map_iff in Hin as (a & Ha & _). exact (Hc a (eq_sym Ha)).
Qed.

Ltac no_call :=
  let Hin := fresh "Hin" in
  intros Hin; rewrite ?in_app_iff in Hin; cbn [In] in Hin;
  repeat match goal with
         | H : _ \/ _ |- _ => destruct H
         | H : In _ (map _ _) |- _ => apply in_map_iff in H as (? & ? & _)
         | H : False |- _ => destruct H
         end; discriminate.

(** The calls [writeSummaries] adds to the trace, path by path. *)
Lemma writeSummaries_calls (summaries : list Summary) (w : World) :
  let records := map exec_args (flat_map Data summaries) in
  exists mid,
    sql.calls (db (snd (writeSummaries summaries w))) = (sql.calls (db w) ++ mid)%list
    /\ match sql.connect_err (db w) with
       | Some _ => mid = [sql.CConnect]
       | None =>
       match sql.schema_err (db w) with
       | Some _ => mid = [sql.CConnect; sql.CExecSchema; sql.CClose]
       | None =>
       match sql.prepare_err (db w) with
       | Some _ => mid = [sql.CConnect; sql.CExecSchema; sql.CPrepare; sql.CClose]
       | None =>
       match sql.begin_err (db w) with
       | Some _ =>
           mid = [sql.CConnect; sql.CExecSchema; sql.CPrepare; sql.CBegin; sql.CClose]
       | None =>
           exists execs rest fin,
             records = (execs ++ rest)%list
             /\ mid = ([sql.CConnect; sql.CExecSchema; sql.CPrepare; sql.CBegin]
                         ++ map sql.CStmtExec execs ++ [fin; sql.CClose])%list
             /\ ((fin = sql.CCommit /\ rest = []) \/ fin = sql.CRollback)
       end end end end.
Proof.
  intros records. rewrite writeSummaries_paths. cbv zeta.
  destruct (sql.connect_err (db w)) as [e |];
    [eexists; split; [reflexivity | reflexivity] |].
  destruct (sql.schema_err (db w)) as [e |].
  { eexists. split; [| reflexivity]. cbn. rewrite <- !app_assoc. reflexivity. }
  destruct (sql.prepare_err (db w)) as [e |].
  { eexists. split; [| reflexivity]. cbn. rewrite <- !app_assoc. reflexivity. }
  destruct (sql.begin_err (db w)) as [e |].
  { eexists. split; [| reflexivity]. cbn. rewrite <- !app_assoc. reflexivity. }
  match goal with
  | |- context [insert_summaries sql.OnDB summaries 0 0 ?d] => set (d4 := d)
  end.
  pose proof (insert_summaries_OnDB summaries 0 0 d4) as [Hin _].
  assert (Hc4 : sql.calls d4 = (sql.calls (db w)
            ++ [sql.CConnect; sql.CExecSchema; sql.CPrepare; sql.CBegin])%list).
  { cbn. rewrite <- !app_assoc. reflexivity. }
  destruct (insert_summaries sql.OnDB summaries 0 0 d4) as [[[c i] | e] d5].
  - destruct Hin as (_ & _ & _ & _ & Hcs).
    assert (Hcalls : forall d, sql.calls d = sql.calls d5 ->
              (sql.calls d ++ [sql.CCommit; sql.CClose])%list
              = (sql.calls (db w)
                   ++ [sql.CConnect; sql.CExecSchema; sql.CPrepare; sql.CBegin]
                   ++ map sql.CStmtExec records ++ [sql.CCommit; sql.CClose])%list).
    { intros d ->. rewrite Hcs, Hc4, <- !app_assoc. reflexivity. }
    eexists. split.
    + destruct (sql.commit_err (db w));
        cbn [snd db with_db Printf sql.Close sql.record sql.calls sql.with_pending];
        rewrite <- app_assoc; apply Hcalls; reflexivity.
    + exists records, [], sql.CCommit. rewrite app_nil_r. auto.
  - destruct Hin as (ds1 & x & ds2 & e0 & Hfl & _ & _ & _ & Hcs).
    eexists. split.
    + cbn [snd db with_db sql.Close sql.record sql.calls].
      rewrite Hcs, Hc4, <- !app_assoc. reflexivity.
    + exists (map exec_args (ds1 ++ [x])), (map exec_args ds2), sql.CRollback.
      split; [| split; [| auto]].
      * unfold records. rewrite Hfl, <- map_app, <- app_assoc. reflexivity.
      * reflexivity.
Qed.

(** X6.  Every connection [writeSummaries] opens it closes, once and as
    its last call, whatever happens in between; when the connect fails
    there is nothing to close and nothing else is called. *)
Theorem connection_closed_once (summaries : list Summary) (w : World) :
  exists mid,
    sql.calls (db (snd (writeSummaries summaries w)))
      = (sql.calls (db w) ++ sql.CConnect :: mid)%list
    /\ (sql.connect_err (db w) <> None -> mid = [])
    /\ (sql.connect_err (db w) = None ->
        exists body, mid = (body ++ [sql.CClose])%list
                     /\ ~ In sql.CClose body /\ ~ In sql.CConnect body).
Proof.
  destruct (writeSummaries_calls summaries w) as (mid & Hcalls & Hmid).
  rewrite Hcalls. clear Hcalls.
  destruct (sql.connect_err (db w)) as [e |].
  { subst mid. exists []. split; [reflexivity |]. split; [reflexivity | discriminate]. }
  destruct (sql.schema_err (db w)) as [e |].
  { subst mid. eexists. split; [reflexivity |]. split; [congruence |]. intros _.
    exists [sql.CExecSchema]. split; [reflexivity |]. split; no_call. }
  destruct (sql.prepare_err (db w)) as [e |].
  { subst mid. eexists. split; [reflexivity |]. split; [congruence |]. intros _.
    exists [sql.CExecSchema; sql.CPrepare]. split; [reflexivity |]. split; no_call. }
  destruct (sql.begin_err (db w)) as [e |].
  { subst mid. eexists. split; [reflexivity |]. split; [congruence |]. intros _.
    exists [sql.CExecSchema; sql.CPrepare; sql.CBegin].
    split; [reflexivity |]. split; no_call. }
  destruct Hmid as (execs & rest & fin & _ & -> & Hfin).
  eexists. split; [reflexivity |]. split; [congruence |]. intros _.
  exists ([sql.CExecSchema; sql.CPrepare; sql.CBegin]
            ++ map sql.CStmtExec execs ++ [fin])%list.
  split; [cbn [app]; rewrite <- !app_assoc; reflexivity |].
  destruct Hfin as [[-> _] | ->]; split; no_call.
Qed.

(** X7.  [writeSummaries] leaves no transaction open: when none is open
    before the call none is open after it, and a transaction it has
    begun it ends with exactly one commit or one rollback, the commit
    only after every record of the batch was executed. *)
Theorem transaction_always_ended (summaries : list Summary) (w : World) :
  sql.pending (db w) = None ->
  sql.pending (db (snd (writeSummaries summaries w))) = None
  /\ (sql.connect_err (db w) = None -> sql.schema_err (db w) = None ->
      sql.prepare_err (db w) = None -> sql.begin_err (db w) = None ->
      exists execs rest fin,
        map exec_args (flat_map Data summaries) = (execs ++ rest)%list
        /\ sql.calls (db (snd (writeSummaries summaries w)))
           = (sql.calls (db w)
                ++ [sql.CConnect; sql.CExecSchema; sql.CPrepare; sql.CBegin]
                ++ map sql.CStmtExec execs ++ [fin; sql.CClose])%list
        /\ ((fin = sql.CCommit /\ rest = []) \/ fin = sql.CRollback)).
Proof.
  intros Hp. split.
  - rewrite writeSummaries_paths. cbv zeta.
    destruct (sql.connect_err (db w)); [exact Hp |].
    destruct (sql.schema_err (db w)); [exact Hp |].
    destruct (sql.prepare_err (db w)); [exact Hp |].
    destruct (sql.begin_err (db w)); [exact Hp |].
    match goal with
    | |- context [insert_summaries sql.OnDB summaries 0 0 ?d] => set (d4 := d)
    end.
    pose proof (insert_summaries_OnDB summaries 0 0 d4) as [Hin _].
    destruct (insert_summaries sql.OnDB summaries 0 0 d4) as [[[c i] | e] d5].
    + destruct (sql.commit_err (db w)); reflexivity.
    + destruct Hin as (ds1 & x & ds2 & e0 & _ & _ & _ & Hp5 & _). exact Hp5.
  - intros Hc Hs Hpr Hb.
    destruct (writeSummaries_calls summaries w) as (mid & Hcalls & Hmid).
    rewrite Hc, Hs, Hpr, Hb in Hmid.
    destruct Hmid as (execs & rest & fin & Hrec & -> & Hfin).
    exists execs, rest, fin. auto.
Qed.

(** X7 on a batch whose third record the server rejects. *)
Lemma transaction_always_ended_sample :
  let a := sample_detail "2025 AA" 1 10 in
  let b := sample_detail "2025 AB" 2 11 in
  let c := sample_detail "2025 AC" 3 40000 in
  let w := sample_world 0 None (Err EOF) [] in
  sql.pending (db (snd (writeSummaries [mkSummary "3" "" "1.2" [a; b; c]] w))) = None.
Proof.
  intros a b c w.
  exact (proj1 (transaction_always_ended [mkSummary "3" "" "1.2" [a; b; c]] w eq_refl)).
Defined.

(** X8.  The errors of [writeSummaries].  A run that fails logs
    nothing.  Its error is the failure of the connect, the schema, the
    prepare or the begin behind the prefix of that stage, in which case
    no statement was executed and the table has the rows it had; or the
    failure of an execution behind the prefix [exec]; or the failure of
    the commit, which alone is returned as it is, without a prefix. *)
Theorem ingestion_errors (summaries : list Summary) (w w' : World) (e : error) :
  writeSummaries summaries w = (Err e, w') ->
  log w' = log w
  /\ ((exists stage e0,
         In stage ["connect"; "schema"; "prepare"; "transaction"]
         /\ e = Errorf stage e0
         /\ sql.rows (db w') = sql.rows (db w)
         /\ exists mid, sql.calls (db w') = (sql.calls (db w) ++ mid)%list
                        /\ forall a, ~ In (sql.CStmtExec a) mid)
      \/ (exists e0 ds1 x ds2,
            e = Errorf "exec" e0
            /\ flat_map Data summaries = (ds1 ++ x :: ds2)%list
            /\ sql.rows (db w') = insert_all (sql.rows (db w)) (map exec_args ds1))
      \/ sql.commit_err (db w) = Some e).
Proof.
  rewrite writeSummaries_paths. cbv zeta.
  destruct (sql.connect_err (db w)) as [e1 |].
  { intros H. injection H as <- <-. split; [reflexivity |]. left.
    exists "connect", e1. cbn [In]. repeat split; auto.
    exists [sql.CConnect]. split; [reflexivity |]. intros a. no_call. }
  destruct (sql.schema_err (db w)) as [e1 |].
  { intros H. injection H as <- <-. split; [reflexivity |]. left.
    exists "schema", e1. cbn [In]. repeat split; auto.
    exists [sql.CConnect; sql.CExecSchema; sql.CClose].
    split; [cbn; rewrite <- !app_assoc; reflexivity |]. intros a. no_call. }
  destruct (sql.prepare_err (db w)) as [e1 |].
  { intros H. injection H as <- <-. split; [reflexivity |]. left.
    exists "prepare", e1. cbn [In]. repeat split; auto.
    exists [sql.CConnect; sql.CExecSchema; sql.CPrepare; sql.CClose].
    split; [cbn; rewrite <- !app_assoc; reflexivity |]. intros a. no_call. }
  destruct (sql.begin_err (db w)) as [e1 |].
  { intros H. injection H as <- <-. split; [reflexivity |]. left.
    exists "transaction", e1. cbn [In]. repeat split; auto 6.
    exists [sql.CConnect; sql.CExecSchema; sql.CPrepare; sql.CBegin; sql.CClose].
    split; [cbn; rewrite <- !app_assoc; reflexivity |]. intros a. no_call. }
  match goal with
  | |- context [insert_summaries sql.OnDB summaries 0 0 ?d] => set (d4 := d)
  end.
  pose proof (insert_summaries_OnDB summaries 0 0 d4) as [Hin _].
  destruct (insert_summaries sql.OnDB summaries 0 0 d4) as [[[c i] | e5] d5].
  - destruct (sql.commit_err (db w)) as [e1 |]; [| discriminate].
    intros H. injection H as <- <-. split; [reflexivity |]. right; right. reflexivity.
  - destruct Hin as (ds1 & x & ds2 & e0 & Hfl & -> & Hr & _ & _).
    intros H. injection H as <- <-. split; [reflexivity |]. right; left.
    exists e0, ds1, x, ds2. repeat split; [exact Hfl |]. exact Hr.
Qed.

(** X8 on a server that refuses the schema. *)
Lemma ingestion_errors_sample :
  let d := sql.mkDB None (Some (OSError "pq: permission denied")) None None None
             (fun _ => None) false [] None [] in
  let w := with_db d (sample_world 0 None (Err EOF) []) in
  let s := [mkSummary "1" "" "1.2" [sample_detail "2025 AA" 1 10]] in
  fst (writeSummaries s w) = Err (Errorf "schema" (OSError "pq: permission denied"))
  /\ log (snd (writeSummaries s w)) = [].
Proof.
  intros d w s.
  assert (Hrun : writeSummaries s w
                 = (Err (Errorf "schema" (OSError "pq: permission denied")),
                    snd (writeSummaries s w))) by reflexivity.
  split; [reflexivity |].
  exact (proj1 (ingestion_errors s w _ _ Hrun)).
Defined.

(** ** Ingesting a batch again *)

Lemma key_eqb_refl (k : string * gotime.Time) : sql.key_eqb k k = true.
Proof. unfold sql.key_eqb. now rewrite String.eqb_refl, Z.eqb_refl. Qed.

Lemma has_key_app (k : string * gotime.Time) (t1 t2 : list sql.Row) :
  sql.has_key k (t1 ++ t2)%list = sql.has_key k t1 || sql.has_key k t2.
Proof. unfold sql.has_key. apply existsb_app. Qed.

Lemma has_key_insert_all (rs : list sql.Row) : forall table k,
  sql.has_key k table = true -> sql.has_key k (insert_all table rs) = true.
Proof.
  induction rs as [| r rs IH]; intros table k Hk; cbn [insert_all]; [exact Hk |].
  destruct (sql.key_of r) as [k' |]; [destruct (sql.has_key k' table) |];
    apply IH; try exact Hk.
  rewrite has_key_app, Hk. reflexivity.
Qed.

Lemma has_key_inserted (rs : list sql.Row) : forall table r k,
  In r rs -> sql.key_of r = Some k -> sql.has_key k (insert_all table rs) = true.
Proof.
  induction rs as [| x rs IH]; intros table r k Hin Hk; [destruct Hin |].
  cbn [insert_all]. destruct Hin as [-> | Hin].
  - rewrite Hk. destruct (sql.has_key k table) eqn:Eh.
    + apply has_key_insert_all. exact Eh.
    + apply has_key_insert_all. rewrite has_key_app. cbn. rewrite Hk, key_eqb_refl.
      apply orb_true_r.
  - destruct (sql.key_of x) as [k' |]; [destruct (sql.has_key k' table) |];
      apply (IH _ r k Hin Hk).
Qed.

Lemma insert_all_present (rs : list sql.Row) (table : list sql.Row) :
  (forall r k, In r rs -> sql.key_of r = Some k -> sql.has_key k table = true) ->
  insert_all table rs = table.
Proof.
  induction rs as [| r rs IH]; intros H; cbn [insert_all]; [reflexivity |].
  destruct (sql.key_of r) as [k |] eqn:Ek.
  - rewrite (H r k (or_introl eq_refl) Ek). apply IH.
    intros r' k' Hin. apply H. right. exact Hin.
  - apply IH. intros r' k' Hin. apply H. right. exact Hin.
Qed.

(** Offering the same rows to the table a second time changes nothing. *)
Lemma insert_all_twice (rs table : list sql.Row) :
  insert_all (insert_all table rs) rs = insert_all table rs.
Proof.
  apply insert_all_present. intros r k Hin Hk. exact (has_key_inserted rs table r k Hin Hk).
Qed.

Lemma check_row_env (d d' : sql.DB) (args : list any) :
  sql.exec_fault d' = sql.exec_fault d -> sql.check_row d' args = sql.check_row d args.
Proof. unfold sql.check_row. intros ->. reflexivity. Qed.

(** Whether the loops end without an error depends on what the server
    checks of the rows, not on the rows the table holds. *)
Lemma insert_details_is_ok (ds : list Detail) : forall c i d c' i' d',
  sql.exec_fault d' = sql.exec_fault d ->
  is_ok (fst (insert_details sql.OnDB ds c i d)) = true ->
  is_ok (fst (insert_details sql.OnDB ds c' i' d')) = true
  /\ sql.exec_fault (snd (insert_details sql.OnDB ds c' i' d'))
     = sql.exec_fault (snd (insert_details sql.OnDB ds c i d)).
Proof.
  induction ds as [| x ds IH]; intros c i d c' i' d' He; [cbn; auto |].
  cbn [insert_details]. cbv zeta. unfold sql.StmtExec. cbv zeta.
  change (sql.check_row (sql.record (sql.CStmtExec (exec_args x)) d) (exec_args x))
    with (sql.check_row d (exec_args x)).
  change (sql.check_row (sql.record (sql.CStmtExec (exec_args x)) d') (exec_args x))
    with (sql.check_row d' (exec_args x)).
  rewrite (check_row_env d d' _ He).
  destruct (sql.check_row d (exec_args x)); [discriminate |].
  destruct (sql.key_of (exec_args x)) as [k |].
  - change (sql.rows (sql.record (sql.CStmtExec (exec_args x)) d)) with (sql.rows d).
    change (sql.rows (sql.record (sql.CStmtExec (exec_args x)) d')) with (sql.rows d').
    destruct (sql.has_key k (sql.rows d)), (sql.has_key k (sql.rows d'));
      apply IH; exact He.
  - apply IH. exact He.
Qed.

Lemma insert_summaries_is_ok (summaries : list Summary) : forall c i d c' i' d',
  sql.exec_fault d' = sql.exec_fault d ->
  is_ok (fst (insert_summaries sql.OnDB summaries c i d)) = true ->
  is_ok (fst (insert_summaries sql.OnDB summaries c' i' d')) = true.
Proof.
  induction summaries as [| s rest IH]; intros c i d c' i' d' He; [cbn; auto |].
  cbn [insert_summaries].
  pose proof (insert_details_is_ok (Data s) c i d c' i' d' He) as Hd.
  destruct (insert_details sql.OnDB (Data s) c i d) as [[[c1 i1] | e] d1];
    [| discriminate].
  destruct (Hd eq_refl) as [Hok He1].
  destruct (insert_details sql.OnDB (Data s) c' i' d') as [[[c1' i1'] | e] d1'];
    [| discriminate].
  apply IH. exact He1.
Qed.

(** A batch that was ingested, offered again to a database in the state
    the first run left: the run ends well, inserts nothing and reports
    every record as a duplicate. *)
Lemma writeSummaries_again (summaries : list Summary) (w w1 w1' : World) :
  writeSummaries summaries w = (Ok tt, w1) -> db w1' = db w1 ->
  exists w2,
    writeSummaries summaries w1' = (Ok tt, w2)
    /\ sql.rows (db w2) = sql.rows (db w1)
    /\ log w2
       = (log w1' ++ [LogAdded 0 (Z.of_nat (List.length (flat_map Data summaries)))])%list.
Proof.
  rewrite writeSummaries_paths. cbv zeta.
  destruct (sql.connect_err (db w)) as [e |] eqn:Ec; [discriminate |].
  destruct (sql.schema_err (db w)) as [e |] eqn:Es; [discriminate |].
  destruct (sql.prepare_err (db w)) as [e |] eqn:Ep; [discriminate |].
  destruct (sql.begin_err (db w)) as [e |] eqn:Eb; [discriminate |].
  match goal with
  | |- context [insert_summaries sql.OnDB summaries 0 0 ?d] => set (d4 := d)
  end.
  pose proof (insert_summaries_OnDB summaries 0 0 d4) as [Hin Henv].
  pose proof (insert_summaries_is_ok summaries 0 0 d4) as Hok.
  destruct (insert_summaries sql.OnDB summaries 0 0 d4) as [[[c i] | e] d5];
    [| discriminate].
  destruct Hin as (_ & Hr & _ & _ & _). cbn [snd] in Henv.
  destruct Henv as (Hce & Hse & Hpe & Hbe & Hme & Hfe & _).
  destruct (sql.commit_err (db w)) as [e |] eqn:Em; [discriminate |].
  intros H Hdb. injection H as <-.
  cbn [db Printf with_db] in Hdb.
  rewrite writeSummaries_paths. cbv zeta. rewrite Hdb.
  cbn [sql.Close sql.with_pending sql.record sql.connect_err sql.schema_err
       sql.prepare_err sql.begin_err sql.commit_err].
  rewrite Hce, Hse, Hpe, Hbe, Hme.
  change (sql.connect_err d4) with (sql.connect_err (db w)).
  change (sql.schema_err d4) with (sql.schema_err (db w)).
  change (sql.prepare_err d4) with (sql.prepare_err (db w)).
  change (sql.begin_err d4) with (sql.begin_err (db w)).
  change (sql.commit_err d4) with (sql.commit_err (db w)).
  rewrite Ec, Es, Ep, Eb, Em.
  match goal with
  | |- context [insert_summaries sql.OnDB summaries 0 0 ?d] => set (d4' := d)
  end.
  assert (Hf' : sql.exec_fault d4' = sql.exec_fault d4) by exact Hfe.
  specialize (Hok 0 0 d4' Hf' eq_refl).
  pose proof (insert_summaries_OnDB summaries 0 0 d4') as [Hin' _].
  destruct (insert_summaries sql.OnDB summaries 0 0 d4') as [[[c' i'] | e] d5'];
    [| discriminate].
  destruct Hin' as (Hc' & Hr' & Hi' & _ & _).
  assert (Hrows : sql.rows d4' = sql.rows d5) by reflexivity.
  rewrite Hrows, Hr, insert_all_twice in Hr'. rewrite Hrows, Hr, <- Hr' in Hi'.
  eexists. split; [reflexivity |].
  cbn [db Printf with_db log sql.Close sql.with_pending sql.record sql.rows].
  split; [rewrite Hr', Hr; reflexivity |].
  do 2 f_equal. f_equal; lia.
Qed.

(** X9.  Ingestion is idempotent.  A batch [writeSummaries] has
    ingested, ingested once more: the second run ends well, leaves the
    table as the first run left it, and its log line reports nothing
    inserted and every record of the batch a duplicate. *)
Theorem ingestion_idempotent (summaries : list Summary) (w w1 : World) :
  writeSummaries summaries w = (Ok tt, w1) ->
  exists w2,
    writeSummaries summaries w1 = (Ok tt, w2)
    /\ sql.rows (db w2) = sql.rows (db w1)
    /\ log w2
       = (log w1 ++ [LogAdded 0 (Z.of_nat (List.length (flat_map Data summaries)))])%list.
Proof.
  intros Hrun. exact (writeSummaries_again summaries w w1 w1 Hrun eq_refl).
Qed.

(** X9 on a batch of two records. *)
Lemma ingestion_idempotent_sample :
  let s := [mkSummary "2" "" "1.2"
              [sample_detail "2025 AA" 1 10; sample_detail "2025 AB" 2 11]] in
  let w := sample_world 0 None (Err EOF) [] in
  let w1 := snd (writeSummaries s w) in
  exists w2,
    writeSummaries s w1 = (Ok tt, w2)
    /\ sql.rows (db w2) = sql.rows (db w1)
    /\ log w2 = (log w1 ++ [LogAdded 0 2])%list.
Proof.
  intros s w w1.
  assert (Hrun : writeSummaries s w = (Ok tt, w1)) by (vm_compute; reflexivity).
  exact (ingestion_idempotent s w w1 Hrun).
Defined.

(** ** The cache directory across a run *)

Lemma find_entry_put_other (name : string) (fi : FileInfo) (files : list FileInfo) :
  name <> Name fi -> find_entry name (put_entry fi files) = find_entry name files.
Proof.
  intros Hn. apply not_eq_sym in Hn. apply String.eqb_neq in Hn.
  unfold find_entry. induction files as [| x rest IH]; cbn [put_entry find].
  - rewrite Hn. reflexivity.
  - destruct (String.eqb (Name x) (Name fi)) eqn:E.
    + cbn [find]. rewrite Hn. apply String.eqb_eq in E. rewrite E, Hn. reflexivity.
    + destruct (String.ltb (Name fi) (Name x)); cbn [find].
      * rewrite Hn. reflexivity.
      * rewrite IH. reflexivity.
Qed.

Lemma file_Write_other (name name' data : string) (w : World) :
  name' <> name ->
  cache_entry name' (snd (file_Write name data w)) = cache_entry name' w.
Proof.
  intros Hn. unfold file_Write, cache_entry. cbv zeta.
  cbn [snd dir with_dir with_disk_free].
  rewrite find_entry_put_other by exact Hn.
  destruct (dir w); reflexivity.
Qed.

Lemma tee_Read_other (name name' : string) (r : Reader) (w : World) :
  name' <> name ->
  cache_entry name' (snd (tee_Read (Some name) r w)) = cache_entry name' w.
Proof.
  intros Hn. unfold tee_Read, stream_Read.
  destruct r as [| [data err] r']; [reflexivity |].
  destruct (0 <? String.length data)%nat; [| reflexivity].
  pose proof (file_Write_other name name' data w Hn) as Hw.
  destruct (file_Write name data w) as [[n werr] w1]. cbn [snd] in Hw.
  destruct werr; exact Hw.
Qed.

Lemma append_cancel_r (a b s : string) : a ++ s = b ++ s -> a = b.
Proof.
  revert b. induction a as [| c a IH]; intros [| c' b] H; cbn in H.
  - reflexivity.
  - exfalso. apply (f_equal String.length) in H. cbn in H.
    rewrite length_append in H. lia.
  - exfalso. apply (f_equal String.length) in H. cbn in H.
    rewrite length_append in H. lia.
  - injection H as -> H. f_equal. exact (IH _ H).
Qed.

Lemma modified_since_later (files : list FileInfo) (t t' : gotime.Time) :
  t <= t' -> modified_since files t = false -> modified_since files t' = false.
Proof.
  intros Ht Hf. destruct (modified_since files t') eqn:E; [| reflexivity].
  apply modified_since_iff in E as (fi & Hin & Hr & Hlt).
  assert (Htrue : modified_since files t = true)
    by (apply modified_since_iff; exists fi; repeat split; try assumption; lia).
  congruence.
Qed.

Section Runs.

Variable scan : string -> scan_result.
Variable unmarshal : string -> result Summary.

Lemma readValue_other (name name' : string) (r : Reader) : forall buf w,
  name' <> name ->
  cache_entry name' (snd (readValue scan (Some name) r buf w)) = cache_entry name' w.
Proof.
  induction r as [| x r' IH]; intros buf w Hn; cbn [readValue];
    destruct (scan buf); try reflexivity.
  pose proof (tee_Read_other name name' (x :: r') w Hn) as Ht.
  destruct (tee_Read (Some name) (x :: r') w) as [[[data err] r1] w1]. cbn [snd] in Ht.
  destruct err as [e |].
  - destruct (scan (buf ++ data)); exact Ht.
  - rewrite IH by exact Hn. exact Ht.
Qed.

Lemma Decode_other (name name' : string) (r : Reader) (w : World) :
  name' <> name ->
  cache_entry name' (snd (Decode scan unmarshal (Some name) r w)) = cache_entry name' w.
Proof.
  intros Hn. unfold Decode.
  pose proof (readValue_other name name' r "" w Hn) as Hr.
  destruct (readValue scan (Some name) r "" w) as [[[v | e] buf] w1]; exact Hr.
Qed.

Lemma newCacheFile_other (name' : string) (w : World) :
  name' <> strconv.Itoa (gotime.Unix (now w)) ++ ".json" ->
  cache_entry name' (snd (newCacheFile w)) = cache_entry name' w.
Proof.
  intros Hn. unfold newCacheFile, cache_entry. cbv zeta.
  destruct (dir w) as [files |] eqn:Ed.
  - cbn [now with_dir create_err].
    destruct (create_err w); [cbn; reflexivity |].
    destruct (find_entry _ files) as [x |]; [destruct (IsRegular x) |];
      cbn [snd dir with_dir]; try reflexivity;
      apply find_entry_put_other; exact Hn.
  - destruct (mkdir_err w); [cbn; rewrite Ed; reflexivity |].
    cbn [now with_dir create_err].
    destruct (create_err w); [reflexivity |].
    cbn [find_entry find snd dir with_dir].
    rewrite find_entry_put_other by exact Hn. reflexivity.
Qed.

(** X10.  A live run touches one cache entry, the one named by the
    epoch seconds of its clock: every other entry of the cache directory
    is after the run what it was before, whether the run fetched, failed
    or had nothing to do. *)
Theorem live_run_keeps_other_entries (name' : string) (w : World) :
  name' <> strconv.Itoa (gotime.Unix (now w)) ++ ".json" ->
  cache_entry name' (snd (Main scan unmarshal false w)) = cache_entry name' w.
Proof.
  intros Hn. unfold Main.
  destruct (cacheModifiedSince _ w) as [[|] | e]; try reflexivity.
  cbv zeta. change (remote (with_gets (S (gets w)) w)) with (remote w).
  destruct (remote w) as [res | e]; [| reflexivity].
  destruct (negb (StatusCode res =? 200)); [reflexivity |].
  pose proof (newCacheFile_other name' (with_gets (S (gets w)) w) Hn) as Hnew.
  pose proof (newCacheFile_spec (with_gets (S (gets w)) w)) as Hspec.
  destruct (newCacheFile (with_gets (S (gets w)) w)) as [[name | e] wa];
    cbn [snd] in Hnew; [| exact Hnew].
  destruct Hspec as (Hname & _). cbn [now with_gets] in Hname.
  assert (Hne : name' <> name) by (rewrite Hname; exact Hn).
  pose proof (Decode_other name name' (Body res) wa Hne) as Hdec.
  destruct (Decode scan unmarshal (Some name) (Body res) wa) as [[[summary | e] buf] wb];
    cbn [snd] in Hdec; [| cbn [snd]; rewrite Hdec; exact Hnew].
  destruct (negb (String.eqb (Signature_Version summary) expected_version));
    [cbn [snd]; rewrite Hdec; exact Hnew |].
  destruct (writeSummaries_frame [summary] wb) as (_ & Hdir & _).
  unfold cache_entry at 1. rewrite Hdir. fold (cache_entry name' wb).
  rewrite Hdec. exact Hnew.
Qed.

(** X11.  A live run calls the network once when the freshness check
    says the cache is not recent, and not at all when it says the cache
    is recent or fails; whatever happens after the call, it is not
    repeated. *)
Theorem one_fetch_per_run (w : World) :
  gets (snd (Main scan unmarshal false w))
  = match cacheModifiedSince (gotime.Add (now w) (- minTimeBetweenFetches)) w with
    | Ok false => S (gets w)
    | _ => gets w
    end.
Proof.
  unfold Main.
  destruct (cacheModifiedSince _ w) as [[|] | e]; try reflexivity.
  cbv zeta. change (remote (with_gets (S (gets w)) w)) with (remote w).
  destruct (remote w) as [res | e]; [| reflexivity].
  destruct (negb (StatusCode res =? 200)); [reflexivity |].
  pose proof (newCacheFile_spec (with_gets (S (gets w)) w)) as Hspec.
  destruct (newCacheFile (with_gets (S (gets w)) w)) as [[name | e] wa].
  - destruct Hspec as (_ & _ & Hempty & Hsame & _).
    assert (Hga : gets wa = S (gets w)) by apply Hsame.
    pose proof (Decode_tee scan unmarshal name (Body res) wa Hempty) as Hd.
    destruct (Decode scan unmarshal (Some name) (Body res) wa)
      as [[[summary | e] buf] wb]; destruct Hd as (_ & Hsame2 & _);
      assert (Hgb : gets wb = gets wa) by apply Hsame2.
    + destruct (negb (String.eqb (Signature_Version summary) expected_version));
        [cbn [snd]; congruence |].
      destruct (writeSummaries_frame [summary] wb) as (_&_&_&_&_&_&_&Hg).
      congruence.
    + cbn [snd]. congruence.
  - cbn [snd]. apply Hspec.
Qed.

(** X12.  A fetch that fails, by an error of the transport or by a
    status other than 200, ends the run with that error and leaves no
    trace but the call: no cache entry is created, the database is not
    called and nothing is logged.  So it does not hold back the next run:
    the freshness check of any later run over the same directory is
    false again. *)
Theorem failed_fetch_leaves_no_trace (w : World) :
  cacheModifiedSince (gotime.Add (now w) (- minTimeBetweenFetches)) w = Ok false ->
  (forall e, remote w = Err e ->
     Main scan unmarshal false w = (Err (Errorf "fetch" e), with_gets (S (gets w)) w))
  /\ (forall res, remote w = Ok res -> StatusCode res <> 200 ->
        Main scan unmarshal false w
        = (Err (ErrBadResponse (Status res)), with_gets (S (gets w)) w))
  /\ (forall w3, dir w3 = dir w -> readdir_err w3 = readdir_err w ->
        now w <= now w3 ->
        cacheModifiedSince (gotime.Add (now w3) (- minTimeBetweenFetches)) w3 = Ok false).
Proof.
  intros Hgate. split; [| split].
  - intros e He. unfold Main. rewrite Hgate. cbv zeta.
    change (remote (with_gets (S (gets w)) w)) with (remote w). rewrite He. reflexivity.
  - intros res He Hs. unfold Main. rewrite Hgate. cbv zeta.
    change (remote (with_gets (S (gets w)) w)) with (remote w). rewrite He.
    apply Z.eqb_neq in Hs. rewrite Hs. reflexivity.
  - intros w3 Hd He Ht. unfold cacheModifiedSince in *. rewrite Hd, He.
    destruct (dir w) as [files |]; [| reflexivity].
    destruct (readdir_err w); [discriminate |].
    injection Hgate as Hgate. f_equal.
    apply (modified_since_later files (gotime.Add (now w) (- minTimeBetweenFetches)));
      [unfold gotime.Add; lia | exact Hgate].
Qed.


(** X13.  Replay reads and nothing more: it never calls the network, and
    the cache directory is after the run what it was before, whatever the
    entries hold and whatever the database answers. *)
Theorem replay_reads_only (w : World) :
  gets (snd (Main scan unmarshal true w)) = gets w
  /\ dir (snd (Main scan unmarshal true w)) = dir w.
Proof.
  unfold Main, replayFromCache.
  destruct (dir w) as [files |] eqn:Ed; [| cbn [snd]; auto].
  destruct (readdir_err w); [cbn [snd]; auto |].
  pose proof (replay_files_frame scan unmarshal files [] w) as Hfr. cbv zeta in Hfr.
  destruct (replay_files scan unmarshal files [] w) as [[summaries | e] wa];
    cbn [snd] in *; destruct Hfr as (_ & Hd & Hg & _).
  - destruct (writeSummaries_frame summaries
                (Printf (LogReplaying (List.length summaries)) wa))
      as (_ & Hd2 & _ & _ & _ & _ & _ & Hg2).
    rewrite Hd2, Hg2. cbn [Printf dir gets]. rewrite Hd, Hg. auto.
  - rewrite Hd, Hg. auto.
Qed.

(** X14.  Replay is idempotent.  After a replay that ended well, a
    second replay of the same directory ends well too and leaves the
    table as the first left it. *)
Theorem replay_idempotent (w w1 : World) :
  Main scan unmarshal true w = (Ok tt, w1) ->
  exists w2,
    Main scan unmarshal true w1 = (Ok tt, w2)
    /\ sql.rows (db w2) = sql.rows (db w1).
Proof.
  unfold Main, replayFromCache.
  destruct (dir w) as [files |] eqn:Ed.
  - destruct (readdir_err w) eqn:Er; [discriminate |].
    intros Hrun.
    assert (Hus : forall fi, In fi files -> unusable scan unmarshal fi = false).
    { intros fi Hin. destruct (unusable scan unmarshal fi) eqn:E; [| reflexivity].
      exfalso.
      destruct (replay_files_unusable scan unmarshal files [] w
                  (ex_intro _ fi (conj Hin E))) as (e & He).
      destruct (replay_files scan unmarshal files [] w) as [[s | e'] wa];
        cbn [fst] in He; discriminate. }
    rewrite (replay_files_usable scan unmarshal files [] w Hus) in Hrun.
    pose proof (writeSummaries_frame ([] ++ kept scan unmarshal files)%list
      (Printf (LogReplaying (List.length ([] ++ kept scan unmarshal files)%list))
         (fold_left (fun w m => Printf m w) (skipped scan unmarshal files) w))) as Hfr1.
    rewrite Hrun in Hfr1. cbn [snd] in Hfr1.
    destruct Hfr1 as (_ & Hd1 & Hr1 & _).
    destruct (Printf_all (skipped scan unmarshal files) w)
      as (_ & Hd0 & Hr0 & _).
    cbn [Printf dir readdir_err] in Hd1, Hr1. rewrite Hd0 in Hd1. rewrite Hr0 in Hr1.
    rewrite Hd1, Ed, Hr1, Er.
    rewrite (replay_files_usable scan unmarshal files [] w1 Hus).
    destruct (writeSummaries_again _ _ _
                (Printf (LogReplaying (List.length ([] ++ kept scan unmarshal files)%list))
                   (fold_left (fun w m => Printf m w) (skipped scan unmarshal files) w1))
                Hrun) as (w2 & Hrun2 & Hrows & _).
    { cbn [Printf db].
      destruct (Printf_all (skipped scan unmarshal files) w1) as (_&_&_&_&_&_&_&_&Hdb&_).
      exact Hdb. }
    exists w2. split; [exact Hrun2 | exact Hrows].
  - intros H. injection H as <-. exists w. rewrite Ed. split; reflexivity.
Qed.

(** X17.  Once a live run has created its cache file, the outcome of
    the run does not matter to the freshness check: whether the payload
    then decodes or not, has the expected version or not, and whether the
    database takes it or not, every live run over the directory the run
    leaves whose clock is less than the interval past it fetches nothing,
    logs that there is nothing to do and ends well. *)
Theorem created_file_gates_next_runs (w wa : World) (res : Response) (name : string) :
  cacheModifiedSince (gotime.Add (now w) (- minTimeBetweenFetches)) w = Ok false ->
  remote w = Ok res -> StatusCode res = 200 ->
  newCacheFile (with_gets (S (gets w)) w) = (Ok name, wa) ->
  forall w3,
    dir w3 = dir (snd (Main scan unmarshal false w)) -> readdir_err w3 = None ->
    now w3 - now w < minTimeBetweenFetches ->
    Main scan unmarshal false w3 = (Ok tt, Printf LogNothingToDo w3).
Proof.
  intros Hc Hr Hs Hn w3 Hd He Ht.
  pose proof (newCacheFile_spec (with_gets (S (gets w)) w)) as Hspec.
  rewrite Hn in Hspec. destruct Hspec as (_ & Hent & Hempty & Hsame & _).
  assert (Hnow : now wa = now w) by apply Hsame.
  cbn [now with_gets] in Hent. rewrite <- Hnow in Hent.
  destruct (Decode scan unmarshal (Some name) (Body res) wa) as [[r buf] wb] eqn:Hdec.
  destruct (fetched_entry scan unmarshal wa wb name buf _ _ Hent Hempty Hdec) as [Hfi _].
  assert (Hdirs : dir (snd (Main scan unmarshal false w)) = dir wb).
  { unfold Main. rewrite Hc. cbv zeta.
    change (remote (with_gets (S (gets w)) w)) with (remote w). rewrite Hr, Hs.
    cbn [Z.eqb Pos.eqb negb]. rewrite Hn, Hdec.
    destruct r as [summary | e]; [| reflexivity].
    destruct (negb (String.eqb (Signature_Version summary) expected_version));
      [reflexivity |].
    apply (writeSummaries_frame [summary] wb). }
  destruct (cache_entry_In _ _ _ Hfi) as (files & Hfiles & Hin).
  apply (Main_recent scan unmarshal w3 files (mkFileInfo name true (now wa) buf None));
    try assumption; try reflexivity.
  - congruence.
  - cbn [ModTime]. rewrite Hnow. exact Ht.
Qed.

End Runs.

(** X12 on a server that answers 503. *)
Lemma failed_fetch_sample :
  let res := mkResponse 503 "503 Service Unavailable" [] in
  let w := sample_world (gotime.Date 2025 1 1 12 0) None (Ok res) [] in
  Main sample_scan sample_unmarshal false w
  = (Err (ErrBadResponse "503 Service Unavailable"), with_gets 1 w).
Proof.
  intros res w.
  destruct (failed_fetch_leaves_no_trace sample_scan sample_unmarshal w eq_refl) as (_ & Hbad & _).
  apply (Hbad res eq_refl). discriminate.
Defined.

(** X10 on a run that fetches into a directory holding an older entry. *)
Lemma live_run_keeps_other_entries_sample :
  let old := sample_entry "1700000000.json" (gotime.Date 2023 11 14 22 13)
               (sample_payload "1.2" "") in
  let res := mkResponse 200 "200 OK" [(sample_payload "1.2" sample_record_text, None)] in
  let w := sample_world (gotime.Date 2025 1 1 12 0) (Some [old]) (Ok res) [] in
  cache_entry "1700000000.json" (snd (Main sample_scan sample_unmarshal false w))
  = Some old.
Proof.
  intros old res w.
  apply (live_run_keeps_other_entries sample_scan sample_unmarshal "1700000000.json" w).
  vm_compute. discriminate.
Defined.

(** X14 on a directory with one entry. *)
Lemma replay_idempotent_sample :
  let files := [sample_entry "1.json" 10 (sample_payload "1.2" sample_record_text)] in
  let w := sample_world 100 (Some files) (Err EOF) [] in
  let w1 := snd (Main sample_scan sample_unmarshal true w) in
  exists w2,
    Main sample_scan sample_unmarshal true w1 = (Ok tt, w2)
    /\ sql.rows (db w2) = sql.rows (db w1).
Proof.
  intros files w w1.
  assert (Hrun : Main sample_scan sample_unmarshal true w = (Ok tt, w1))
    by (vm_compute; reflexivity).
  exact (replay_idempotent sample_scan sample_unmarshal w w1 Hrun).
Defined.

(** ** The name of the cache file *)

Lemma Itoa_inj (a b : Z) : strconv.Itoa a = strconv.Itoa b -> a = b.
Proof.
  intros H. pose proof (decimal_Itoa a) as Ha. rewrite H, decimal_Itoa in Ha.
  congruence.
Qed.

(** X15.  The cache file of a fetch is named by the epoch second of the
    clock.  Two creations give the same name exactly when their clocks
    are in the same second, and the file a creation returns is empty
    whatever an entry of that name held before, while the entries of
    other names stay as they are. *)
Theorem cache_file_per_second (w w1 : World) (name : string) :
  newCacheFile w = (Ok name, w1) ->
  entry_content name w1 = ""
  /\ (forall other, other <> name -> cache_entry other w1 = cache_entry other w)
  /\ (forall w' w1' name',
        newCacheFile w' = (Ok name', w1') ->
        (name = name' <-> gotime.Unix (now w) = gotime.Unix (now w'))).
Proof.
  intros Hn. pose proof (newCacheFile_spec w) as Hs. rewrite Hn in Hs.
  destruct Hs as (Hname & _ & Hempty & _).
  split; [exact Hempty |]. split.
  - intros other Ho. rewrite Hname in Ho.
    pose proof (newCacheFile_other other w Ho) as H. rewrite Hn in H. exact H.
  - intros w' w1' name' Hn'. pose proof (newCacheFile_spec w') as Hs'.
    rewrite Hn' in Hs'. destruct Hs' as (Hname' & _). subst name name'. split.
    + intros H. apply append_cancel_r in H. exact (Itoa_inj _ _ H).
    + intros ->. reflexivity.
Qed.

(** X15 on a directory that holds a file of the same second. *)
Lemma cache_file_per_second_sample :
  let clock := gotime.Date 2025 1 1 12 0 in
  let name := "1735732800.json" in
  let w := sample_world clock (Some [sample_entry name clock "stale"]) (Err EOF) [] in
  entry_content name w = "stale"
  /\ entry_content name (snd (newCacheFile w)) = "".
Proof.
  intros clock name w. split; [reflexivity |].
  assert (Hn : newCacheFile w = (Ok name, snd (newCacheFile w)))
    by (vm_compute; reflexivity).
  exact (proj1 (cache_file_per_second w _ name Hn)).
Defined.

(** ** Integers the columns do not hold *)

Lemma smallint_columns_fields (P : nat -> bool) :
  forallb P sql.smallint_columns = true
  <-> forall g, P (column_of (IntField g)) = true.
Proof.
  unfold sql.smallint_columns. cbn [forallb]. split.
  - intros H g.
    repeat (apply andb_prop in H as [? H]). destruct g; assumption.
  - intros H.
    pose proof (H FRating). pose proof (H FNeoScore). pose proof (H FNeo1KmScore).
    pose proof (H FPhaScore). pose proof (H FIeoScore). pose proof (H FGeocentricScore).
    pose proof (H FTisserandScore). pose proof (H FNObs). cbn [column_of] in *.
    repeat (apply andb_true_intro; split); auto.
Qed.

(** A record with an integer field beyond 16 bits does not pass the
    server's checks. *)
Lemma check_row_oversized (d0 : sql.DB) (x : Detail) (g : intfield) (z : Z) :
  get_int g x = Qint (Some z) -> ~ (-32768 <= z <= 32767) ->
  sql.check_row d0 (exec_args x) <> None.
Proof.
  intros Hg Hz. unfold sql.check_row.
  destruct (sql.exec_fault d0 (exec_args x)); [discriminate |].
  change (sql.key_of (exec_args x)) with (Some (ObjectName x, LastRun x)).
  cbv iota beta.
  destruct (forallb (fun c => sql.smallint_ok (nth c (exec_args x) Nil))
              sql.smallint_columns) eqn:E; [| discriminate].
  exfalso. apply Hz.
  pose proof (proj1 (smallint_columns_fields _) E g) as Hok. cbv beta in Hok.
  fold (bound (IntField g) x) in Hok. rewrite bound_int, Hg in Hok.
  cbn [qint_V qint_int sql.smallint_ok] in Hok.
  apply andb_prop in Hok as [H1 H2]. apply Z.leb_le in H1, H2. lia.
Qed.

(** The loops end without an error only when every record passes the
    server's checks. *)
Lemma insert_details_checked (ds : list Detail) : forall c i d x,
  is_ok (fst (insert_details sql.OnDB ds c i d)) = true ->
  In x ds -> sql.check_row d (exec_args x) = None.
Proof.
  induction ds as [| y ds IH]; intros c i d x Hok Hin; [destruct Hin |].
  cbn [insert_details] in Hok. cbv zeta in Hok.
  pose proof (StmtExec_OnDB (exec_args y) d) as (Hres & _ & _ & Henv).
  destruct (sql.StmtExec sql.OnDB (exec_args y) d) as [[n | e] d1];
    [| discriminate Hok].
  destruct Hres as (Hchk & _). cbn [snd] in Henv.
  destruct Hin as [<- | Hin]; [exact Hchk |].
  rewrite <- (check_row_env d d1 (exec_args x)) by apply Henv.
  exact (IH _ _ d1 x Hok Hin).
Qed.

Lemma insert_summaries_checked (summaries : list Summary) : forall c i d x,
  is_ok (fst (insert_summaries sql.OnDB summaries c i d)) = true ->
  In x (flat_map Data summaries) -> sql.check_row d (exec_args x) = None.
Proof.
  induction summaries as [| s rest IH]; intros c i d x Hok Hin; [destruct Hin |].
  cbn [insert_summaries] in Hok. cbn [flat_map] in Hin.
  pose proof (insert_details_checked (Data s) c i d x) as Hd.
  pose proof (insert_details_OnDB (Data s) c i d) as [_ Henv].
  destruct (insert_details sql.OnDB (Data s) c i d) as [[[c1 i1] | e] d1];
    [| discriminate Hok].
  cbn [snd] in Henv. apply in_app_or in Hin as [Hin | Hin].
  - exact (Hd eq_refl Hin).
  - rewrite <- (check_row_env d d1 (exec_args x)) by apply Henv.
    exact (IH _ _ d1 x Hok Hin).
Qed.

(** X16.  The decoder takes any integer of 64 bits, the table's integer
    columns hold 16.  A batch with a record one of whose integer fields
    is present and lies outside -32768..32767 is not ingested: when the
    connect, the schema, the prepare and the begin succeed, the run ends
    with an error of an execution, behind the prefix [exec]. *)
Theorem oversized_integer_fails_ingestion (summaries : list Summary) (w : World)
    (x : Detail) (g : intfield) (z : Z) :
  In x (flat_map Data summaries) ->
  get_int g x = Qint (Some z) -> ~ (-32768 <= z <= 32767) ->
  sql.connect_err (db w) = None -> sql.schema_err (db w) = None ->
  sql.prepare_err (db w) = None -> sql.begin_err (db w) = None ->
  exists e0, fst (writeSummaries summaries w) = Err (Errorf "exec" e0).
Proof.
  intros Hin Hg Hz Hc Hs Hp Hb.
  rewrite writeSummaries_paths. cbv zeta. rewrite Hc, Hs, Hp, Hb.
  match goal with
  | |- context [insert_summaries sql.OnDB summaries 0 0 ?d] => set (d4 := d)
  end.
  pose proof (insert_summaries_checked summaries 0 0 d4 x) as Hchk.
  pose proof (insert_summaries_OnDB summaries 0 0 d4) as [Hinv _].
  destruct (insert_summaries sql.OnDB summaries 0 0 d4) as [[[c i] | e] d5].
  - exfalso. exact (check_row_oversized d4 x g z Hg Hz (Hchk eq_refl Hin)).
  - destruct Hinv as (_ & _ & _ & e0 & _ & -> & _). exists e0. reflexivity.
Qed.

(** X16 on a record with forty thousand observations. *)
Lemma oversized_integer_fails_ingestion_sample :
  exists e0,
    fst (writeSummaries [mkSummary "1" "" "1.2" [sample_detail "2025 AC" 3 40000]]
           (sample_world 0 None (Err EOF) []))
    = Err (Errorf "exec" e0).
Proof.
  apply (oversized_integer_fails_ingestion _ _ (sample_detail "2025 AC" 3 40000)
           FNObs 40000); try reflexivity.
  - left. reflexivity.
  - lia.
Defined.

(** X17 on a payload that is not JSON: the run fails in the decoder, and
    a run ten minutes later has nothing to do. *)
Lemma created_file_gates_next_runs_sample :
  let res := mkResponse 200 "200 OK" [("<html>", None)] in
  let w := sample_world (gotime.Date 2025 1 1 12 0) None (Ok res) [] in
  let w3 := at_time (gotime.Date 2025 1 1 12 10)
              (snd (Main sample_scan sample_unmarshal false w)) in
  is_ok (fst (Main sample_scan sample_unmarshal false w)) = false
  /\ Main sample_scan sample_unmarshal false w3 = (Ok tt, Printf LogNothingToDo w3).
Proof.
  intros res w w3. split; [vm_compute; reflexivity |].
  assert (Hn : newCacheFile (with_gets (S (gets w)) w)
               = (Ok "1735732800.json", snd (newCacheFile (with_gets (S (gets w)) w))))
    by (vm_compute; reflexivity).
  apply (created_file_gates_next_runs sample_scan sample_unmarshal w _ res _
           eq_refl eq_refl eq_refl Hn w3).
  - reflexivity.
  - reflexivity.
  - vm_compute. reflexivity.
Defined.
